(** * idb: JSON documents over IndexedDB, with a polled change log

    A shallow embedding of the library's functions ([requestToPromise],
    [openDb], [txDone], [writeJson], [readJson], [deleteKey],
    [readMultipleRecords], [deleteMultipleRecords], [onNewRecord],
    [onNewRecordWithLog]) over a model of the IndexedDB engine they drive.

    The engine is the environment of the program: the library only calls
    [indexedDB.open], [db.transaction], [put], [add], [get], [delete],
    [openCursor] and [db.close].  It is modelled as a state ([Host]) that
    the calls transform, with the engine's documented behaviour: key order,
    key generators, version upgrades, transactions that commit or roll back
    as a whole, and handlers whose exceptions abort the transaction.  What
    the engine decides on its own (an open that fails, a request that fails,
    a commit that fails) is an input, [Faults]. *)

From stdpp Require Import gmap strings list.
From Stdlib Require Import ZArith Sorting.Sorted.

Local Open Scope string_scope.
Local Open Scope list_scope.
Local Open Scope Z_scope.

Set Warnings "-register-all".

(** ** Keys

    [IDBValidKey = number | string | Date | BufferSource | IDBValidKey[]].
    Numbers and dates are carried as integers: the library never computes
    with a key, and the only keys it creates itself are the integers of the
    [changeLog] key generator.  A string key is carried as the sequence of
    its UTF-16 code units, which is what the engine compares; a buffer as
    the sequence of its bytes. *)

Definition DOMString : Type := list N.

(** The code units of a string literal, one for each of its characters. *)
Definition code_units (s : string) : DOMString :=
  map Ascii.N_of_ascii (String.list_ascii_of_string s).

Coercion code_units : string >-> DOMString.

Inductive IDBValidKey : Type :=
| KNumber (n : Z)
| KDate (t : Z)
| KString (s : DOMString)
| KBinary (b : list N)
| KArray (ks : list IDBValidKey).

(** Lexicographic comparison, a shorter list being smaller than its
    extensions. *)
Definition lex_compare {A : Type} (cmp : A → A → comparison)
  : list A → list A → comparison :=
  fix go (l1 l2 : list A) : comparison :=
    match l1, l2 with
    | [], [] => Eq
    | [], _ :: _ => Lt
    | _ :: _, [] => Gt
    | a :: l1', b :: l2' =>
        match cmp a b with
        | Eq => go l1' l2'
        | c => c
        end
    end.

(** The engine orders keys of different types
    Number < Date < String < Binary < Array. *)
Definition key_rank (k : IDBValidKey) : nat :=
  match k with
  | KNumber _ => 0
  | KDate _ => 1
  | KString _ => 2
  | KBinary _ => 3
  | KArray _ => 4
  end%nat.

Fixpoint key_compare (a b : IDBValidKey) : comparison :=
  match a, b with
  | KNumber x, KNumber y => Z.compare x y
  | KDate x, KDate y => Z.compare x y
  | KString x, KString y => lex_compare N.compare x y
  | KBinary x, KBinary y => lex_compare N.compare x y
  | KArray x, KArray y => lex_compare key_compare x y
  | _, _ => Nat.compare (key_rank a) (key_rank b)
  end.

Definition key_eqb (a b : IDBValidKey) : bool :=
  match key_compare a b with Eq => true | _ => false end.

Definition key_ltb (a b : IDBValidKey) : bool :=
  match key_compare a b with Lt => true | _ => false end.

(** ** Values

    [JsonValue] is the library's exported type.  Numbers are carried as
    integers: values are stored and handed back, never computed with. *)

Inductive JsonValue : Type :=
| JNull
| JBool (b : bool)
| JNumber (n : Z)
| JString (s : string)
| JArray (items : list JsonValue)
| JObject (fields : list (string * JsonValue)).

(** The object literal [{ store: storeName, key, value }] that [writeJson]
    adds to [changeLog]; the engine fills [id] in from the key generator. *)
Record ChangeLogEntry : Type := {
  entry_id : option Z;
  entry_store : string;
  entry_key : IDBValidKey;
  entry_value : JsonValue;
}.

(** What an object store can hold: a caller's document or a log entry. *)
Inductive StoredValue : Type :=
| Plain (v : JsonValue)
| Entry (e : ChangeLogEntry).

(** ** Object stores *)

Definition Record_ : Type := IDBValidKey * StoredValue.

Record IDBObjectStore : Type := {
  keyPath : option string;
  autoIncrement : bool;
  (** the key generator's current number: the next key it hands out *)
  keyGenerator : Z;
  (** the records, in the order a cursor visits them *)
  records : list Record_;
}.

Definition createObjectStore (kp : option string) (auto : bool) : IDBObjectStore :=
  {| keyPath := kp; autoIncrement := auto; keyGenerator := 1; records := [] |}.

Definition with_records (rs : list Record_) (os : IDBObjectStore) : IDBObjectStore :=
  {| keyPath := keyPath os; autoIncrement := autoIncrement os;
     keyGenerator := keyGenerator os; records := rs |}.

Definition with_keyGenerator (g : Z) (os : IDBObjectStore) : IDBObjectStore :=
  {| keyPath := keyPath os; autoIncrement := autoIncrement os;
     keyGenerator := g; records := records os |}.

(** Storing under a key: the record takes its place in key order and
    replaces a record that has the same key. *)
Fixpoint records_put (k : IDBValidKey) (v : StoredValue) (rs : list Record_)
  : list Record_ :=
  match rs with
  | [] => [(k, v)]
  | (k', v') :: rest =>
      match key_compare k k' with
      | Lt => (k, v) :: (k', v') :: rest
      | Eq => (k, v) :: rest
      | Gt => (k', v') :: records_put k v rest
      end
  end.

Fixpoint records_get (k : IDBValidKey) (rs : list Record_) : option StoredValue :=
  match rs with
  | [] => None
  | (k', v') :: rest => if key_eqb k k' then Some v' else records_get k rest
  end.

Definition records_delete (k : IDBValidKey) (rs : list Record_) : list Record_ :=
  List.filter (λ r, negb (key_eqb k (fst r))) rs.

(** The largest number a key generator hands out. *)
Definition MAX_GENERATED_KEY : Z := 2 ^ 53.

(** ** Errors, promises and what the engine decides *)

Inductive JsError : Type :=
| NotFoundError
| DataError
| ConstraintError
| ReadOnlyError
| InvalidStateError
| VersionError
| AbortError
| UnknownError
| TypeError
(** [new Error(message)], made by the library itself *)
| Error (message : string)
(** an exception thrown by the caller's own predicate or callback *)
| UserError (msg : string).

(** The state a promise is left in once the event loop has nothing more to
    run: settled one way or the other, or never settled. *)
Inductive Promise (A : Type) : Type :=
| Pending
| Resolved (a : A)
| Rejected (e : JsError).
Arguments Pending {A}.
Arguments Resolved {A} a.
Arguments Rejected {A} e.

(** [resolve] and [reject] only act on a promise that is still pending. *)
Definition settle {A : Type} (p new : Promise A) : Promise A :=
  match p with
  | Pending => new
  | _ => p
  end.

(** A failure the engine reports during one operation: the [n]-th request
    of the transaction (counting cursor advances) fails, or the commit
    fails once every request has succeeded. *)
Inductive TxFault : Type :=
| RequestError (n : nat)
| CommitError.

Record Faults : Type := {
  open_fault : bool;
  tx_fault : option TxFault;
}.

Definition no_faults : Faults := {| open_fault := false; tx_fault := None |}.

(** ** The engine's state *)

Record Database : Type := {
  db_version : N;
  objectStores : gmap string IDBObjectStore;
}.

(** A connection, the [IDBDatabase] object of the API. *)
Record IDBDatabase : Type := {
  conn_id : nat;
  conn_name : string;
}.

Definition conn_eqb (a b : IDBDatabase) : bool :=
  Nat.eqb (conn_id a) (conn_id b) && String.eqb (conn_name a) (conn_name b).

(** How a transaction ends: [complete], [abort], or [error] (a failed
    request, whose event reaches the transaction before the abort). *)
Inductive TxSignal : Type :=
| TxComplete
| TxAbort (e : JsError)
| TxError (e : JsError).

Record Host : Type := {
  databases : gmap string Database;
  (** the connections that are open *)
  connections : list IDBDatabase;
  nextConnection : nat;
  (** what [console.error] printed, oldest first *)
  console : list (string * option JsError);
  (** exceptions that left an event handler and reached nobody *)
  uncaught : list JsError;
  (** how each transaction ended, oldest first *)
  signals : list TxSignal;
}.

Definition empty_host : Host :=
  {| databases := ∅; connections := []; nextConnection := 0;
     console := []; uncaught := []; signals := [] |}.

Inductive IDBTransactionMode : Type := readonly | readwrite.

(** The [IDBTransaction] object: what the caller asked for. *)
Record IDBTransaction : Type := {
  tx_db : IDBDatabase;
  tx_scope : list string;
  tx_mode : IDBTransactionMode;
}.

Inductive TxStatus : Type :=
| TxActive
(** a request failed with [e]; [pending] requests had been placed after it
    and were waiting when its failure aborted the transaction *)
| TxRequestFailed (e : JsError) (pending : nat)
| TxHandlerThrew (e : JsError).

(** The engine's side of a live transaction: its working copy of the
    database's stores, which the commit installs and a rollback drops. *)
Record Transaction : Type := {
  live_name : string;
  live_stores : gmap string IDBObjectStore;
  live_status : TxStatus;
  live_requests : nat;
}.

(** One run of the event loop: the engine's state and the transaction that
    is live in it. *)
Record Task : Type := {
  task_host : Host;
  task_tx : option Transaction;
}.

Definition set_host (h : Host) (t : Task) : Task :=
  {| task_host := h; task_tx := task_tx t |}.

Definition set_tx (tr : option Transaction) (t : Task) : Task :=
  {| task_host := task_host t; task_tx := tr |}.

Definition set_databases (dbs : gmap string Database) (h : Host) : Host :=
  {| databases := dbs; connections := connections h;
     nextConnection := nextConnection h; console := console h;
     uncaught := uncaught h; signals := signals h |}.

Definition console_error (msg : string) (detail : option JsError) (h : Host) : Host :=
  {| databases := databases h; connections := connections h;
     nextConnection := nextConnection h;
     console := console h ++ [(msg, detail)]; uncaught := uncaught h;
     signals := signals h |}.

Definition report_uncaught (e : JsError) (h : Host) : Host :=
  {| databases := databases h; connections := connections h;
     nextConnection := nextConnection h; console := console h;
     uncaught := uncaught h ++ [e]; signals := signals h |}.

Definition signal (sig : TxSignal) (h : Host) : Host :=
  {| databases := databases h; connections := connections h;
     nextConnection := nextConnection h; console := console h;
     uncaught := uncaught h; signals := signals h ++ [sig] |}.

Definition no_database : Database := {| db_version := 0; objectStores := ∅ |}.

(** [indexedDB.open(name, version)].  A database that does not exist has
    version 0; without a version the engine opens the current one, or
    version 1 of a new database.  When the requested version is larger the
    [onupgradeneeded] handler runs on the database before the open
    succeeds.  The result is the open request's final event: [inl] for
    [error], [inr] for [success]. *)
Definition current (h : Host) (name : string) : Database :=
  default no_database (databases h !! name).

Definition requested_version (version : option N) (db : Database) : N :=
  match version with
  | Some v => v
  | None => if (db_version db =? 0)%N then 1%N else db_version db
  end.

Definition upgraded (version : N) (onupgradeneeded : Database → Database)
    (db : Database) : Database :=
  if (db_version db <? version)%N
  then onupgradeneeded {| db_version := version; objectStores := objectStores db |}
  else db.

Definition new_connection (h : Host) (name : string) : IDBDatabase :=
  {| conn_id := nextConnection h; conn_name := name |}.

Definition connect (name : string) (db : Database) (h : Host) : Host :=
  {| databases := <[name := db]> (databases h);
     connections := new_connection h name :: connections h;
     nextConnection := S (nextConnection h);
     console := console h; uncaught := uncaught h; signals := signals h |}.

Definition indexedDB_open (name : string) (version : option N)
    (onupgradeneeded : Database → Database) (f : Faults) (h : Host)
  : (JsError + IDBDatabase) * Host :=
  let requested := requested_version version (current h name) in
  if (requested <? 1)%N then (inl TypeError, h)
  else if open_fault f then (inl UnknownError, h)
  else if (requested <? db_version (current h name))%N then (inl VersionError, h)
  else
    (inr (new_connection h name),
     connect name (upgraded requested onupgradeneeded (current h name)) h).

(** [db.close()] *)
Definition db_close (db : IDBDatabase) (h : Host) : Host :=
  {| databases := databases h;
     connections := List.filter (λ c, negb (conn_eqb db c)) (connections h);
     nextConnection := nextConnection h; console := console h;
     uncaught := uncaught h; signals := signals h |}.

Definition contains (db : Database) (storeName : string) : bool :=
  bool_decide (is_Some (objectStores db !! storeName)).

Definition db_createObjectStore (storeName : string) (kp : option string)
    (auto : bool) (db : Database) : Database :=
  {| db_version := db_version db;
     objectStores := <[storeName := createObjectStore kp auto]> (objectStores db) |}.

(** [db.transaction(scope, mode)]: throws [NotFoundError] when a store of
    the scope does not exist. *)
Definition db_transaction (db : IDBDatabase) (scope : list string)
    (mode : IDBTransactionMode) (t : Task) : (JsError + IDBTransaction) * Task :=
  if negb (existsb (conn_eqb db) (connections (task_host t)))
  then (inl InvalidStateError, t)
  else
    let d := current (task_host t) (conn_name db) in
    if forallb (contains d) scope
    then (inr {| tx_db := db; tx_scope := scope; tx_mode := mode |},
          set_tx (Some {| live_name := conn_name db;
                          live_stores := objectStores d;
                          live_status := TxActive;
                          live_requests := 0 |}) t)
    else (inl NotFoundError, t).

(** ** Requests of a transaction *)

Definition live_set_status (st : TxStatus) (tr : Transaction) : Transaction :=
  {| live_name := live_name tr; live_stores := live_stores tr;
     live_status := st; live_requests := live_requests tr |}.

Definition live_count (tr : Transaction) : Transaction :=
  {| live_name := live_name tr; live_stores := live_stores tr;
     live_status := live_status tr; live_requests := S (live_requests tr) |}.

Definition live_update (name : string) (os : IDBObjectStore) (t : Task) : Task :=
  match task_tx t with
  | Some tr =>
      set_tx (Some {| live_name := live_name tr;
                      live_stores := <[name := os]> (live_stores tr);
                      live_status := live_status tr;
                      live_requests := live_requests tr |}) t
  | None => t
  end.

(** The request the engine is carrying out fails. *)
Definition fail_request (e : JsError) (t : Task) : Task :=
  match task_tx t with
  | Some tr => set_tx (Some (live_set_status (TxRequestFailed e 0) tr)) t
  | None => t
  end.

Definition hits (f : Faults) (n : nat) : bool :=
  match tx_fault f with
  | Some (RequestError m) => Nat.eqb m n
  | _ => false
  end.

(** Places one request; the boolean tells whether the engine carries it
    out.  A request placed after one that fails is never carried out: it
    is still pending when the failure aborts the transaction. *)
Definition tx_request (f : Faults) (t : Task) : bool * Task :=
  match task_tx t with
  | Some tr =>
      match live_status tr with
      | TxActive =>
          if hits f (live_requests tr)
          then (false, set_tx (Some (live_set_status (TxRequestFailed UnknownError 0)
                                       (live_count tr))) t)
          else (true, set_tx (Some (live_count tr)) t)
      | TxRequestFailed e pending =>
          (false, set_tx (Some (live_set_status (TxRequestFailed e (S pending)) tr)) t)
      | TxHandlerThrew _ => (false, t)
      end
  | None => (false, t)
  end.

(** [tx.objectStore(name)] *)
Definition tx_objectStore (tx : IDBTransaction) (name : string) (t : Task)
  : JsError + IDBObjectStore :=
  if negb (existsb (String.eqb name) (tx_scope tx)) then inl NotFoundError
  else
    match task_tx t with
    | Some tr =>
        match live_stores tr !! name with
        | Some os => inr os
        | None => inl NotFoundError
        end
    | None => inl InvalidStateError
    end.

(** A number stored under an explicit key moves the key generator past it. *)
Definition bump_generator (k : IDBValidKey) (os : IDBObjectStore) : IDBObjectStore :=
  match k with
  | KNumber n =>
      if autoIncrement os && (keyGenerator os <=? n)
      then with_keyGenerator (n + 1) os
      else os
  | _ => os
  end.

(** [store.put(value, key)].  [inl] is an exception thrown by the call
    itself: a store with a key path takes no separate key. *)
Definition os_put (tx : IDBTransaction) (name : string) (value : StoredValue)
    (key : IDBValidKey) (f : Faults) (t : Task) : (JsError + unit) * Task :=
  match tx_objectStore tx name t with
  | inl e => (inl e, t)
  | inr os =>
      match tx_mode tx, keyPath os with
      | readonly, _ => (inl ReadOnlyError, t)
      | readwrite, Some _ => (inl DataError, t)
      | readwrite, None =>
          let '(ok, t1) := tx_request f t in
          if ok
          then (inr tt,
                live_update name
                  (bump_generator key (with_records (records_put key value (records os)) os))
                  t1)
          else (inr tt, t1)
      end
  end.

(** The key a value carries at the key path.  The only key path this
    library ever declares is [id]. *)
Definition key_at_path (p : string) (e : ChangeLogEntry) : option IDBValidKey :=
  if String.eqb p "id" then KNumber <$> entry_id e else None.

Definition with_id (g : Z) (e : ChangeLogEntry) : ChangeLogEntry :=
  {| entry_id := Some g; entry_store := entry_store e;
     entry_key := entry_key e; entry_value := entry_value e |}.

(** Insertion of a record whose key must be new. *)
Definition add_record (name : string) (k : IDBValidKey) (v : StoredValue)
    (os : IDBObjectStore) (t : Task) : Task :=
  match records_get k (records os) with
  | Some _ => fail_request ConstraintError t
  | None => live_update name (with_records (records_put k v (records os)) os) t
  end.

(** [store.add(value)] of an object literal, without a key.  The key is the
    one the value carries at the key path; failing that, the next number of
    the key generator, which the engine also writes into the value when the
    store has a key path.  Without either the call throws [DataError]. *)
Definition os_add (tx : IDBTransaction) (name : string) (e : ChangeLogEntry)
    (f : Faults) (t : Task) : (JsError + unit) * Task :=
  match tx_objectStore tx name t with
  | inl err => (inl err, t)
  | inr os =>
      match tx_mode tx with
      | readonly => (inl ReadOnlyError, t)
      | readwrite =>
          let carried := p ← keyPath os; key_at_path p e in
          match carried, autoIncrement os with
          | None, false => (inl DataError, t)
          | Some k, _ =>
              let '(ok, t1) := tx_request f t in
              if ok
              then (inr tt, add_record name k (Entry e) (bump_generator k os) t1)
              else (inr tt, t1)
          | None, true =>
              let '(ok, t1) := tx_request f t in
              if negb ok then (inr tt, t1)
              else
                let g := keyGenerator os in
                if MAX_GENERATED_KEY <? g
                then (inr tt, fail_request ConstraintError t1)
                else
                  let v := match keyPath os with
                           | Some _ => Entry (with_id g e)
                           | None => Entry e
                           end in
                  (inr tt, add_record name (KNumber g) v (with_keyGenerator (g + 1) os) t1)
          end
      end
  end.

(** The outcome of a request: the event it ends with. *)
Inductive IDBRequest (T : Type) : Type :=
| onsuccess (result : T)
| onerror (error : JsError).
Arguments onsuccess {T} result.
Arguments onerror {T} error.

(** [store.get(key)] *)
Definition os_get (tx : IDBTransaction) (name : string) (key : IDBValidKey)
    (f : Faults) (t : Task)
  : (JsError + IDBRequest (option StoredValue)) * Task :=
  match tx_objectStore tx name t with
  | inl e => (inl e, t)
  | inr os =>
      let '(ok, t1) := tx_request f t in
      if ok then (inr (onsuccess (records_get key (records os))), t1)
      else (inr (onerror UnknownError), t1)
  end.

(** [store.delete(key)], also what [cursor.delete()] does with the key
    under the cursor. *)
Definition os_delete (tx : IDBTransaction) (name : string) (key : IDBValidKey)
    (f : Faults) (t : Task) : (JsError + unit) * Task :=
  match tx_objectStore tx name t with
  | inl e => (inl e, t)
  | inr os =>
      match tx_mode tx with
      | readonly => (inl ReadOnlyError, t)
      | readwrite =>
          let '(ok, t1) := tx_request f t in
          if ok
          then (inr tt, live_update name (with_records (records_delete key (records os)) os) t1)
          else (inr tt, t1)
      end
  end.

(** ** The end of a transaction

    Exactly one of three things is signalled.  A failed request sends
    [error] to the transaction (and then aborts it); an exception in a
    handler or a failed commit aborts it; otherwise it completes and its
    working copy becomes the database.  Every abort drops the working
    copy. *)

Definition commit (tr : Transaction) (h : Host) : Host :=
  let d := current h (live_name tr) in
  set_databases
    (<[live_name tr := {| db_version := db_version d;
                          objectStores := live_stores tr |}]> (databases h)) h.

Definition tx_outcome (f : Faults) (tr : Transaction) : TxSignal :=
  match live_status tr, tx_fault f with
  | TxRequestFailed e _, _ => TxError e
  | TxHandlerThrew e, _ => TxAbort AbortError
  | TxActive, Some CommitError => TxAbort UnknownError
  | TxActive, _ => TxComplete
  end.

(** The [error] events that reach a transaction as it ends: that of the
    request that failed and then, its failure aborting the transaction, an
    [AbortError] for each request that was still pending. *)
Definition error_events (t : Task) : list JsError :=
  match task_tx t with
  | Some tr =>
      match live_status tr with
      | TxRequestFailed e pending => e :: replicate pending AbortError
      | _ => []
      end
  | None => []
  end.

Definition tx_finish (f : Faults) (t : Task) : option TxSignal * Task :=
  match task_tx t with
  | None => (None, t)
  | Some tr =>
      let sig := tx_outcome f tr in
      let h := match sig with
               | TxComplete => commit tr (task_host t)
               | _ => task_host t
               end in
      (Some sig, {| task_host := signal sig h; task_tx := None |})
  end.

(** An exception leaves an event handler: nobody catches it, and the
    transaction the event belongs to is aborted. *)
Definition handler_threw (e : JsError) (t : Task) : Task :=
  let t1 := set_host (report_uncaught e (task_host t)) t in
  match task_tx t1 with
  | Some tr =>
      match live_status tr with
      | TxActive => set_tx (Some (live_set_status (TxHandlerThrew e) tr)) t1
      | _ => t1
      end
  | None => t1
  end.

(** ** Cursors

    [store.openCursor().onsuccess = handler]: the engine calls the handler
    once per record, in key order, for as long as the handler calls
    [cursor.continue()], and a last time with [null].  Each advance is a
    request.  The handlers of this library delete nothing but the record
    under the cursor, so the records still to come are those the store had
    when the cursor was opened. *)
Inductive HandlerResult (S : Type) : Type :=
| Returned (s : S) (continued : bool)
| Threw (s : S) (e : JsError).
Arguments Returned {S} s continued.
Arguments Threw {S} s e.

Definition Handler (S : Type) : Type :=
  option Record_ → S → Faults → Task → HandlerResult S * Task.

Fixpoint cursor_events {S : Type} (handler : Handler S) (rs : list Record_)
    (s : S) (f : Faults) (t : Task) : S * Task :=
  let '(ok, t1) := tx_request f t in
  if negb ok then (s, t1)
  else
    match rs with
    | [] =>
        match handler None s f t1 with
        | (Returned s' _, t2) => (s', t2)
        | (Threw s' e, t2) => (s', handler_threw e t2)
        end
    | r :: rest =>
        match handler (Some r) s f t1 with
        | (Returned s' true, t2) => cursor_events handler rest s' f t2
        | (Returned s' false, t2) => (s', t2)
        | (Threw s' e, t2) => (s', handler_threw e t2)
        end
    end.

Definition openCursor {S : Type} (tx : IDBTransaction) (name : string)
    (handler : Handler S) (s : S) (f : Faults) (t : Task) : S * Task :=
  match tx_objectStore tx name t with
  | inl e => (s, handler_threw e t)
  | inr os => cursor_events handler (records os) s f t
  end.

(** ** Async functions

    The body of an [async] function runs against the event loop's state and
    leaves its promise resolved, rejected (an exception, or an awaited
    promise that rejects) or pending (an awaited promise that never
    settles). *)

Definition Async (A : Type) : Type := Faults → Task → Promise A * Task.

#[local] Instance Async_ret : MRet Async :=
  λ A a _ t, (Resolved a, t).

#[local] Instance Async_bind : MBind Async :=
  λ A B k m f t,
    match m f t with
    | (Resolved a, t1) => k a f t1
    | (Rejected e, t1) => (Rejected e, t1)
    | (Pending, t1) => (Pending, t1)
    end.

(** A call that may throw. *)
Definition call {A : Type} (c : Task → (JsError + A) * Task) : Async A :=
  λ _ t,
    match c t with
    | (inr a, t1) => (Resolved a, t1)
    | (inl e, t1) => (Rejected e, t1)
    end.

Definition request {A : Type} (c : Faults → Task → (JsError + A) * Task) : Async A :=
  λ f t, call (c f) f t.

(** Runs an async function from an idle engine until the event loop is
    empty again: a transaction that is still live then ends on its own. *)
Definition run {A : Type} (body : Async A) (f : Faults) (h : Host) : Promise A * Host :=
  let '(p, t) := body f {| task_host := h; task_tx := None |} in
  (p, task_host (snd (tx_finish f t))).

(** ** The library *)

Definition requestToPromise {T : Type} (req : IDBRequest T) : Async T :=
  λ _ t,
    match req with
    | onsuccess result => (Resolved result, t)
    | onerror error => (Rejected error, t)
    end.

(** [req.onupgradeneeded] of [openDb] *)
Definition openDb_onupgradeneeded (storeName : string) (db : Database) : Database :=
  let db1 :=
    if negb (contains db storeName)
    then db_createObjectStore storeName None false db
    else db in
  if negb (contains db1 "changeLog")
  then db_createObjectStore "changeLog" (Some "id") true db1
  else db1.

Definition openDb (dbName storeName : string) (version : N) : Async IDBDatabase :=
  λ f t,
    match indexedDB_open dbName (Some version) (openDb_onupgradeneeded storeName)
            f (task_host t) with
    | (inr db, h) => (Resolved db, set_host h t)
    | (inl e, h) => (Rejected e, set_host h t)
    end.

(** [tx.error] is set when the transaction aborts: the [abort] handler
    finds it, the [error] handler, which runs before the abort, finds
    [null] and makes its own error. *)
Definition txDone (tx : IDBTransaction) : Async unit :=
  λ f t,
    match tx_finish f t with
    | (Some TxComplete, t1) => (Resolved tt, t1)
    | (Some (TxAbort e), t1) => (Rejected e, t1)
    | (Some (TxError _), t1) => (Rejected (Error "Transaction error"), t1)
    | (None, t1) => (Pending, t1)
    end.

Definition close (db : IDBDatabase) : Async unit :=
  λ _ t, (Resolved tt, set_host (db_close db (task_host t)) t).

Definition log_entry (storeName : string) (key : IDBValidKey) (value : JsonValue)
  : ChangeLogEntry :=
  {| entry_id := None; entry_store := storeName;
     entry_key := key; entry_value := value |}.

Definition writeJson (dbName storeName : string) (key : IDBValidKey)
    (value : JsonValue) : Faults → Host → Promise unit * Host :=
  run (db ← openDb dbName storeName 1;
       tx ← call (db_transaction db [storeName; "changeLog"] readwrite);
       _ ← request (os_put tx storeName (Plain value) key);
       _ ← request (os_add tx "changeLog" (log_entry storeName key value));
       _ ← txDone tx;
       close db).

Definition readJson (dbName storeName : string) (key : IDBValidKey)
  : Faults → Host → Promise (option StoredValue) * Host :=
  run (db ← openDb dbName storeName 1;
       tx ← call (db_transaction db [storeName] readonly);
       req ← request (os_get tx storeName key);
       val ← requestToPromise req;
       _ ← txDone tx;
       _ ← close db;
       mret val).

Definition deleteKey (dbName storeName : string) (key : IDBValidKey)
  : Faults → Host → Promise unit * Host :=
  run (db ← openDb dbName storeName 1;
       tx ← call (db_transaction db [storeName] readwrite);
       _ ← request (os_delete tx storeName key);
       _ ← txDone tx;
       close db).

(** ** Bulk scans

    [readMultipleRecords] and [deleteMultipleRecords] build their promise by
    hand: only a call of [resolve] or [reject] settles it.  An exception
    that leaves one of their event handlers calls neither. *)

(** The caller's predicate: [inl e] when it throws [e]. *)
Definition FilterFn : Type := StoredValue → JsError + bool.

Record ReadScan : Type := {
  scan_records : list StoredValue;
  scan_promise : Promise (list StoredValue);
}.

(** [objectStore.openCursor().onsuccess] of [readMultipleRecords] *)
Definition readMultipleRecords_onsuccess (filterFn : FilterFn) : Handler ReadScan :=
  λ cursor s _ t,
    match cursor with
    | Some (_, value) =>
        match filterFn value with
        | inl e => (Threw s e, t)
        | inr true =>
            (Returned {| scan_records := scan_records s ++ [value];
                         scan_promise := scan_promise s |} true, t)
        | inr false => (Returned s true, t)
        end
    | None =>
        (Returned {| scan_records := scan_records s;
                     scan_promise := settle (scan_promise s)
                                       (Resolved (scan_records s)) |} false, t)
    end.

Definition no_upgrade (db : Database) : Database := db.

(** The cursor's request is the only request of this transaction: when it
    fails no other request is pending, and [transaction.onerror] runs
    once. *)
Definition readMultipleRecords (dbName storeName : string) (filterFn : FilterFn)
    (f : Faults) (h : Host) : Promise (list StoredValue) * Host :=
  match indexedDB_open dbName None no_upgrade f h with
  | (inl e, h1) =>
      (Rejected e, console_error "Error opening database:" (Some e) h1)
  | (inr db, h1) =>
      let t := {| task_host := h1; task_tx := None |} in
      match db_transaction db [storeName] readonly t with
      | (inl e, t1) => (Pending, report_uncaught e (task_host t1))
      | (inr transaction, t1) =>
          let '(s, t2) :=
            openCursor transaction storeName (readMultipleRecords_onsuccess filterFn)
              {| scan_records := []; scan_promise := Pending |} f t1 in
          match tx_finish f t2 with
          | (Some (TxError e), t3) =>
              (settle (scan_promise s) (Rejected e),
               console_error "Transaction error:" (Some e) (task_host t3))
          | (_, t3) => (scan_promise s, task_host t3)
          end
      end
  end.

(** [objectStore.openCursor().onsuccess] of [deleteMultipleRecords] *)
Definition deleteMultipleRecords_onsuccess (transaction : IDBTransaction)
    (storeName : string) (filterFn : FilterFn) : Handler (Promise unit) :=
  λ cursor p f t,
    match cursor with
    | Some (primaryKey, value) =>
        match filterFn value with
        | inl e => (Threw p e, t)
        | inr true =>
            match os_delete transaction storeName primaryKey f t with
            | (inl e, t1) => (Threw p e, t1)
            | (inr _, t1) => (Returned p true, t1)
            end
        | inr false => (Returned p true, t)
        end
    | None => (Returned (settle p (Resolved tt)) false, t)
    end.

(** [transaction.onerror] of [deleteMultipleRecords].  It runs once for
    each [error] event that reaches the transaction: a [cursor.delete()]
    that fails leaves the [cursor.continue()] placed after it pending, and
    the abort sends that request an [error] event of its own. *)
Definition deleteMultipleRecords_onerror (ph : Promise unit * Host) (e : JsError)
  : Promise unit * Host :=
  (settle ph.1 (Rejected e), console_error "Transaction error:" (Some e) ph.2).

Definition deleteMultipleRecords (dbName storeName : string) (filterFn : FilterFn)
    (f : Faults) (h : Host) : Promise unit * Host :=
  match indexedDB_open dbName None no_upgrade f h with
  | (inl e, h1) =>
      (Rejected e, console_error "Error opening database:" (Some e) h1)
  | (inr db, h1) =>
      let t := {| task_host := h1; task_tx := None |} in
      match db_transaction db [storeName] readwrite t with
      | (inl e, t1) => (Pending, report_uncaught e (task_host t1))
      | (inr transaction, t1) =>
          let '(p, t2) :=
            openCursor transaction storeName
              (deleteMultipleRecords_onsuccess transaction storeName filterFn)
              Pending f t1 in
          fold_left deleteMultipleRecords_onerror (error_events t2)
            (p, task_host (tx_finish f t2).2)
      end
  end.

(** ** Notifiers *)

(** [Set.prototype.has] compares numbers and strings by value and objects
    by identity; the engine builds a new object each time it hands out a
    date, a buffer or an array as [cursor.primaryKey]. *)
Definition Set_has (s : list IDBValidKey) (k : IDBValidKey) : bool :=
  match k with
  | KNumber _ | KString _ => existsb (key_eqb k) s
  | _ => false
  end.

Definition Set_add (s : list IDBValidKey) (k : IDBValidKey) : list IDBValidKey :=
  if Set_has s k then s else s ++ [k].

Section Notifier.

(** The caller's state, and the caller's callback acting on it: [inl e]
    when it throws [e]. *)
Context {U : Type}.
Variable callback : StoredValue → U → JsError + U.

(** What one call of [onNewRecord] owns: the [seenChanges] set, and the
    caller's state.  [calls] keeps, for the proofs, every invocation of
    the callback with the key of the entry it was invoked for. *)
Record Observer : Type := {
  seenChanges : list IDBValidKey;
  user : U;
  calls : list Record_;
}.

Definition new_observer (u : U) : Observer :=
  {| seenChanges := []; user := u; calls := [] |}.

(** [changeLogStore.openCursor().onsuccess], the same in both notifiers *)
Definition pollForChanges_onsuccess : Handler Observer :=
  λ cursor o _ t,
    match cursor with
    | Some (primaryKey, value) =>
        if negb (Set_has (seenChanges o) primaryKey)
        then
          let seen := Set_add (seenChanges o) primaryKey in
          let invoked := calls o ++ [(primaryKey, value)] in
          match callback value (user o) with
          | inr u =>
              (Returned {| seenChanges := seen; user := u; calls := invoked |} true, t)
          | inl e =>
              (Threw {| seenChanges := seen; user := user o; calls := invoked |} e, t)
          end
        else (Returned o true, t)
    | None => (Returned o false, t)
    end.

(** One pass of [pollForChanges] in [onNewRecord].  The boolean tells
    whether [setTimeout(pollForChanges, 1000)] was called. *)
Definition onNewRecord_pollForChanges (dbName : string) (o : Observer)
    (f : Faults) (h : Host) : Observer * bool * Host :=
  match indexedDB_open dbName None no_upgrade f h with
  | (inl _, h1) => (o, false, h1)
  | (inr db, h1) =>
      let t := {| task_host := h1; task_tx := None |} in
      match db_transaction db ["changeLog"] readonly t with
      | (inl e, t1) => (o, false, report_uncaught e (task_host t1))
      | (inr transaction, t1) =>
          let '(o', t2) :=
            openCursor transaction "changeLog" pollForChanges_onsuccess o f t1 in
          match tx_finish f t2 with
          | (Some TxComplete, t3) => (o', true, task_host t3)
          | (_, t3) => (o', false, task_host t3)
          end
      end
  end.

(** One pass of [pollForChanges] in [onNewRecordWithLog].  Here too the
    cursor's request is the only one, and [transaction.onerror] runs at
    most once. *)
Definition onNewRecordWithLog_pollForChanges (dbName : string) (o : Observer)
    (f : Faults) (h : Host) : Observer * bool * Host :=
  match indexedDB_open dbName None no_upgrade f h with
  | (inl e, h1) =>
      (o, false, console_error "Error opening database:" (Some e) h1)
  | (inr db, h1) =>
      let t := {| task_host := h1; task_tx := None |} in
      match db_transaction db ["changeLog"] readonly t with
      | (inl e, t1) => (o, false, report_uncaught e (task_host t1))
      | (inr transaction, t1) =>
          let '(o', t2) :=
            openCursor transaction "changeLog" pollForChanges_onsuccess o f t1 in
          match tx_finish f t2 with
          | (Some TxComplete, t3) => (o', true, task_host t3)
          | (Some (TxError e), t3) =>
              (o', false, console_error "Transaction error:" (Some e) (task_host t3))
          | (_, t3) => (o', false, task_host t3)
          end
      end
  end.

(** The life of an observer.  The first pass runs at once; each later
    pass runs when the timer of the pass before it fires, on the engine's
    state at that moment.  [world] lists, pass by pass, what the engine
    will decide and the state it is in: other callers act between two
    passes. *)
Fixpoint polling (pollForChanges : Observer → Faults → Host → Observer * bool * Host)
    (world : list (Faults * Host)) (o : Observer) : Observer :=
  match world with
  | [] => o
  | (f, h) :: later =>
      let '(o', scheduled, _) := pollForChanges o f h in
      if scheduled then polling pollForChanges later o' else o'
  end.

Definition onNewRecord (dbName : string) (u : U) (world : list (Faults * Host))
  : Observer :=
  polling (onNewRecord_pollForChanges dbName) world (new_observer u).

Definition onNewRecordWithLog (dbName : string) (u : U)
    (world : list (Faults * Host)) : Observer :=
  polling (onNewRecordWithLog_pollForChanges dbName) world (new_observer u).

End Notifier.

(** ** Views of the engine's state *)

Definition store_of (h : Host) (dbName storeName : string) : option IDBObjectStore :=
  d ← databases h !! dbName; objectStores d !! storeName.

(** The records of a store, none when the store does not exist. *)
Definition records_of (h : Host) (dbName storeName : string) : list Record_ :=
  from_option records [] (store_of h dbName storeName).

Definition changeLog_of (h : Host) (dbName : string) : list Record_ :=
  records_of h dbName "changeLog".

(** * Properties *)

(** ** Key comparison *)

Lemma IDBValidKey_nested_ind (P : IDBValidKey → Prop) :
  (∀ n, P (KNumber n)) →
  (∀ t, P (KDate t)) →
  (∀ s, P (KString s)) →
  (∀ b, P (KBinary b)) →
  (∀ ks, Forall P ks → P (KArray ks)) →
  ∀ k, P k.
Proof.
  intros Hn Hd Hs Hb Ha. fix IH 1.
  intros [n|t|s|b|ks]; [apply Hn|apply Hd|apply Hs|apply Hb|].
  apply Ha. induction ks as [|k ks IHks]; constructor; [apply IH|exact IHks].
Qed.

Lemma lex_compare_refl {A : Type} (cmp : A → A → comparison) (l : list A) :
  Forall (λ a, cmp a a = Eq) l → lex_compare cmp l l = Eq.
Proof.
  induction 1 as [|a l Ha _ IH]; simpl; [reflexivity|].
  rewrite Ha. exact IH.
Qed.

Lemma lex_compare_eq {A : Type} (cmp : A → A → comparison) (l1 : list A) :
  Forall (λ a, ∀ b, cmp a b = Eq → a = b) l1 →
  ∀ l2, lex_compare cmp l1 l2 = Eq → l1 = l2.
Proof.
  induction 1 as [|a l1 Ha _ IH]; intros [|b l2]; simpl; try discriminate.
  - reflexivity.
  - destruct (cmp a b) eqn:Hab; try discriminate.
    intros Hl. f_equal; auto.
Qed.

Lemma key_compare_refl (k : IDBValidKey) : key_compare k k = Eq.
Proof.
  induction k as [n|t|s|b|ks IH] using IDBValidKey_nested_ind; simpl.
  - apply Z.compare_refl.
  - apply Z.compare_refl.
  - apply lex_compare_refl, Forall_forall. intros; apply N.compare_refl.
  - apply lex_compare_refl, Forall_forall. intros; apply N.compare_refl.
  - apply lex_compare_refl, IH.
Qed.

Lemma key_compare_eq (a b : IDBValidKey) : key_compare a b = Eq → a = b.
Proof.
  revert b.
  induction a as [n|t|s|x|ks IH] using IDBValidKey_nested_ind;
    intros [m|u|r|y|ls]; simpl; try discriminate.
  - intros H. apply Z.compare_eq in H. congruence.
  - intros H. apply Z.compare_eq in H. congruence.
  - intros H. f_equal. revert H. apply lex_compare_eq, Forall_forall.
    intros c _ d. apply N.compare_eq.
  - intros H. f_equal. revert H. apply lex_compare_eq, Forall_forall.
    intros c _ d. apply N.compare_eq.
  - intros H. f_equal. revert H. apply lex_compare_eq, IH.
Qed.

Lemma key_eqb_refl (k : IDBValidKey) : key_eqb k k = true.
Proof. unfold key_eqb. by rewrite key_compare_refl. Qed.

Lemma key_eqb_eq (a b : IDBValidKey) : key_eqb a b = true ↔ a = b.
Proof.
  split.
  - unfold key_eqb. destruct (key_compare a b) eqn:H; try discriminate.
    intros _. by apply key_compare_eq.
  - intros ->. apply key_eqb_refl.
Qed.

Lemma key_eqb_ne (a b : IDBValidKey) : a ≠ b → key_eqb a b = false.
Proof.
  intros Hne. destruct (key_eqb a b) eqn:H; [|reflexivity].
  by apply key_eqb_eq in H.
Qed.

(** ** Records of a store *)

Lemma records_get_put (k : IDBValidKey) (v : StoredValue) (rs : list Record_) :
  records_get k (records_put k v rs) = Some v.
Proof.
  induction rs as [|[k' v'] rs IH]; simpl.
  - by rewrite key_eqb_refl.
  - destruct (key_compare k k') eqn:Hc; simpl.
    + by rewrite key_eqb_refl.
    + by rewrite key_eqb_refl.
    + unfold key_eqb at 1. by rewrite Hc.
Qed.

Lemma records_get_put_ne (k k' : IDBValidKey) (v : StoredValue) (rs : list Record_) :
  k ≠ k' → records_get k' (records_put k v rs) = records_get k' rs.
Proof.
  intros Hne. assert (key_eqb k' k = false) as Hkk by (apply key_eqb_ne; congruence).
  induction rs as [|[k0 v0] rs IH]; simpl.
  - by rewrite Hkk.
  - destruct (key_compare k k0) eqn:Hc; simpl.
    + apply key_compare_eq in Hc as <-. by rewrite !Hkk.
    + by rewrite Hkk.
    + by rewrite IH.
Qed.

Lemma records_get_delete (k : IDBValidKey) (rs : list Record_) :
  records_get k (records_delete k rs) = None.
Proof.
  induction rs as [|[k' v'] rs IH]; simpl; [reflexivity|].
  destruct (key_eqb k k') eqn:Hk; simpl; [exact IH|].
  by rewrite Hk.
Qed.

Lemma records_get_delete_ne (k k' : IDBValidKey) (rs : list Record_) :
  k ≠ k' → records_get k' (records_delete k rs) = records_get k' rs.
Proof.
  intros Hne. induction rs as [|[k0 v0] rs IH]; simpl; [reflexivity|].
  destruct (key_eqb k k0) eqn:Hk; simpl.
  - apply key_eqb_eq in Hk as <-.
    rewrite key_eqb_ne by congruence. exact IH.
  - by rewrite IH.
Qed.

(** A generated key is larger than every key of the log, so its record
    goes last. *)
Definition below (g : Z) (r : Record_) : Prop :=
  ∃ n, r.1 = KNumber n ∧ n < g.

Lemma records_put_last (g : Z) (v : StoredValue) (rs : list Record_) :
  Forall (below g) rs → records_put (KNumber g) v rs = rs ++ [(KNumber g, v)].
Proof.
  induction 1 as [|[k v'] rs (n & Hk & Hn) _ IH]; simpl; [reflexivity|].
  simpl in Hk. subst k. simpl.
  replace (g ?= n) with Gt by (symmetry; apply Z.compare_gt_iff; lia).
  by rewrite IH.
Qed.

Lemma records_get_below (g : Z) (rs : list Record_) :
  Forall (below g) rs → records_get (KNumber g) rs = None.
Proof.
  induction 1 as [|[k v'] rs (n & Hk & Hn) _ IH]; simpl; [reflexivity|].
  simpl in Hk. subst k. unfold key_eqb. simpl.
  replace (g ?= n) with Gt by (symmetry; apply Z.compare_gt_iff; lia).
  exact IH.
Qed.

(** ** Running the engine's calls

    The state of a transaction that is live and sound, and of one that a
    failed request has doomed. *)

Definition active (h : Host) (name : string) (stores : gmap string IDBObjectStore)
    (n : nat) : Task :=
  {| task_host := h;
     task_tx := Some {| live_name := name; live_stores := stores;
                        live_status := TxActive; live_requests := n |} |}.

Definition doomed (h : Host) (name : string) (stores : gmap string IDBObjectStore)
    (e : JsError) (n pending : nat) : Task :=
  {| task_host := h;
     task_tx := Some {| live_name := name; live_stores := stores;
                        live_status := TxRequestFailed e pending;
                        live_requests := n |} |}.

Definition idle (h : Host) : Task := {| task_host := h; task_tx := None |}.

Definition in_scope (name : string) (tx : IDBTransaction) : Prop :=
  existsb (String.eqb name) (tx_scope tx) = true.

Lemma conn_eqb_refl (c : IDBDatabase) : conn_eqb c c = true.
Proof. unfold conn_eqb. by rewrite Nat.eqb_refl, String.eqb_refl. Qed.

Lemma current_connect (name : string) (d : Database) (h : Host) :
  current (connect name d h) name = d.
Proof. unfold current, connect. cbn [databases]. by rewrite lookup_insert_eq. Qed.

Lemma db_transaction_connected (name : string) (d : Database) (h : Host)
    (scope : list string) (mode : IDBTransactionMode) :
  db_transaction (new_connection h name) scope mode (idle (connect name d h)) =
  if forallb (contains d) scope
  then (inr {| tx_db := new_connection h name; tx_scope := scope; tx_mode := mode |},
        active (connect name d h) name (objectStores d) 0)
  else (inl NotFoundError, idle (connect name d h)).
Proof.
  unfold db_transaction, idle. cbn [task_host].
  rewrite current_connect.
  cbn [connect connections existsb]. rewrite conn_eqb_refl. reflexivity.
Qed.

Lemma tx_request_active (f : Faults) h name stores n :
  tx_request f (active h name stores n) =
  if hits f n
  then (false, doomed h name stores UnknownError (S n) 0)
  else (true, active h name stores (S n)).
Proof. reflexivity. Qed.

Lemma tx_request_doomed (f : Faults) h name stores e n k :
  tx_request f (doomed h name stores e n k) = (false, doomed h name stores e n (S k)).
Proof. reflexivity. Qed.

Lemma tx_objectStore_active tx s h name stores n :
  in_scope s tx →
  tx_objectStore tx s (active h name stores n) =
  match stores !! s with Some os => inr os | None => inl NotFoundError end.
Proof. unfold in_scope, tx_objectStore. intros ->. reflexivity. Qed.

Lemma tx_objectStore_doomed tx s h name stores e n k :
  in_scope s tx →
  tx_objectStore tx s (doomed h name stores e n k) =
  match stores !! s with Some os => inr os | None => inl NotFoundError end.
Proof. unfold in_scope, tx_objectStore. intros ->. reflexivity. Qed.

Lemma os_put_active tx s v k f h name stores n os :
  in_scope s tx → tx_mode tx = readwrite →
  stores !! s = Some os →
  os_put tx s v k f (active h name stores n) =
  match keyPath os with
  | Some _ => (inl DataError, active h name stores n)
  | None =>
      if hits f n
      then (inr tt, doomed h name stores UnknownError (S n) 0)
      else (inr tt,
            active h name
              (<[s := bump_generator k (with_records (records_put k v (records os)) os)]>
                 stores) (S n))
  end.
Proof.
  intros Hs Hm Hos. unfold os_put.
  rewrite tx_objectStore_active, Hos, Hm by done.
  destruct (keyPath os); [reflexivity|].
  rewrite tx_request_active. by destruct (hits f n).
Qed.

Lemma os_delete_active tx s k f h name stores n os :
  in_scope s tx → tx_mode tx = readwrite →
  stores !! s = Some os →
  os_delete tx s k f (active h name stores n) =
  if hits f n
  then (inr tt, doomed h name stores UnknownError (S n) 0)
  else (inr tt,
        active h name
          (<[s := with_records (records_delete k (records os)) os]> stores) (S n)).
Proof.
  intros Hs Hm Hos. unfold os_delete.
  rewrite tx_objectStore_active, Hos, Hm by done.
  rewrite tx_request_active. by destruct (hits f n).
Qed.

Lemma os_get_active tx s k f h name stores n os :
  in_scope s tx →
  stores !! s = Some os →
  os_get tx s k f (active h name stores n) =
  if hits f n
  then (inr (onerror UnknownError), doomed h name stores UnknownError (S n) 0)
  else (inr (onsuccess (records_get k (records os))), active h name stores (S n)).
Proof.
  intros Hs Hos. unfold os_get.
  rewrite tx_objectStore_active, Hos by done.
  rewrite tx_request_active. by destruct (hits f n).
Qed.

(** What a doomed transaction still does with a call: it may throw, it
    never runs the request. *)
Lemma os_add_doomed tx s entry f h name stores e n k :
  ∃ k', (os_add tx s entry f (doomed h name stores e n k)).2
        = doomed h name stores e n k'.
Proof.
  unfold os_add.
  destruct (tx_objectStore _ _ _) as [|os]; [by eexists|].
  destruct (tx_mode tx); [by eexists|].
  destruct (keyPath os ≫= _), (autoIncrement os);
    rewrite ?tx_request_doomed; by eexists.
Qed.

Lemma tx_finish_idle (f : Faults) (h : Host) : tx_finish f (idle h) = (None, idle h).
Proof. reflexivity. Qed.

Lemma tx_finish_doomed (f : Faults) h name stores e n k :
  tx_finish f (doomed h name stores e n k)
  = (Some (TxError e), idle (signal (TxError e) h)).
Proof. reflexivity. Qed.

Definition commits (f : Faults) : bool :=
  match tx_fault f with
  | Some CommitError => false
  | _ => true
  end.

Lemma tx_finish_active (f : Faults) h name stores n :
  tx_finish f (active h name stores n) =
  if commits f
  then (Some TxComplete,
        idle (signal TxComplete
                (commit {| live_name := name; live_stores := stores;
                           live_status := TxActive; live_requests := n |} h)))
  else (Some (TxAbort UnknownError), idle (signal (TxAbort UnknownError) h)).
Proof.
  unfold tx_finish, tx_outcome, commits, active; cbn.
  by destruct (tx_fault f) as [[]|].
Qed.

Lemma key_at_path_no_id (p : string) (e : ChangeLogEntry) :
  entry_id e = None → key_at_path p e = None.
Proof. unfold key_at_path. intros ->. by destruct (String.eqb p "id"). Qed.

(** The record [add] stores for an entry that carries no id. *)
Definition generated (os : IDBObjectStore) (e : ChangeLogEntry) : Record_ :=
  (KNumber (keyGenerator os),
   match keyPath os with
   | Some _ => Entry (with_id (keyGenerator os) e)
   | None => Entry e
   end).

Definition added (os : IDBObjectStore) (e : ChangeLogEntry) : IDBObjectStore :=
  with_records
    (records_put (generated os e).1 (generated os e).2 (records os))
    (with_keyGenerator (keyGenerator os + 1) os).

Lemma os_add_active tx s e f h name stores n os :
  in_scope s tx → tx_mode tx = readwrite →
  stores !! s = Some os → entry_id e = None →
  os_add tx s e f (active h name stores n) =
  if autoIncrement os
  then
    if hits f n then (inr tt, doomed h name stores UnknownError (S n) 0)
    else if MAX_GENERATED_KEY <? keyGenerator os
    then (inr tt, doomed h name stores ConstraintError (S n) 0)
    else
      match records_get (KNumber (keyGenerator os)) (records os) with
      | Some _ => (inr tt, doomed h name stores ConstraintError (S n) 0)
      | None => (inr tt, active h name (<[s := added os e]> stores) (S n))
      end
  else (inl DataError, active h name stores n).
Proof.
  intros Hs Hm Hos He. unfold os_add.
  rewrite tx_objectStore_active, Hos, Hm by done.
  assert (keyPath os ≫= (λ p, key_at_path p e) = None) as ->.
  { destruct (keyPath os); [|reflexivity]. by apply key_at_path_no_id. }
  destruct (autoIncrement os); [|reflexivity].
  rewrite tx_request_active. destruct (hits f n); [reflexivity|].
  cbn [negb]. destruct (MAX_GENERATED_KEY <? keyGenerator os); [reflexivity|].
  unfold add_record, added, generated. cbn [records with_keyGenerator fst snd].
  destruct (records_get _ _); reflexivity.
Qed.

Ltac unfold_async :=
  unfold run, openDb, txDone, close, request, call, requestToPromise,
    mbind, mret, Async_bind, Async_ret.

(** How [openDb] (version 1) ends. *)
Lemma openDb_cases (dbName storeName : string) (f : Faults) (h : Host) :
  indexedDB_open dbName (Some 1%N) (openDb_onupgradeneeded storeName) f h =
  if open_fault f then (inl UnknownError, h)
  else if (1 <? db_version (current h dbName))%N then (inl VersionError, h)
  else (inr (new_connection h dbName),
        connect dbName (upgraded 1 (openDb_onupgradeneeded storeName) (current h dbName)) h).
Proof. reflexivity. Qed.

Lemma forallb_contains_2 (d : Database) (a b : string) :
  forallb (contains d) [a; b] = true →
  ∃ x y, objectStores d !! a = Some x ∧ objectStores d !! b = Some y.
Proof.
  cbn. unfold contains. rewrite !andb_true_iff, !bool_decide_eq_true.
  intros ([x Hx] & [y Hy] & _). eauto.
Qed.

Lemma forallb_contains_1 (d : Database) (a : string) :
  forallb (contains d) [a] = true ↔ ∃ x, objectStores d !! a = Some x.
Proof.
  cbn. unfold contains. rewrite andb_true_r, bool_decide_eq_true. reflexivity.
Qed.

Lemma in_scope_here (s : string) (scope : list string) db mode :
  In s scope → in_scope s {| tx_db := db; tx_scope := scope; tx_mode := mode |}.
Proof.
  unfold in_scope. cbn [tx_scope]. intros Hin. apply existsb_exists.
  exists s. split; [done|apply String.eqb_refl].
Qed.
(** The transaction [writeJson] commits. *)
Definition live (name : string) (stores : gmap string IDBObjectStore) (n : nat)
  : Transaction :=
  {| live_name := name; live_stores := stores;
     live_status := TxActive; live_requests := n |}.

Definition put_into (k : IDBValidKey) (v : StoredValue) (os : IDBObjectStore)
  : IDBObjectStore :=
  bump_generator k (with_records (records_put k v (records os)) os).

Ltac rolled_back :=
  do 2 right; left; eexists _, _; (split; [|reflexivity]); discriminate.

Lemma writeJson_cases (dbName storeName : string) (key : IDBValidKey)
    (value : JsonValue) (f : Faults) (h : Host) :
  let d := upgraded 1 (openDb_onupgradeneeded storeName) (current h dbName) in
  let h1 := connect dbName d h in
  let r := writeJson dbName storeName key value f h in
  ((open_fault f = true ∨ (1 < db_version (current h dbName))%N)
   ∧ ∃ e, r = (Rejected e, h))
  ∨ (forallb (contains d) [storeName; "changeLog"] = false
     ∧ r = (Rejected NotFoundError, h1))
  ∨ (∃ e sig, sig ≠ TxComplete ∧ r = (Rejected e, signal sig h1))
  ∨ (∃ e stores n,
       is_Some (objectStores d !! storeName)
       ∧ (∀ s, is_Some (objectStores d !! s) → is_Some (stores !! s))
       ∧ r = (Rejected e, signal TxComplete (commit (live dbName stores n) h1)))
  ∨ (∃ os oc,
       (db_version (current h dbName) ≤ 1)%N ∧
       objectStores d !! storeName = Some os ∧ keyPath os = None ∧
       <[storeName := put_into key (Plain value) os]> (objectStores d) !! "changeLog" = Some oc ∧
       autoIncrement oc = true ∧
       keyGenerator oc ≤ MAX_GENERATED_KEY ∧
       records_get (KNumber (keyGenerator oc)) (records oc) = None ∧
       commits f = true ∧
       r = (Resolved tt,
            db_close (new_connection h dbName)
              (signal TxComplete
                 (commit
                    (live dbName
                       (<["changeLog" := added oc (log_entry storeName key value)]>
                          (<[storeName := put_into key (Plain value) os]> (objectStores d)))
                       2)
                    h1)))).
Proof.
  intros d h1 r. subst r. unfold writeJson. unfold_async.
  cbn [task_host task_tx]. rewrite openDb_cases.
  destruct (open_fault f); [left; eauto|].
  destruct (1 <? db_version (current h dbName))%N eqn:Hv.
  { left. apply N.ltb_lt in Hv. eauto. }
  fold d. fold h1. unfold set_host. cbn [task_tx task_host].
  change {| task_host := h1; task_tx := None |} with (idle h1).
  subst h1. rewrite db_transaction_connected.
  destruct (forallb (contains d) [storeName; "changeLog"]) eqn:Hscope; cycle 1.
  { right; left. eauto. }
  apply forallb_contains_2 in Hscope as (os & oc0 & Hos & Hoc0).
  set (h1 := connect dbName d h).
  set (tx := {| tx_db := _; tx_scope := _; tx_mode := _ |}).
  assert (in_scope storeName tx) as Hin1 by (apply in_scope_here; cbn; auto).
  assert (in_scope "changeLog" tx) as Hin2 by (apply in_scope_here; cbn; auto).
  rewrite (os_put_active tx storeName _ _ f h1 dbName _ 0 os) by done.
  destruct (keyPath os) eqn:Hkp.
  { (* put throws *)
    rewrite tx_finish_active. destruct (commits f); cbn [snd task_host idle].
    - do 3 right; left. eexists _, _, _. split; [by eexists|].
      split; [|reflexivity]. done.
    - do 2 right; left. eexists _, _. split; [|reflexivity]. discriminate. }
  destruct (hits f 0) eqn:Hhit0.
  { (* put fails *)
    destruct (os_add_doomed tx "changeLog" (log_entry storeName key value) f
                h1 dbName (objectStores d) UnknownError 1 0) as [k' Hd].
    destruct (os_add _ _ _ _ _) as [[e|[]] t']; cbn [snd] in Hd; subst t';
      rewrite tx_finish_doomed; cbn [snd task_host idle]; rolled_back. }
  set (S1 := <[storeName := _]> (objectStores d)).
  assert (∃ oc, S1 !! "changeLog" = Some oc) as [oc Hoc].
  { subst S1. rewrite lookup_insert. case_decide; eauto. }
  rewrite (os_add_active tx "changeLog" _ f h1 dbName S1 1 oc) by done.
  destruct (autoIncrement oc) eqn:Hauto; cycle 1.
  { (* add throws *)
    rewrite tx_finish_active. destruct (commits f); cbn [snd task_host idle].
    - do 3 right; left. eexists _, _, _. split; [by eexists|].
      split; [|reflexivity].
      intros s Hs. subst S1. rewrite lookup_insert. by case_decide.
    - rolled_back. }
  destruct (hits f 1) eqn:Hhit1.
  { rewrite tx_finish_doomed; cbn [snd task_host idle]. rolled_back. }
  destruct (MAX_GENERATED_KEY <? keyGenerator oc) eqn:Hmax.
  { rewrite tx_finish_doomed; cbn [snd task_host idle]. rolled_back. }
  destruct (records_get _ (records oc)) eqn:Hget.
  { rewrite tx_finish_doomed; cbn [snd task_host idle]. rolled_back. }
  rewrite tx_finish_active. destruct (commits f) eqn:Hcommit; cycle 1.
  { cbn [snd task_host idle]. rolled_back. }
  cbn [snd task_host task_tx idle tx_finish].
  do 4 right. exists os, oc. repeat split; try done.
  - by apply N.ltb_ge.
  - by apply Z.ltb_ge.
Qed.

(** ** What the views show after the engine's steps *)

Lemma store_of_current h name s :
  objectStores (current h name) !! s = store_of h name s.
Proof.
  unfold current, store_of. destruct (databases h !! name); cbn; [done|].
  apply lookup_empty.
Qed.

Lemma store_of_connect name d h s :
  store_of (connect name d h) name s = objectStores d !! s.
Proof. unfold store_of, connect. cbn [databases]. by rewrite lookup_insert_eq. Qed.

Lemma store_of_connect_ne name name' d h s :
  name ≠ name' → store_of (connect name d h) name' s = store_of h name' s.
Proof.
  intros Hne. unfold store_of, connect. cbn [databases].
  by rewrite lookup_insert_ne.
Qed.

Lemma store_of_commit name stores n h s :
  store_of (commit (live name stores n) h) name s = stores !! s.
Proof.
  unfold store_of, commit, set_databases, live. cbn [databases live_name live_stores].
  by rewrite lookup_insert_eq.
Qed.

Lemma store_of_commit_ne name name' stores n h s :
  name ≠ name' → store_of (commit (live name stores n) h) name' s = store_of h name' s.
Proof.
  intros Hne. unfold store_of, commit, set_databases, live.
  cbn [databases live_name live_stores]. by rewrite lookup_insert_ne.
Qed.

Lemma store_of_signal sig h name s : store_of (signal sig h) name s = store_of h name s.
Proof. reflexivity. Qed.

Lemma store_of_db_close c h name s : store_of (db_close c h) name s = store_of h name s.
Proof. reflexivity. Qed.

(** The upgrade of [openDb] keeps every store there is and creates the
    missing ones empty; a store named [changeLog] by the caller is created
    as a plain store. *)
Lemma contains_true db s os : objectStores db !! s = Some os → contains db s = true.
Proof. intros H. unfold contains. rewrite H. apply bool_decide_eq_true_2. by eexists. Qed.

Lemma contains_false db s : objectStores db !! s = None → contains db s = false.
Proof. intros H. unfold contains. rewrite H. apply bool_decide_eq_false_2. by intros []. Qed.

Lemma onupgradeneeded_lookup storeName db s :
  objectStores (openDb_onupgradeneeded storeName db) !! s =
  match objectStores db !! s with
  | Some os => Some os
  | None =>
      if decide (s = storeName) then Some (createObjectStore None false)
      else if decide (s = "changeLog") then Some (createObjectStore (Some "id") true)
      else None
  end.
Proof.
  unfold openDb_onupgradeneeded.
  destruct (objectStores db !! storeName) as [o1|] eqn:H1.
  - rewrite (contains_true db storeName o1) by done. cbn [negb].
    destruct (objectStores db !! "changeLog") as [o2|] eqn:H2.
    + rewrite (contains_true db "changeLog" o2) by done. cbn [negb].
      destruct (objectStores db !! s) eqn:Hs; [done|].
      repeat case_decide; congruence.
    + rewrite (contains_false db "changeLog") by done.
      cbn [negb db_createObjectStore objectStores].
      rewrite lookup_insert. case_decide as Hc.
      * subst s. rewrite H2. case_decide; [congruence|]. by rewrite decide_True.
      * destruct (objectStores db !! s) eqn:Hs; [done|].
        rewrite (decide_False (P := s = "changeLog")) by done.
        case_decide; congruence.
  - rewrite (contains_false db storeName) by done. cbn [negb].
    set (db1 := db_createObjectStore storeName None false db).
    assert (∀ x, objectStores db1 !! x =
                 if decide (storeName = x) then Some (createObjectStore None false)
                 else objectStores db !! x) as Hdb1.
    { intros x. subst db1. cbn [db_createObjectStore objectStores].
      apply lookup_insert. }
    destruct (decide (s = storeName)) as [->|Hs].
    { assert (objectStores db1 !! storeName = Some (createObjectStore None false)) as Hnew.
      { rewrite Hdb1. by rewrite decide_True. }
      rewrite H1.
      destruct (decide (storeName = "changeLog")) as [->|Hne].
      - by rewrite (contains_true db1 "changeLog" _ Hnew).
      - destruct (contains db1 "changeLog");
          cbn [negb db_createObjectStore objectStores];
          rewrite ?lookup_insert_ne by done; done. }
    destruct (decide (s = "changeLog")) as [->|Hc].
    { destruct (objectStores db1 !! "changeLog") as [o2|] eqn:H2.
      - rewrite (contains_true db1 "changeLog" o2) by done. cbn [negb].
        rewrite H2. rewrite Hdb1 in H2. rewrite decide_False in H2 by done.
        by rewrite H2.
      - rewrite (contains_false db1 "changeLog") by done.
        cbn [negb db_createObjectStore objectStores].
        rewrite lookup_insert_eq.
        rewrite Hdb1 in H2. rewrite decide_False in H2 by done. by rewrite H2. }
    assert (objectStores db1 !! s = objectStores db !! s) as Hsame.
    { rewrite Hdb1. by rewrite decide_False. }
    destruct (contains db1 "changeLog");
      cbn [negb db_createObjectStore objectStores];
      rewrite ?lookup_insert_ne by done; rewrite Hsame;
      by destruct (objectStores db !! s).
Qed.

Lemma upgraded_lookup h dbName storeName s :
  let d := upgraded 1 (openDb_onupgradeneeded storeName) (current h dbName) in
  objectStores d !! s = store_of h dbName s
  ∨ (store_of h dbName s = None
     ∧ ((s = storeName ∧ objectStores d !! s = Some (createObjectStore None false))
        ∨ (s = "changeLog" ∧ s ≠ storeName
           ∧ objectStores d !! s = Some (createObjectStore (Some "id") true)))).
Proof.
  cbn zeta. unfold upgraded.
  destruct (db_version (current h dbName) <? 1)%N.
  2:{ rewrite store_of_current. auto. }
  rewrite onupgradeneeded_lookup. cbn [objectStores].
  rewrite store_of_current.
  destruct (store_of h dbName s); [auto|].
  destruct (decide (s = storeName)) as [Hs|Hs]; [right; auto|].
  destruct (decide (s = "changeLog")); [right; split; [done|]; right; auto|auto].
Qed.

Lemma upgraded_records h dbName storeName s :
  from_option records []
    (objectStores (upgraded 1 (openDb_onupgradeneeded storeName) (current h dbName)) !! s)
  = records_of h dbName s.
Proof.
  unfold records_of.
  destruct (upgraded_lookup h dbName storeName s)
    as [-> | (-> & [[_ ->] | (_ & _ & ->)])]; reflexivity.
Qed.

(** ** The change log of a database

    What [createObjectStore('changeLog', { keyPath: 'id', autoIncrement:
    true })] sets up and every [add] keeps: the keys are numbers below the
    key generator's next number, in increasing order. *)

Definition key_lt (a b : Record_) : Prop := key_compare a.1 b.1 = Lt.

Definition ascending (rs : list Record_) : Prop := StronglySorted key_lt rs.

Definition log_store_ok (os : IDBObjectStore) : Prop :=
  keyPath os = Some "id" ∧ autoIncrement os = true
  ∧ Forall (below (keyGenerator os)) (records os)
  ∧ ascending (records os).

Definition log_ok (h : Host) (dbName : string) : Prop :=
  ∀ os, store_of h dbName "changeLog" = Some os → log_store_ok os.

(** The id the next log entry gets. *)
Definition next_id (h : Host) (dbName : string) : Z :=
  from_option keyGenerator 1 (store_of h dbName "changeLog").

(** The transaction an operation ran did not complete. *)
Definition aborted (h h' : Host) : Prop :=
  ∃ sig, signals h' = signals h ++ [sig] ∧ sig ≠ TxComplete.

Lemma log_store_ok_created : log_store_ok (createObjectStore (Some "id") true).
Proof. repeat split; constructor. Qed.

Lemma below_key_lt (g : Z) (v : StoredValue) (r : Record_) :
  below g r → key_lt r (KNumber g, v).
Proof.
  intros (n & Hk & Hn). unfold key_lt. rewrite Hk. cbn. by apply Z.compare_lt_iff.
Qed.

Lemma ascending_snoc (rs : list Record_) (r : Record_) :
  ascending rs → Forall (λ a, key_lt a r) rs → ascending (rs ++ [r]).
Proof.
  unfold ascending. induction 1 as [|a rs Hs IH Ha]; intros Hr; cbn.
  - repeat constructor.
  - inversion Hr as [|? ? Har Hrs]; subst. constructor; [by apply IH|].
    apply Forall_app. split; [exact Ha|]. by constructor.
Qed.

Lemma log_store_ok_added (os : IDBObjectStore) (e : ChangeLogEntry) :
  log_store_ok os →
  records (added os e)
    = records os ++ [(KNumber (keyGenerator os), Entry (with_id (keyGenerator os) e))]
  ∧ log_store_ok (added os e).
Proof.
  intros (Hkp & Hauto & Hbelow & Hasc).
  assert (records (added os e)
          = records os ++ [(KNumber (keyGenerator os),
                            Entry (with_id (keyGenerator os) e))]) as Hrec.
  { unfold added, generated. rewrite Hkp. cbn [records with_records fst snd].
    by apply records_put_last. }
  split; [exact Hrec|].
  repeat split; [done|done| |].
  - rewrite Hrec. cbn [added keyGenerator with_records with_keyGenerator].
    apply Forall_app. split.
    + eapply Forall_impl; [exact Hbelow|].
      intros r (n & Hk & Hn). exists n. split; [done|lia].
    + constructor; [|constructor]. eexists. split; [reflexivity|lia].
  - rewrite Hrec. apply ascending_snoc; [done|].
    eapply Forall_impl; [exact Hbelow|]. intros r. apply below_key_lt.
Qed.

(** The [changeLog] store that [openDb] finds or creates, in a database
    whose log is sound and for a caller's store of another name. *)
Lemma upgraded_changeLog h dbName storeName oc :
  log_ok h dbName → storeName ≠ "changeLog" →
  objectStores (upgraded 1 (openDb_onupgradeneeded storeName) (current h dbName))
    !! "changeLog" = Some oc →
  log_store_ok oc ∧ records oc = changeLog_of h dbName
  ∧ keyGenerator oc = next_id h dbName.
Proof.
  intros Hok Hne Hoc. unfold changeLog_of, records_of, next_id.
  destruct (upgraded_lookup h dbName storeName "changeLog")
    as [Heq | (Hnone & [[? _] | (_ & _ & Hnew)])].
  - rewrite Heq in Hoc. rewrite Hoc. cbn. split; [by apply Hok|done].
  - congruence.
  - rewrite Hnew in Hoc. injection Hoc as <-. rewrite Hnone. cbn.
    split; [apply log_store_ok_created|done].
Qed.

(** A store the caller names [changeLog] never takes a write: the one the
    database has refuses the separate key, the one [openDb] would create
    has no key generator. *)
Lemma upgraded_own_changeLog h dbName os :
  log_ok h dbName →
  objectStores (upgraded 1 (openDb_onupgradeneeded "changeLog") (current h dbName))
    !! "changeLog" = Some os →
  keyPath os = None → autoIncrement os = false.
Proof.
  intros Hok Hos Hkp.
  destruct (upgraded_lookup h dbName "changeLog" "changeLog")
    as [Heq | (Hnone & [[_ Hnew] | (_ & ? & _)])].
  - rewrite Heq in Hos. apply Hok in Hos as (Hkp' & _). congruence.
  - rewrite Hnew in Hos. by injection Hos as <-.
  - done.
Qed.

Lemma bump_generator_keyPath k os : keyPath (bump_generator k os) = keyPath os.
Proof.
  unfold bump_generator. destruct k; try done.
  by destruct (autoIncrement os && (keyGenerator os <=? n)).
Qed.

Lemma bump_generator_autoIncrement k os :
  autoIncrement (bump_generator k os) = autoIncrement os.
Proof.
  unfold bump_generator. destruct k; try done.
  by destruct (autoIncrement os && (keyGenerator os <=? n)).
Qed.

Lemma bump_generator_records k os : records (bump_generator k os) = records os.
Proof.
  unfold bump_generator. destruct k; try done.
  by destruct (autoIncrement os && (keyGenerator os <=? n)).
Qed.

Lemma records_of_signal sig h name s : records_of (signal sig h) name s = records_of h name s.
Proof. reflexivity. Qed.

Lemma records_of_connect_upgraded h dbName storeName s :
  records_of
    (connect dbName (upgraded 1 (openDb_onupgradeneeded storeName) (current h dbName)) h)
    dbName s
  = records_of h dbName s.
Proof.
  unfold records_of at 1. rewrite store_of_connect. apply upgraded_records.
Qed.

Lemma not_aborted_same_signals (h h' : Host) :
  signals h' = signals h → ¬ aborted h h'.
Proof.
  intros Hs (sig & Hsig & _). rewrite Hs in Hsig.
  apply (f_equal length) in Hsig. rewrite length_app in Hsig. cbn in Hsig. lia.
Qed.

Lemma not_aborted_complete (h h' : Host) :
  signals h' = signals h ++ [TxComplete] → ¬ aborted h h'.
Proof.
  intros Hs (sig & Hsig & Hne). rewrite Hs in Hsig.
  apply app_inj_tail in Hsig as [_ Hsig]. congruence.
Qed.

(** ** Writing *)

(** What a [writeJson] that resolves has done to a sound change log. *)
Lemma writeJson_resolved_log (dbName storeName : string) (key : IDBValidKey)
    (value : JsonValue) (f : Faults) (h h' : Host) :
  log_ok h dbName →
  writeJson dbName storeName key value f h = (Resolved tt, h') →
  changeLog_of h' dbName
    = changeLog_of h dbName
        ++ [(KNumber (next_id h dbName),
             Entry {| entry_id := Some (next_id h dbName);
                      entry_store := storeName;
                      entry_key := key;
                      entry_value := value |})]
  ∧ Forall (below (next_id h dbName)) (changeLog_of h dbName)
  ∧ next_id h' dbName = next_id h dbName + 1
  ∧ log_ok h' dbName
  ∧ is_Some (store_of h' dbName "changeLog").
Proof.
  intros Hok Hrun.
  destruct (writeJson_cases dbName storeName key value f h)
    as [[_ [e Hr]] | [[_ Hr] | [(e & sig & Hsig & Hr) | [(e & stores & n & _ & _ & Hr) | Hr]]]];
    cbn zeta in Hr; try (rewrite Hr in Hrun; discriminate).
  destruct Hr as (os & oc & _ & Hos & Hkp & Hoc & Hauto & Hmax & Hget & Hcommit & Hr).
  rewrite Hr in Hrun. injection Hrun as <-.
  destruct (decide (storeName = "changeLog")) as [->|Hne].
  { rewrite lookup_insert_eq in Hoc. injection Hoc as <-.
    unfold put_into in Hauto. rewrite bump_generator_autoIncrement in Hauto.
    cbn [autoIncrement with_records] in Hauto.
    pose proof (upgraded_own_changeLog h dbName os Hok Hos Hkp). congruence. }
  rewrite lookup_insert_ne in Hoc by done.
  destruct (upgraded_changeLog h dbName storeName oc Hok Hne Hoc)
    as (Hlog & Hrecs & Hgen).
  destruct (log_store_ok_added oc (log_entry storeName key value) Hlog)
    as (Hadded & Hlog').
  assert (store_of
            (db_close (new_connection h dbName)
               (signal TxComplete
                  (commit
                     (live dbName
                        (<["changeLog" := added oc (log_entry storeName key value)]>
                           (<[storeName := put_into key (Plain value) os]>
                              (objectStores
                                 (upgraded 1 (openDb_onupgradeneeded storeName)
                                    (current h dbName))))) 2)
                     (connect dbName
                        (upgraded 1 (openDb_onupgradeneeded storeName)
                           (current h dbName)) h))))
            dbName "changeLog"
          = Some (added oc (log_entry storeName key value))) as Hstore.
  { rewrite store_of_db_close, store_of_signal, store_of_commit.
    apply lookup_insert_eq. }
  split; [|split; [|split; [|split]]].
  - unfold changeLog_of at 1, records_of at 1.
    rewrite Hstore. cbn [from_option]. by rewrite Hadded, Hrecs, <- Hgen.
  - destruct Hlog as (_ & _ & Hbelow & _). by rewrite <- Hrecs, <- Hgen.
  - unfold next_id at 1. rewrite Hstore. cbn. by rewrite Hgen.
  - intros x Hx. rewrite Hstore in Hx. by injection Hx as <-.
  - rewrite Hstore. by eexists.
Qed.

(** C1. Dual-write atomicity.  In a database whose change log is sound, a
    [writeJson] that resolves has appended exactly one entry
    [{store, key, value}] to [changeLog], under the id the key generator
    had reached, which is larger than the id of every entry there and is
    used up by the write; and when the write's transaction ends with
    [abort] or [error], the promise is rejected and no store of the
    database shows a record it did not show before. *)
Theorem writeJson_dual_write (dbName storeName : string) (key : IDBValidKey)
    (value : JsonValue) (f : Faults) (h h' : Host) (p : Promise unit) :
  log_ok h dbName →
  writeJson dbName storeName key value f h = (p, h') →
  (p = Resolved tt →
     changeLog_of h' dbName
       = changeLog_of h dbName
           ++ [(KNumber (next_id h dbName),
                Entry {| entry_id := Some (next_id h dbName);
                         entry_store := storeName;
                         entry_key := key;
                         entry_value := value |})]
     ∧ Forall (below (next_id h dbName)) (changeLog_of h dbName)
     ∧ next_id h' dbName = next_id h dbName + 1)
  ∧ (aborted h h' →
     (∃ e, p = Rejected e)
     ∧ ∀ s, records_of h' dbName s = records_of h dbName s).
Proof.
  intros Hok Hrun. split.
  { intros ->.
    destruct (writeJson_resolved_log _ _ _ _ _ _ _ Hok Hrun) as (? & ? & ? & _).
    done. }
  destruct (writeJson_cases dbName storeName key value f h)
    as [[_ [e Hr]] | [[_ Hr] | [(e & sig & Hsig & Hr) | [(e & stores & n & _ & _ & Hr) | Hr]]]];
    cbn zeta in Hr.
  - rewrite Hr in Hrun. injection Hrun as <- <-.
    intros Hab. by apply not_aborted_same_signals in Hab.
  - rewrite Hr in Hrun. injection Hrun as <- <-.
    intros Hab. by apply not_aborted_same_signals in Hab.
  - rewrite Hr in Hrun. injection Hrun as <- <-.
    intros _. split; [eauto|].
    intros s. rewrite records_of_signal. apply records_of_connect_upgraded.
  - rewrite Hr in Hrun. injection Hrun as <- <-.
    intros Hab. by apply not_aborted_complete in Hab.
  - destruct Hr as (os & oc & _ & _ & _ & _ & _ & _ & _ & _ & Hr).
    rewrite Hr in Hrun. injection Hrun as <- <-.
    intros Hab. by apply not_aborted_complete in Hab.
Qed.

(** ** Reading and deleting one record *)

Lemma readJson_cases (dbName storeName : string) (key : IDBValidKey)
    (f : Faults) (h : Host) :
  let d := upgraded 1 (openDb_onupgradeneeded storeName) (current h dbName) in
  let h1 := connect dbName d h in
  let r := readJson dbName storeName key f h in
  ((open_fault f = true ∨ (1 < db_version (current h dbName))%N)
   ∧ ∃ e, r = (Rejected e, h))
  ∨ (objectStores d !! storeName = None ∧ r = (Rejected NotFoundError, h1))
  ∨ ((hits f 0 = true ∨ commits f = false)
     ∧ ∃ e sig, sig ≠ TxComplete ∧ r = (Rejected e, signal sig h1))
  ∨ (∃ os,
       objectStores d !! storeName = Some os ∧
       r = (Resolved (records_get key (records os)),
            db_close (new_connection h dbName)
              (signal TxComplete (commit (live dbName (objectStores d) 1) h1)))).
Proof.
  intros d h1 r. subst r. unfold readJson. unfold_async.
  cbn [task_host task_tx]. rewrite openDb_cases.
  destruct (open_fault f); [left; eauto|].
  destruct (1 <? db_version (current h dbName))%N eqn:Hv.
  { left. apply N.ltb_lt in Hv. eauto. }
  fold d. fold h1. unfold set_host. cbn [task_tx task_host].
  change {| task_host := h1; task_tx := None |} with (idle h1).
  subst h1. rewrite db_transaction_connected.
  destruct (forallb (contains d) [storeName]) eqn:Hscope; cycle 1.
  { right; left. split; [|done].
    destruct (objectStores d !! storeName) eqn:Hl; [|done].
    rewrite (proj2 (forallb_contains_1 d storeName)) in Hscope by eauto. done. }
  apply forallb_contains_1 in Hscope as (os & Hos).
  set (h1 := connect dbName d h).
  set (tx := {| tx_db := _; tx_scope := _; tx_mode := _ |}).
  assert (in_scope storeName tx) as Hin by (apply in_scope_here; cbn; auto).
  rewrite (os_get_active tx storeName key f h1 dbName _ 0 os) by done.
  destruct (hits f 0) eqn:Hhit.
  { rewrite tx_finish_doomed. cbn [snd task_host idle].
    do 2 right; left. split; [auto|]. eexists _, _. split; [|reflexivity]. done. }
  rewrite tx_finish_active. destruct (commits f) eqn:Hc; cbn [snd task_host task_tx idle tx_finish].
  - do 3 right. eauto.
  - do 2 right; left. split; [auto|]. eexists _, _. split; [|reflexivity]. done.
Qed.

Lemma deleteKey_cases (dbName storeName : string) (key : IDBValidKey)
    (f : Faults) (h : Host) :
  let d := upgraded 1 (openDb_onupgradeneeded storeName) (current h dbName) in
  let h1 := connect dbName d h in
  let r := deleteKey dbName storeName key f h in
  ((open_fault f = true ∨ (1 < db_version (current h dbName))%N)
   ∧ ∃ e, r = (Rejected e, h))
  ∨ (objectStores d !! storeName = None ∧ r = (Rejected NotFoundError, h1))
  ∨ ((hits f 0 = true ∨ commits f = false)
     ∧ ∃ e sig, sig ≠ TxComplete ∧ r = (Rejected e, signal sig h1))
  ∨ (∃ os,
       objectStores d !! storeName = Some os ∧
       r = (Resolved tt,
            db_close (new_connection h dbName)
              (signal TxComplete
                 (commit
                    (live dbName
                       (<[storeName := with_records (records_delete key (records os)) os]>
                          (objectStores d)) 1)
                    h1)))).
Proof.
  intros d h1 r. subst r. unfold deleteKey. unfold_async.
  cbn [task_host task_tx]. rewrite openDb_cases.
  destruct (open_fault f); [left; eauto|].
  destruct (1 <? db_version (current h dbName))%N eqn:Hv.
  { left. apply N.ltb_lt in Hv. eauto. }
  fold d. fold h1. unfold set_host. cbn [task_tx task_host].
  change {| task_host := h1; task_tx := None |} with (idle h1).
  subst h1. rewrite db_transaction_connected.
  destruct (forallb (contains d) [storeName]) eqn:Hscope; cycle 1.
  { right; left. split; [|done].
    destruct (objectStores d !! storeName) eqn:Hl; [|done].
    rewrite (proj2 (forallb_contains_1 d storeName)) in Hscope by eauto. done. }
  apply forallb_contains_1 in Hscope as (os & Hos).
  set (h1 := connect dbName d h).
  set (tx := {| tx_db := _; tx_scope := _; tx_mode := _ |}).
  assert (in_scope storeName tx) as Hin by (apply in_scope_here; cbn; auto).
  rewrite (os_delete_active tx storeName key f h1 dbName _ 0 os) by done.
  destruct (hits f 0) eqn:Hhit.
  { rewrite tx_finish_doomed. cbn [snd task_host idle].
    do 2 right; left. split; [auto|]. eexists _, _. split; [|reflexivity]. done. }
  rewrite tx_finish_active. destruct (commits f) eqn:Hc; cbn [snd task_host task_tx idle tx_finish].
  - do 3 right. eauto.
  - do 2 right; left. split; [auto|]. eexists _, _. split; [|reflexivity]. done.
Qed.

Lemma onupgradeneeded_version storeName db :
  db_version (openDb_onupgradeneeded storeName db) = db_version db.
Proof.
  unfold openDb_onupgradeneeded.
  destruct (negb (contains db storeName));
    destruct (negb (contains _ "changeLog")); reflexivity.
Qed.

Lemma upgraded_version storeName db :
  (db_version db ≤ 1)%N →
  db_version (upgraded 1 (openDb_onupgradeneeded storeName) db) = 1%N.
Proof.
  intros Hle. unfold upgraded.
  destruct (db_version db <? 1)%N eqn:Hlt.
  - by rewrite onupgradeneeded_version.
  - apply N.ltb_ge in Hlt. lia.
Qed.

(** Version 1 of a database is opened as it is. *)
Lemma upgraded_again storeName db :
  db_version db = 1%N → upgraded 1 (openDb_onupgradeneeded storeName) db = db.
Proof. intros Hv. unfold upgraded. by rewrite Hv. Qed.

Lemma current_commit name stores n h :
  current (commit (live name stores n) h) name
  = {| db_version := db_version (current h name); objectStores := stores |}.
Proof.
  unfold current at 1, commit, set_databases, live.
  cbn [databases live_name live_stores]. by rewrite lookup_insert_eq.
Qed.

Lemma current_signal sig h name : current (signal sig h) name = current h name.
Proof. reflexivity. Qed.

Lemma current_db_close c h name : current (db_close c h) name = current h name.
Proof. reflexivity. Qed.

(** The key [add] generates differs from the key of the [put] before it:
    a number put into a store with a key generator moves the generator
    past it. *)
Lemma generated_key_fresh (k : IDBValidKey) (v : StoredValue) (os : IDBObjectStore) :
  autoIncrement os = true →
  KNumber (keyGenerator (put_into k v os)) ≠ k.
Proof.
  intros Hauto. unfold put_into, bump_generator.
  destruct k as [n| | | |]; try discriminate.
  cbn [autoIncrement keyGenerator with_records]. rewrite Hauto. cbn [andb].
  destruct (keyGenerator os <=? n) eqn:Hle; cbn [keyGenerator with_keyGenerator with_records].
  - intros [= Heq]. lia.
  - apply Z.leb_gt in Hle. intros [= Heq]. lia.
Qed.

Lemma put_into_records k v os :
  records (put_into k v os) = records_put k v (records os).
Proof. unfold put_into. by rewrite bump_generator_records. Qed.

Lemma put_into_autoIncrement k v os :
  autoIncrement (put_into k v os) = autoIncrement os.
Proof. unfold put_into. by rewrite bump_generator_autoIncrement. Qed.

(** The store a successful [writeJson] leaves holds the value under the
    key. *)
Lemma written_store (storeName : string) (key : IDBValidKey) (value : JsonValue)
    (stores : gmap string IDBObjectStore) (os oc : IDBObjectStore) :
  <[storeName := put_into key (Plain value) os]> stores !! "changeLog" = Some oc →
  autoIncrement oc = true →
  ∃ os',
    <["changeLog" := added oc (log_entry storeName key value)]>
      (<[storeName := put_into key (Plain value) os]> stores) !! storeName = Some os'
    ∧ records_get key (records os') = Some (Plain value).
Proof.
  intros Hoc Hauto.
  destruct (decide (storeName = "changeLog")) as [->|Hne].
  - rewrite lookup_insert_eq in Hoc. injection Hoc as <-.
    rewrite put_into_autoIncrement in Hauto.
    eexists. split; [apply lookup_insert_eq|].
    unfold added, generated. cbn [records with_records fst snd].
    rewrite records_get_put_ne by (by apply generated_key_fresh).
    rewrite put_into_records. apply records_get_put.
  - eexists. split.
    + rewrite lookup_insert_ne by done. apply lookup_insert_eq.
    + rewrite put_into_records. apply records_get_put.
Qed.

(** C3. Round trip.  After a [writeJson] that resolved, [readJson] of the
    same database, store and key resolves with the value written when the
    engine reports no failure, and never resolves with anything else. *)
Theorem write_then_read (dbName storeName : string) (key : IDBValidKey)
    (value : JsonValue) (f : Faults) (h h' : Host) :
  writeJson dbName storeName key value f h = (Resolved tt, h') →
  (readJson dbName storeName key no_faults h').1 = Resolved (Some (Plain value))
  ∧ ∀ f' v, (readJson dbName storeName key f' h').1 = Resolved v →
            v = Some (Plain value).
Proof.
  intros Hrun.
  destruct (writeJson_cases dbName storeName key value f h)
    as [[_ [e Hr]] | [[_ Hr] | [(e & sig & Hsig & Hr) | [(e & stores & n & _ & _ & Hr) | Hr]]]];
    cbn zeta in Hr; try (rewrite Hr in Hrun; discriminate).
  destruct Hr as (os & oc & Hver & Hos & Hkp & Hoc & Hauto & Hmax & Hget & Hcommit & Hr).
  rewrite Hr in Hrun. injection Hrun as <-.
  destruct (written_store storeName key value _ os oc Hoc Hauto) as (os' & Hos' & Hval).
  set (d := upgraded 1 (openDb_onupgradeneeded storeName) (current h dbName)) in *.
  set (stores2 := <["changeLog" := _]> _) in *.
  set (h2 := db_close _ _).
  assert (current h2 dbName = {| db_version := 1; objectStores := stores2 |}) as Hcur.
  { subst h2. rewrite current_db_close, current_signal, current_commit, current_connect.
    subst d. by rewrite upgraded_version. }
  assert (upgraded 1 (openDb_onupgradeneeded storeName) (current h2 dbName)
          = {| db_version := 1; objectStores := stores2 |}) as Hup.
  { rewrite Hcur. by apply upgraded_again. }
  assert (∀ f' v, (readJson dbName storeName key f' h2).1 = Resolved v →
                  v = Some (Plain value)) as Honly.
  { intros f' v.
    destruct (readJson_cases dbName storeName key f' h2)
      as [[_ [e ->]] | [[_ ->] | [(_ & e & sig & _ & ->) | (os2 & Hos2 & ->)]]];
      cbn [fst]; try discriminate.
    rewrite Hup in Hos2. cbn [objectStores] in Hos2.
    rewrite Hos' in Hos2. injection Hos2 as <-. rewrite Hval. congruence. }
  split; [|exact Honly].
  destruct (readJson_cases dbName storeName key no_faults h2)
    as [[Hbad _] | [[Hbad _] | [(Hbad & _) | (os2 & Hos2 & Heq)]]].
  - exfalso. destruct Hbad as [Hbad|Hbad]; [discriminate|].
    rewrite Hcur in Hbad. cbn in Hbad. lia.
  - exfalso. rewrite Hup in Hbad. cbn [objectStores] in Hbad. congruence.
  - exfalso. destruct Hbad; discriminate.
  - rewrite Heq. cbn [fst]. f_equal.
    rewrite Hup in Hos2. cbn [objectStores] in Hos2. congruence.
Qed.

(** ** The frame of an operation *)

Lemma records_of_opened h dbName storeName name s :
  records_of
    (connect dbName (upgraded 1 (openDb_onupgradeneeded storeName) (current h dbName)) h)
    name s
  = records_of h name s.
Proof.
  destruct (decide (dbName = name)) as [<-|Hne].
  - apply records_of_connect_upgraded.
  - unfold records_of. by rewrite store_of_connect_ne.
Qed.

Lemma next_id_opened h dbName storeName name :
  next_id
    (connect dbName (upgraded 1 (openDb_onupgradeneeded storeName) (current h dbName)) h)
    name
  = next_id h name.
Proof.
  unfold next_id.
  destruct (decide (dbName = name)) as [<-|Hne].
  - rewrite store_of_connect.
    destruct (upgraded_lookup h dbName storeName "changeLog")
      as [-> | (-> & [[_ ->] | (_ & _ & ->)])]; reflexivity.
  - by rewrite store_of_connect_ne.
Qed.

Lemma records_of_committed name stores n h c name' s :
  records_of (db_close c (signal TxComplete (commit (live name stores n) h))) name' s
  = if decide (name = name') then from_option records [] (stores !! s)
    else records_of h name' s.
Proof.
  unfold records_of. rewrite store_of_db_close, store_of_signal.
  case_decide as Hn.
  - subst name'. by rewrite store_of_commit.
  - by rewrite store_of_commit_ne.
Qed.

Lemma next_id_committed name stores n h c name' :
  next_id (db_close c (signal TxComplete (commit (live name stores n) h))) name'
  = if decide (name = name') then from_option keyGenerator 1 (stores !! "changeLog")
    else next_id h name'.
Proof.
  unfold next_id. rewrite store_of_db_close, store_of_signal.
  case_decide as Hn.
  - subst name'. by rewrite store_of_commit.
  - by rewrite store_of_commit_ne.
Qed.

(** C6, as the code has it.  [deleteKey] on a store removes the record
    under the key and nothing else (when it resolves), leaves every other
    store of every database as it was, and, for a store that is not the
    [changeLog] store itself, leaves the change log and its key generator
    as they were: no entry is appended, whatever the outcome.  When the
    promise is rejected the store is as it was. *)
Theorem deleteKey_frame (dbName storeName : string) (key : IDBValidKey)
    (f : Faults) (h h' : Host) (p : Promise unit) :
  deleteKey dbName storeName key f h = (p, h') →
  (p = Resolved tt →
     records_of h' dbName storeName
       = records_delete key (records_of h dbName storeName)
     ∧ records_get key (records_of h' dbName storeName) = None)
  ∧ (p ≠ Resolved tt →
     (∃ e, p = Rejected e)
     ∧ records_of h' dbName storeName = records_of h dbName storeName)
  ∧ (∀ name s, name ≠ dbName ∨ s ≠ storeName →
               records_of h' name s = records_of h name s)
  ∧ (storeName ≠ "changeLog" →
     changeLog_of h' dbName = changeLog_of h dbName
     ∧ next_id h' dbName = next_id h dbName).
Proof.
  intros Hrun.
  destruct (deleteKey_cases dbName storeName key f h)
    as [[_ [e Hr]] | [[_ Hr] | [(_ & e & sig & _ & Hr) | (os & Hos & Hr)]]];
    cbn zeta in Hr; rewrite Hr in Hrun; injection Hrun as <- <-.
  - split; [discriminate|]. split; [eauto|]. split; [done|done].
  - split; [discriminate|]. split; [|split].
    + intros _. split; [eauto|]. apply records_of_opened.
    + intros name s _. apply records_of_opened.
    + intros _. split; [apply records_of_opened|apply next_id_opened].
  - split; [discriminate|]. split; [|split].
    + intros _. split; [eauto|]. rewrite records_of_signal. apply records_of_opened.
    + intros name s _. rewrite records_of_signal. apply records_of_opened.
    + intros _. split; [|apply next_id_opened].
      unfold changeLog_of. rewrite records_of_signal. apply records_of_opened.
  - assert (records os = records_of h dbName storeName) as Hrecs.
    { rewrite <- (upgraded_records h dbName storeName storeName). by rewrite Hos. }
    split; [|split; [done|split]].
    + intros _.
      assert (records_of
                (db_close (new_connection h dbName)
                   (signal TxComplete
                      (commit
                         (live dbName
                            (<[storeName := with_records
                                              (records_delete key (records os)) os]>
                               (objectStores
                                  (upgraded 1 (openDb_onupgradeneeded storeName)
                                     (current h dbName)))) 1)
                         (connect dbName
                            (upgraded 1 (openDb_onupgradeneeded storeName)
                               (current h dbName)) h))))
                dbName storeName
              = records_delete key (records_of h dbName storeName)) as ->.
      { rewrite records_of_committed, decide_True by done.
        rewrite lookup_insert_eq. cbn. by rewrite Hrecs. }
      split; [done|apply records_get_delete].
    + intros name s Hother. rewrite records_of_committed.
      case_decide as Hn; [|apply records_of_opened].
      subst name. destruct Hother as [?|Hs]; [done|].
      rewrite lookup_insert_ne by done. apply upgraded_records.
    + intros Hne. split.
      * unfold changeLog_of. rewrite records_of_committed, decide_True by done.
        rewrite lookup_insert_ne by done. apply upgraded_records.
      * rewrite next_id_committed, decide_True by done.
        rewrite lookup_insert_ne by done.
        rewrite <- (next_id_opened h dbName storeName dbName).
        unfold next_id. by rewrite store_of_connect.
Qed.

(** ** Opening without a version *)

(** The database [indexedDB.open(name)] connects to: the one there is, or
    a new, empty database of version 1. *)
Definition found (h : Host) (dbName : string) : Database :=
  upgraded (requested_version None (current h dbName)) no_upgrade (current h dbName).

Lemma found_stores h dbName : objectStores (found h dbName) = objectStores (current h dbName).
Proof.
  unfold found, upgraded, no_upgrade.
  by destruct (_ <? _)%N.
Qed.

Lemma plain_open_cases (dbName : string) (f : Faults) (h : Host) :
  indexedDB_open dbName None no_upgrade f h =
  if open_fault f then (inl UnknownError, h)
  else (inr (new_connection h dbName), connect dbName (found h dbName) h).
Proof.
  unfold indexedDB_open, found.
  set (v := requested_version None (current h dbName)).
  assert ((v <? 1)%N = false ∧ (v <? db_version (current h dbName))%N = false) as [-> ->].
  { subst v. unfold requested_version.
    destruct (db_version (current h dbName) =? 0)%N eqn:Hz.
    - apply N.eqb_eq in Hz. rewrite Hz. done.
    - apply N.eqb_neq in Hz. split; apply N.ltb_ge; lia. }
  reflexivity.
Qed.

Lemma found_lookup h dbName s :
  objectStores (found h dbName) !! s = store_of h dbName s.
Proof. rewrite found_stores. apply store_of_current. Qed.

Lemma records_of_found h dbName name s :
  records_of (connect dbName (found h dbName) h) name s = records_of h name s.
Proof.
  unfold records_of.
  destruct (decide (dbName = name)) as [<-|Hne].
  - by rewrite store_of_connect, found_lookup.
  - by rewrite store_of_connect_ne.
Qed.

(** ** Scans *)

(** The records the predicate accepts, and a predicate that does not
    throw on any record of a list. *)
Definition matching (filterFn : FilterFn) (v : StoredValue) : bool :=
  match filterFn v with
  | inr true => true
  | _ => false
  end.

Definition total_on (filterFn : FilterFn) (rs : list Record_) : Prop :=
  Forall (λ r, ∃ b, filterFn r.2 = inr b) rs.

Definition no_request_fault (f : Faults) : Prop := ∀ n, hits f n = false.

Lemma no_faults_no_request_fault : no_request_fault no_faults.
Proof. intros n. reflexivity. Qed.

Lemma read_step (filterFn : FilterFn) (k : IDBValidKey) (v : StoredValue)
    (acc : list StoredValue) (p : Promise (list StoredValue)) (f : Faults) (t : Task) :
  readMultipleRecords_onsuccess filterFn (Some (k, v))
    {| scan_records := acc; scan_promise := p |} f t
  = match filterFn v with
    | inl e => (Threw {| scan_records := acc; scan_promise := p |} e, t)
    | inr true => (Returned {| scan_records := acc ++ [v]; scan_promise := p |} true, t)
    | inr false => (Returned {| scan_records := acc; scan_promise := p |} true, t)
    end.
Proof. reflexivity. Qed.

Lemma read_cursor_sound (filterFn : FilterFn) (rs : list Record_)
    (acc : list StoredValue) (f : Faults) (t : Task) :
  let s := (cursor_events (readMultipleRecords_onsuccess filterFn) rs
              {| scan_records := acc; scan_promise := Pending |} f t).1 in
  scan_promise s = Pending
  ∨ scan_promise s = Resolved (acc ++ List.filter (matching filterFn) (map snd rs)).
Proof.
  cbn zeta. revert acc t.
  induction rs as [|[k v] rs IH]; intros acc t; cbn [cursor_events].
  - destruct (tx_request f t) as [[] t1]; cbn; [|auto].
    right. by rewrite app_nil_r.
  - destruct (tx_request f t) as [[] t1]; cbn [negb]; [|cbn; auto].
    rewrite read_step. cbn [map List.filter snd].
    unfold matching at 1.
    destruct (filterFn v) as [e|[]]; cbn [fst snd scan_promise scan_records].
    + auto.
    + specialize (IH (acc ++ [v]) t1).
      rewrite <- app_assoc in IH. exact IH.
    + apply IH.
Qed.

Lemma read_cursor_total (filterFn : FilterFn) (rs : list Record_)
    (acc : list StoredValue) (f : Faults) h name stores n :
  no_request_fault f → total_on filterFn rs →
  cursor_events (readMultipleRecords_onsuccess filterFn) rs
    {| scan_records := acc; scan_promise := Pending |} f (active h name stores n)
  = ({| scan_records := acc ++ List.filter (matching filterFn) (map snd rs);
        scan_promise := Resolved (acc ++ List.filter (matching filterFn) (map snd rs)) |},
     active h name stores (n + S (length rs))).
Proof.
  intros Hf Htot. revert acc n.
  induction Htot as [|[k v] rs (b & Hb) _ IH]; intros acc n; cbn [cursor_events].
  - rewrite tx_request_active, Hf. cbn. rewrite app_nil_r.
    f_equal. f_equal. lia.
  - rewrite tx_request_active, Hf. cbn [negb].
    rewrite read_step. cbn [map List.filter snd length].
    cbn [snd] in Hb.
    assert (matching filterFn v = b) as -> by (unfold matching; rewrite Hb; by destruct b).
    rewrite Hb. destruct b.
    + rewrite IH. rewrite <- app_assoc. cbn [app].
      f_equal. f_equal. lia.
    + rewrite IH.
      f_equal. f_equal. lia.
Qed.

(** C4. [readMultipleRecords] filters and keeps the order.  Whenever its
    promise resolves, the result is the list of the values of the store's
    records that the predicate accepted, in the order of the records; and
    it does resolve, as soon as the cursor is exhausted, when the store
    exists, the predicate throws on no record, the open succeeds and no
    request fails. *)
Theorem readMultipleRecords_filter (dbName storeName : string)
    (filterFn : FilterFn) (f : Faults) (h : Host) :
  let accepted :=
    List.filter (matching filterFn) (map snd (records_of h dbName storeName)) in
  (∀ l, (readMultipleRecords dbName storeName filterFn f h).1 = Resolved l →
        l = accepted)
  ∧ (open_fault f = false → no_request_fault f →
     is_Some (store_of h dbName storeName) →
     total_on filterFn (records_of h dbName storeName) →
     (readMultipleRecords dbName storeName filterFn f h).1 = Resolved accepted).
Proof.
  cbn zeta. unfold readMultipleRecords. rewrite plain_open_cases.
  destruct (open_fault f) eqn:Hopen.
  { split; [intros l; discriminate|discriminate]. }
  change {| task_host := connect dbName (found h dbName) h; task_tx := None |}
    with (idle (connect dbName (found h dbName) h)).
  rewrite db_transaction_connected.
  destruct (forallb (contains (found h dbName)) [storeName]) eqn:Hscope; cycle 1.
  { split; [intros l; discriminate|].
    intros _ _ [os Hos] _. exfalso.
    rewrite (proj2 (forallb_contains_1 _ storeName)) in Hscope; [done|].
    exists os. by rewrite found_lookup. }
  apply forallb_contains_1 in Hscope as (os & Hos).
  assert (records os = records_of h dbName storeName) as Hrecs.
  { unfold records_of. rewrite <- found_lookup, Hos. done. }
  set (tx := {| tx_db := _; tx_scope := _; tx_mode := _ |}).
  assert (in_scope storeName tx) as Hin by (apply in_scope_here; cbn; auto).
  unfold openCursor. rewrite tx_objectStore_active, Hos by done.
  rewrite <- Hrecs. split.
  - intros l.
    pose proof (read_cursor_sound filterFn (records os) [] f
                  (active (connect dbName (found h dbName) h) dbName
                     (objectStores (found h dbName)) 0)) as Hsound.
    cbn zeta in Hsound.
    destruct (cursor_events _ _ _ _ _) as [s t2].
    cbn [fst app] in Hsound.
    destruct (tx_finish f t2) as [[[| |e]|] t3]; cbn [fst];
      destruct Hsound as [-> | ->]; cbn [settle]; congruence.
  - intros _ Hreq _ Htot.
    rewrite read_cursor_total by done. cbn [app].
    rewrite tx_finish_active. by destruct (commits f).
Qed.

(** What [deleteMultipleRecords] has deleted from a store once its cursor
    has passed the records [rs]: for each record the predicate accepts,
    the records under its key. *)
Definition delete_matching (filterFn : FilterFn) (rs l : list Record_) : list Record_ :=
  fold_left (λ acc r, if matching filterFn r.2 then records_delete r.1 acc else acc) rs l.

Lemma cursor_events_doomed {St : Type} (handler : Handler St) (rs : list Record_)
    (s : St) (f : Faults) h name stores e n k :
  cursor_events handler rs s f (doomed h name stores e n k)
  = (s, doomed h name stores e n (S k)).
Proof. destruct rs; reflexivity. Qed.

Lemma delete_step (tx : IDBTransaction) (storeName : string) (filterFn : FilterFn)
    (k : IDBValidKey) (v : StoredValue) (p : Promise unit) (f : Faults) (t : Task) :
  deleteMultipleRecords_onsuccess tx storeName filterFn (Some (k, v)) p f t
  = match filterFn v with
    | inl e => (Threw p e, t)
    | inr true =>
        match os_delete tx storeName k f t with
        | (inl e, t1) => (Threw p e, t1)
        | (inr _, t1) => (Returned p true, t1)
        end
    | inr false => (Returned p true, t)
    end.
Proof. reflexivity. Qed.

Lemma not_total_on_cons filterFn r rs :
  ¬ total_on filterFn rs → ¬ total_on filterFn (r :: rs).
Proof. intros Hn Ht. apply Hn. by inversion Ht. Qed.

Lemma with_records_same os : with_records (records os) os = os.
Proof. by destruct os. Qed.

(** How the cursor of [deleteMultipleRecords] ends.  The promise is left
    pending when a request failed or the predicate threw; otherwise it is
    resolved, the transaction is live, and its copy of the store has lost
    the accepted records, and they only. *)
Lemma delete_cursor_cases (tx : IDBTransaction) (storeName : string)
    (filterFn : FilterFn) (rs : list Record_) (f : Faults) h name stores n os :
  in_scope storeName tx → tx_mode tx = readwrite →
  stores !! storeName = Some os →
  let r := cursor_events (deleteMultipleRecords_onsuccess tx storeName filterFn)
             rs Pending f (active h name stores n) in
  (r.1 = Pending ∧ (¬ no_request_fault f ∨ ¬ total_on filterFn rs))
  ∨ (r.1 = Resolved tt ∧ total_on filterFn rs
     ∧ ∃ stores' n',
         r.2 = active h name stores' n'
         ∧ stores' !! storeName
           = Some (with_records (delete_matching filterFn rs (records os)) os)
         ∧ ∀ s, s ≠ storeName → stores' !! s = stores !! s).
Proof.
  intros Hin Hmode. cbn zeta. revert stores n os.
  induction rs as [|[k v] rs IH]; intros stores n os Hos; cbn [cursor_events].
  - rewrite tx_request_active. destruct (hits f n) eqn:Hhit; cbn [negb fst snd].
    { left. split; [done|]. left. intros Hf. specialize (Hf n). congruence. }
    right. split; [done|]. split; [constructor|].
    exists stores, (S n). split; [done|]. split; [|done].
    cbn. by rewrite with_records_same.
  - rewrite tx_request_active. destruct (hits f n) eqn:Hhit; cbn [negb fst snd].
    { left. split; [done|]. left. intros Hf. specialize (Hf n). congruence. }
    rewrite delete_step.
    destruct (filterFn v) as [e|[]] eqn:Hv.
    + left. split; [done|]. right. intros Ht. inversion Ht as [|? ? (b & Hb) _]; subst.
      cbn in Hb. congruence.
    + rewrite (os_delete_active tx storeName k f h name stores (S n) os) by done.
      destruct (hits f (S n)) eqn:Hhit2.
      { rewrite cursor_events_doomed. left. split; [done|]. left.
        intros Hf. specialize (Hf (S n)). congruence. }
      set (os1 := with_records (records_delete k (records os)) os).
      destruct (IH (<[storeName := os1]> stores) (S (S n)) os1)
        as [(Hp & Hwhy) | (Hp & Htot & stores' & n' & Ht & Hst & Hframe)].
      { apply lookup_insert_eq. }
      * left. split; [done|]. destruct Hwhy as [?|Hnt]; [by left|right].
        by apply not_total_on_cons.
      * right. split; [done|]. split.
        { constructor; [|done]. cbn. eauto. }
        exists stores', n'. split; [done|]. split.
        -- assert (matching filterFn v = true) as Hm
             by (unfold matching; by rewrite Hv).
           rewrite Hst. unfold delete_matching. cbn [fold_left snd fst].
           rewrite Hm. reflexivity.
        -- intros s Hs. rewrite Hframe by done. by rewrite lookup_insert_ne.
    + destruct (IH stores (S n) os Hos)
        as [(Hp & Hwhy) | (Hp & Htot & stores' & n' & Ht & Hst & Hframe)].
      * left. split; [done|]. destruct Hwhy as [?|Hnt]; [by left|right].
        by apply not_total_on_cons.
      * right. split; [done|]. split.
        { constructor; [|done]. cbn. eauto. }
        exists stores', n'. split; [done|]. split; [|done].
        assert (matching filterFn v = false) as Hm
          by (unfold matching; by rewrite Hv).
        rewrite Hst. unfold delete_matching. cbn [fold_left snd fst].
        rewrite Hm. reflexivity.
Qed.

(** What [console.error] has printed once [transaction.onerror] has run
    for each of the [error] events. *)
Definition printed (es : list JsError) (h : Host) : Host :=
  fold_left (λ h e, console_error "Transaction error:" (Some e) h) es h.

Lemma printed_console (es : list JsError) (h : Host) :
  console (printed es h)
  = console h ++ map (λ e, ("Transaction error:", Some e)) es.
Proof.
  unfold printed. revert h. induction es as [|e es IH]; intros h; cbn [fold_left map].
  - by rewrite app_nil_r.
  - rewrite IH. cbn [console console_error]. by rewrite <- app_assoc.
Qed.

Lemma printed_rest (es : list JsError) (h : Host) :
  databases (printed es h) = databases h
  ∧ connections (printed es h) = connections h
  ∧ nextConnection (printed es h) = nextConnection h
  ∧ uncaught (printed es h) = uncaught h
  ∧ signals (printed es h) = signals h.
Proof.
  unfold printed. revert h. induction es as [|e es IH]; intros h; cbn [fold_left]; [done|].
  destruct (IH (console_error "Transaction error:" (Some e) h)) as (-> & -> & -> & -> & ->).
  done.
Qed.

Lemma store_of_printed (es : list JsError) (h : Host) (name s : string) :
  store_of (printed es h) name s = store_of h name s.
Proof. unfold store_of. by rewrite (proj1 (printed_rest es h)). Qed.

Lemma records_of_printed (es : list JsError) (h : Host) (name s : string) :
  records_of (printed es h) name s = records_of h name s.
Proof. unfold records_of. by rewrite store_of_printed. Qed.

(** The first [error] event settles the promise; the events that follow
    find it settled and only print. *)
Lemma deleteMultipleRecords_onerror_events (p : Promise unit) (f : Faults) (t2 : Task) :
  fold_left deleteMultipleRecords_onerror (error_events t2)
    (p, task_host (tx_finish f t2).2)
  = match tx_finish f t2 with
    | (Some (TxError e), t3) =>
        (settle p (Rejected e), printed (error_events t2) (task_host t3))
    | (_, t3) => (p, task_host t3)
    end.
Proof.
  assert (∀ es (q : Promise unit) h, q ≠ Pending →
            fold_left deleteMultipleRecords_onerror es (q, h) = (q, printed es h))
    as Hsettled.
  { unfold printed. induction es as [|e es IH]; intros q h Hq; cbn [fold_left]; [done|].
    unfold deleteMultipleRecords_onerror at 2. cbn [fst snd].
    assert (settle q (Rejected e) = q) as -> by (by destruct q).
    by apply IH. }
  unfold error_events, tx_finish. destruct (task_tx t2) as [tr|]; [|done].
  unfold tx_outcome. destruct (live_status tr) as [|e k|e]; cbn [fst snd task_host].
  - by destruct (tx_fault f) as [[]|].
  - cbn [fold_left]. unfold deleteMultipleRecords_onerror at 2. cbn [fst snd].
    destruct p as [|[]|e'].
    + cbn [settle]. rewrite Hsettled by done. reflexivity.
    + cbn [settle]. rewrite Hsettled by done. reflexivity.
    + cbn [settle]. rewrite Hsettled by done. reflexivity.
  - done.
Qed.

Lemma filter_filter_andb {A : Type} (p q : A → bool) (l : list A) :
  List.filter p (List.filter q l) = List.filter (λ x, q x && p x) l.
Proof.
  induction l as [|a l IH]; cbn; [done|].
  destruct (q a); cbn; [|done]. destruct (p a); by rewrite IH.
Qed.

Lemma filter_all {A : Type} (l : list A) : List.filter (λ _, true) l = l.
Proof. induction l as [|a l IH]; cbn; by rewrite ?IH. Qed.

(** Deleting key by key is filtering on the keys deleted. *)
Lemma delete_matching_filter (filterFn : FilterFn) (rs l : list Record_) :
  delete_matching filterFn rs l
  = List.filter
      (λ r, negb (existsb (λ r', matching filterFn r'.2 && key_eqb r'.1 r.1) rs)) l.
Proof.
  unfold delete_matching. revert l.
  induction rs as [|r0 rs IH]; intros l; cbn [fold_left existsb].
  - cbn. by rewrite filter_all.
  - rewrite IH. destruct (matching filterFn r0.2); cbn [andb orb].
    + unfold records_delete. rewrite filter_filter_andb.
      apply List.filter_ext. intros r. by rewrite negb_orb.
    + done.
Qed.

Lemma unique_key (l : list Record_) (r r' : Record_) :
  NoDup (map fst l) → In r l → In r' l → r.1 = r'.1 → r = r'.
Proof.
  induction l as [|a l IH]; cbn; [done|].
  intros Hnd Hr Hr' Hk. apply NoDup_cons in Hnd as [Hnot Hnd].
  destruct Hr as [->|Hr], Hr' as [->|Hr']; [done| | |by apply IH].
  - exfalso. apply Hnot. rewrite Hk. apply list_elem_of_In. by apply in_map.
  - exfalso. apply Hnot. rewrite <- Hk. apply list_elem_of_In. by apply in_map.
Qed.

(** With one record per key, a scan that deletes the accepted records
    leaves the others. *)
Lemma delete_matching_all (filterFn : FilterFn) (l : list Record_) :
  NoDup (map fst l) →
  delete_matching filterFn l l = List.filter (λ r, negb (matching filterFn r.2)) l.
Proof.
  intros Hnd. rewrite delete_matching_filter.
  apply List.filter_ext_in. intros r Hr. f_equal.
  destruct (matching filterFn r.2) eqn:Hm.
  - apply existsb_exists. exists r. by rewrite Hm, key_eqb_refl.
  - apply not_true_is_false. intros Hex.
    apply existsb_exists in Hex as (r' & Hr' & Hand).
    apply andb_true_iff in Hand as [Hm' Hk]. apply key_eqb_eq in Hk.
    rewrite (unique_key l r' r Hnd Hr' Hr Hk) in Hm'. congruence.
Qed.

Lemma records_of_commit name stores n h name' s :
  records_of (commit (live name stores n) h) name' s
  = if decide (name = name') then from_option records [] (stores !! s)
    else records_of h name' s.
Proof.
  unfold records_of. case_decide as Hn.
  - subst name'. by rewrite store_of_commit.
  - by rewrite store_of_commit_ne.
Qed.

(** The transaction an operation ran completed. *)
Definition completed (h h' : Host) : Prop := signals h' = signals h ++ [TxComplete].

(** C5, as the code has it.  [deleteMultipleRecords] removes the accepted
    records and no other, once its transaction has completed.  When its
    promise has resolved and its transaction has completed, the store
    holds the records the predicate did not accept, in their order, and
    every other store is as it was; that is how the call ends when the
    store exists, the predicate throws on no record and the engine
    reports no failure.  The promise is resolved when the cursor is
    exhausted, before the commit: when every request succeeds and the
    commit fails, the promise is resolved all the same, the transaction
    is aborted and no record is deleted. *)
Theorem deleteMultipleRecords_removes (dbName storeName : string)
    (filterFn : FilterFn) (f : Faults) (h : Host) :
  NoDup (map fst (records_of h dbName storeName)) →
  let r := deleteMultipleRecords dbName storeName filterFn f h in
  (r.1 = Resolved tt → completed h r.2 →
     records_of r.2 dbName storeName
       = List.filter (λ rec, negb (matching filterFn rec.2))
           (records_of h dbName storeName)
     ∧ ∀ name s, name ≠ dbName ∨ s ≠ storeName →
                 records_of r.2 name s = records_of h name s)
  ∧ (open_fault f = false → tx_fault f = None →
     is_Some (store_of h dbName storeName) →
     total_on filterFn (records_of h dbName storeName) →
     r.1 = Resolved tt ∧ completed h r.2)
  ∧ (open_fault f = false → tx_fault f = Some CommitError →
     is_Some (store_of h dbName storeName) →
     total_on filterFn (records_of h dbName storeName) →
     r.1 = Resolved tt ∧ aborted h r.2
     ∧ ∀ name s, records_of r.2 name s = records_of h name s).
Proof.
  intros Hnd. cbn zeta. unfold deleteMultipleRecords. rewrite plain_open_cases.
  destruct (open_fault f) eqn:Hopen.
  { split; [discriminate|split; discriminate]. }
  change {| task_host := connect dbName (found h dbName) h; task_tx := None |}
    with (idle (connect dbName (found h dbName) h)).
  rewrite db_transaction_connected.
  destruct (forallb (contains (found h dbName)) [storeName]) eqn:Hscope; cycle 1.
  { split; [discriminate|].
    split; intros _ _ [os Hos] _; exfalso;
      (rewrite (proj2 (forallb_contains_1 _ storeName)) in Hscope; [done|]);
      exists os; by rewrite found_lookup. }
  apply forallb_contains_1 in Hscope as (os & Hos).
  assert (records os = records_of h dbName storeName) as Hrecs.
  { unfold records_of. rewrite <- found_lookup, Hos. done. }
  set (h1 := connect dbName (found h dbName) h).
  set (tx := {| tx_db := _; tx_scope := _; tx_mode := _ |}).
  assert (in_scope storeName tx) as Hin by (apply in_scope_here; cbn; auto).
  unfold openCursor. rewrite tx_objectStore_active, Hos by done.
  destruct (delete_cursor_cases tx storeName filterFn (records os) f h1 dbName
              (objectStores (found h dbName)) 0 os Hin eq_refl Hos)
    as [(Hp & Hwhy) | (Hp & Htot & stores' & n' & Ht & Hst & Hframe)];
    destruct (cursor_events _ _ _ _ _) as [p t2]; cbn [fst snd] in *; subst p;
    rewrite deleteMultipleRecords_onerror_events.
  - split.
    + destruct (tx_finish f t2) as [[[| |e]|] t3]; cbn [fst settle]; discriminate.
    + split; intros _ Hfault _ Htot; exfalso; (destruct Hwhy as [Hf|Hnt];
        [apply Hf; intros k; unfold hits; by rewrite Hfault
        |apply Hnt; by rewrite Hrecs]).
  - subst t2. rewrite tx_finish_active.
    fold (live dbName stores' n').
    destruct (commits f) eqn:Hcommit; cbn [fst snd settle idle task_host].
    + split; [|split].
      * intros _ _. split.
        -- rewrite records_of_signal, records_of_commit, decide_True by done.
           rewrite Hst. cbn [from_option records with_records].
           rewrite delete_matching_all by (by rewrite Hrecs). by rewrite Hrecs.
        -- intros name s Hother.
           rewrite records_of_signal, records_of_commit.
           case_decide as Hn; [|apply records_of_found].
           subst name. destruct Hother as [?|Hs]; [done|].
           rewrite Hframe by done. unfold records_of. by rewrite found_lookup.
      * intros _ _ _ _. split; [done|]. reflexivity.
      * intros _ Hfails. exfalso. unfold commits in Hcommit.
        by rewrite Hfails in Hcommit.
    + split; [|split].
      * intros _ Hdone. exfalso. unfold completed in Hdone. cbn in Hdone.
        apply app_inj_tail in Hdone as [_ ?]. discriminate.
      * intros _ Hnone. exfalso. unfold commits in Hcommit. by rewrite Hnone in Hcommit.
      * intros _ _ _ _. split; [done|]. split; [by eexists|].
        intros name s. rewrite records_of_signal. apply records_of_found.
Qed.

(** ** A predicate that throws *)

Lemma tx_finish_threw (f : Faults) (e : JsError) h name stores n :
  tx_finish f (handler_threw e (active h name stores n))
  = (Some (TxAbort AbortError),
     idle (signal (TxAbort AbortError) (report_uncaught e h))).
Proof. reflexivity. Qed.

Lemma read_cursor_throw (filterFn : FilterFn) (before after : list Record_)
    (k : IDBValidKey) (v : StoredValue) (e : JsError)
    (acc : list StoredValue) (f : Faults) h name stores n :
  no_request_fault f → total_on filterFn before → filterFn v = inl e →
  ∃ acc' n',
    cursor_events (readMultipleRecords_onsuccess filterFn) (before ++ (k, v) :: after)
      {| scan_records := acc; scan_promise := Pending |} f (active h name stores n)
    = ({| scan_records := acc'; scan_promise := Pending |},
       handler_threw e (active h name stores n')).
Proof.
  intros Hf Htot Hv. revert acc n.
  induction Htot as [|[k0 v0] rs (b & Hb) _ IH]; intros acc n;
    cbn [app cursor_events]; rewrite tx_request_active, Hf; cbn [negb];
    rewrite read_step.
  - rewrite Hv. eauto.
  - cbn [snd] in Hb. rewrite Hb. destruct b; apply IH.
Qed.

Lemma delete_cursor_throw (tx : IDBTransaction) (storeName : string)
    (filterFn : FilterFn) (before after : list Record_)
    (k : IDBValidKey) (v : StoredValue) (e : JsError)
    (f : Faults) h name stores n os :
  in_scope storeName tx → tx_mode tx = readwrite →
  stores !! storeName = Some os →
  no_request_fault f → total_on filterFn before → filterFn v = inl e →
  ∃ stores' n',
    cursor_events (deleteMultipleRecords_onsuccess tx storeName filterFn)
      (before ++ (k, v) :: after) Pending f (active h name stores n)
    = (Pending, handler_threw e (active h name stores' n')).
Proof.
  intros Hin Hmode Hos Hf Htot Hv. revert stores n os Hos.
  induction Htot as [|[k0 v0] rs (b & Hb) _ IH]; intros stores n os Hos;
    cbn [app cursor_events]; rewrite tx_request_active, Hf; cbn [negb];
    rewrite delete_step.
  - rewrite Hv. eauto.
  - cbn [snd] in Hb. rewrite Hb. destruct b.
    + rewrite (os_delete_active tx storeName k0 f h name stores (S n) os) by done.
      rewrite Hf. eapply IH. apply lookup_insert_eq.
    + by eapply IH.
Qed.

(** C7, as the code has it.  When the predicate throws on a record (the
    open having succeeded and no request having failed before), the
    exception leaves the cursor's handler uncaught: the promise of
    [readMultipleRecords] and of [deleteMultipleRecords] is neither
    resolved nor rejected, nothing is printed, the transaction is aborted,
    and the deletions made before the exception are undone. *)
Theorem predicate_throw_leaves_pending (dbName storeName : string)
    (filterFn : FilterFn) (f : Faults) (h : Host)
    (before after : list Record_) (k : IDBValidKey) (v : StoredValue) (e : JsError) :
  open_fault f = false → no_request_fault f →
  records_of h dbName storeName = before ++ (k, v) :: after →
  total_on filterFn before → filterFn v = inl e →
  let r := readMultipleRecords dbName storeName filterFn f h in
  let d := deleteMultipleRecords dbName storeName filterFn f h in
  (r.1 = Pending ∧ uncaught r.2 = uncaught h ++ [e] ∧ console r.2 = console h
   ∧ aborted h r.2)
  ∧ (d.1 = Pending ∧ uncaught d.2 = uncaught h ++ [e] ∧ console d.2 = console h
     ∧ aborted h d.2
     ∧ ∀ name s, records_of d.2 name s = records_of h name s).
Proof.
  intros Hopen Hf Hrecs Htot Hv. cbn zeta.
  assert (∃ os, objectStores (found h dbName) !! storeName = Some os
                ∧ records os = before ++ (k, v) :: after) as (os & Hos & Hros).
  { rewrite found_lookup. unfold records_of in Hrecs.
    destruct (store_of h dbName storeName) as [os|]; cbn in Hrecs.
    - eauto.
    - by destruct before. }
  set (h1 := connect dbName (found h dbName) h).
  assert (forallb (contains (found h dbName)) [storeName] = true) as Hscope.
  { apply forallb_contains_1. eauto. }
  split.
  - unfold readMultipleRecords. rewrite plain_open_cases, Hopen.
    change {| task_host := connect dbName (found h dbName) h; task_tx := None |}
      with (idle h1).
    subst h1. rewrite db_transaction_connected, Hscope.
    set (h1 := connect dbName (found h dbName) h).
    set (tx := {| tx_db := _; tx_scope := _; tx_mode := _ |}).
    assert (in_scope storeName tx) as Hin by (apply in_scope_here; cbn; auto).
    unfold openCursor. rewrite tx_objectStore_active, Hos, Hros by done.
    destruct (read_cursor_throw filterFn before after k v e [] f h1 dbName
                (objectStores (found h dbName)) 0 Hf Htot Hv) as (acc' & n' & ->).
    rewrite tx_finish_threw. cbn [fst snd scan_promise idle task_host].
    repeat split. eexists. split; [reflexivity|discriminate].
  - unfold deleteMultipleRecords. rewrite plain_open_cases, Hopen.
    change {| task_host := connect dbName (found h dbName) h; task_tx := None |}
      with (idle h1).
    subst h1. rewrite db_transaction_connected, Hscope.
    set (h1 := connect dbName (found h dbName) h).
    set (tx := {| tx_db := _; tx_scope := _; tx_mode := _ |}).
    assert (in_scope storeName tx) as Hin by (apply in_scope_here; cbn; auto).
    unfold openCursor. rewrite tx_objectStore_active, Hos, Hros by done.
    destruct (delete_cursor_throw tx storeName filterFn before after k v e f h1 dbName
                (objectStores (found h dbName)) 0 os Hin eq_refl Hos Hf Htot Hv)
      as (stores' & n' & ->).
    rewrite tx_finish_threw. cbn [fst snd idle task_host].
    repeat split.
    + eexists. split; [reflexivity|discriminate].
    + intros name s. apply records_of_found.
Qed.

(** ** Notifier passes *)

Section NotifierProperties.

Context {U : Type}.
Variable callback : StoredValue → U → JsError + U.

#[local] Abbreviation handler := (pollForChanges_onsuccess callback).

(** One pass of [onNewRecord], by what the engine finds. *)
Lemma onNewRecord_pass (dbName : string) (o : Observer) (f : Faults) (h : Host) :
  onNewRecord_pollForChanges callback dbName o f h =
  if open_fault f then (o, false, h)
  else
    let h1 := connect dbName (found h dbName) h in
    match store_of h dbName "changeLog" with
    | None => (o, false, report_uncaught NotFoundError h1)
    | Some os =>
        let '(o', t2) :=
          cursor_events handler (records os) o f
            (active h1 dbName (objectStores (found h dbName)) 0) in
        match tx_finish f t2 with
        | (Some TxComplete, t3) => (o', true, task_host t3)
        | (_, t3) => (o', false, task_host t3)
        end
    end.
Proof.
  unfold onNewRecord_pollForChanges. rewrite plain_open_cases.
  destruct (open_fault f); [done|]. cbn zeta.
  change {| task_host := connect dbName (found h dbName) h; task_tx := None |}
    with (idle (connect dbName (found h dbName) h)).
  rewrite db_transaction_connected.
  destruct (store_of h dbName "changeLog") as [os|] eqn:Hos.
  - rewrite (proj2 (forallb_contains_1 _ "changeLog"))
      by (exists os; by rewrite found_lookup).
    unfold openCursor.
    rewrite tx_objectStore_active by (apply in_scope_here; cbn; auto).
    by rewrite found_lookup, Hos.
  - destruct (forallb (contains (found h dbName)) ["changeLog"]) eqn:Hscope; [|done].
    apply forallb_contains_1 in Hscope as (os & Hl).
    rewrite found_lookup in Hl. congruence.
Qed.

(** One pass of [onNewRecordWithLog]: the same, and two messages. *)
Lemma onNewRecordWithLog_pass (dbName : string) (o : Observer) (f : Faults) (h : Host) :
  onNewRecordWithLog_pollForChanges callback dbName o f h =
  if open_fault f
  then (o, false, console_error "Error opening database:" (Some UnknownError) h)
  else
    let h1 := connect dbName (found h dbName) h in
    match store_of h dbName "changeLog" with
    | None => (o, false, report_uncaught NotFoundError h1)
    | Some os =>
        let '(o', t2) :=
          cursor_events handler (records os) o f
            (active h1 dbName (objectStores (found h dbName)) 0) in
        match tx_finish f t2 with
        | (Some TxComplete, t3) => (o', true, task_host t3)
        | (Some (TxError e), t3) =>
            (o', false, console_error "Transaction error:" (Some e) (task_host t3))
        | (_, t3) => (o', false, task_host t3)
        end
    end.
Proof.
  unfold onNewRecordWithLog_pollForChanges. rewrite plain_open_cases.
  destruct (open_fault f); [done|]. cbn zeta.
  change {| task_host := connect dbName (found h dbName) h; task_tx := None |}
    with (idle (connect dbName (found h dbName) h)).
  rewrite db_transaction_connected.
  destruct (store_of h dbName "changeLog") as [os|] eqn:Hos.
  - rewrite (proj2 (forallb_contains_1 _ "changeLog"))
      by (exists os; by rewrite found_lookup).
    unfold openCursor.
    rewrite tx_objectStore_active by (apply in_scope_here; cbn; auto).
    by rewrite found_lookup, Hos.
  - destruct (forallb (contains (found h dbName)) ["changeLog"]) eqn:Hscope; [|done].
    apply forallb_contains_1 in Hscope as (os & Hl).
    rewrite found_lookup in Hl. congruence.
Qed.

(** The two notifiers deliver the same and schedule the same. *)
Lemma passes_agree (dbName : string) (o : Observer) (f : Faults) (h : Host) :
  (onNewRecordWithLog_pollForChanges callback dbName o f h).1
  = (onNewRecord_pollForChanges callback dbName o f h).1.
Proof.
  rewrite onNewRecordWithLog_pass, onNewRecord_pass.
  destruct (open_fault f); [done|]. cbn zeta.
  destruct (store_of h dbName "changeLog"); [|done].
  destruct (cursor_events _ _ _ _ _) as [o' t2].
  by destruct (tx_finish f t2) as [[[| |e]|] t3].
Qed.

Lemma notifiers_agree (dbName : string) (u : U) (world : list (Faults * Host)) :
  onNewRecordWithLog callback dbName u world = onNewRecord callback dbName u world.
Proof.
  unfold onNewRecordWithLog, onNewRecord. generalize (new_observer u).
  induction world as [|[f h] world IH]; intros o; cbn [polling]; [done|].
  pose proof (passes_agree dbName o f h) as Hsame.
  destruct (onNewRecordWithLog_pollForChanges callback dbName o f h) as [[o1 s1] h1].
  destruct (onNewRecord_pollForChanges callback dbName o f h) as [[o2 s2] h2].
  cbn [fst] in Hsame. injection Hsame as -> ->.
  destruct s2; [apply IH|done].
Qed.

(** What the observer has been through is consistent when no key was
    delivered twice and every key delivered is in [seenChanges]. *)
Definition consistent (o : @Observer U) : Prop :=
  NoDup (map fst (calls o))
  ∧ ∀ k, k ∈ map fst (calls o) → Set_has (seenChanges o) k = true.

Lemma consistent_new (u : U) : consistent (new_observer u).
Proof. split; [constructor|]. cbn. intros k Hk. by apply elem_of_nil in Hk. Qed.

Lemma handler_step (k : IDBValidKey) (v : StoredValue) (o : Observer)
    (f : Faults) (t : Task) :
  handler (Some (k, v)) o f t =
  if Set_has (seenChanges o) k then (Returned o true, t)
  else
    match callback v (user o) with
    | inr u =>
        (Returned {| seenChanges := Set_add (seenChanges o) k; user := u;
                     calls := calls o ++ [(k, v)] |} true, t)
    | inl e =>
        (Threw {| seenChanges := Set_add (seenChanges o) k; user := user o;
                  calls := calls o ++ [(k, v)] |} e, t)
    end.
Proof.
  unfold pollForChanges_onsuccess. by destruct (Set_has (seenChanges o) k).
Qed.

Lemma Set_has_mono (s : list IDBValidKey) (k k' : IDBValidKey) :
  Set_has s k' = true → Set_has (Set_add s k) k' = true.
Proof.
  unfold Set_add. destruct (Set_has s k); [done|].
  unfold Set_has. destruct k'; try done; rewrite existsb_app; by intros ->.
Qed.

Lemma Set_has_added (s : list IDBValidKey) (n : Z) :
  Set_has (Set_add s (KNumber n)) (KNumber n) = true.
Proof.
  unfold Set_add. destruct (Set_has s (KNumber n)) eqn:Hh; [done|].
  unfold Set_has. rewrite existsb_app. cbn [existsb].
  rewrite key_eqb_refl. by rewrite orb_true_r.
Qed.

(** Delivering an entry under a numeric key that is not in
    [seenChanges] keeps the observer consistent. *)
Lemma consistent_deliver (o : Observer) (n : Z) (v : StoredValue) (u : U) :
  consistent o → Set_has (seenChanges o) (KNumber n) = false →
  consistent {| seenChanges := Set_add (seenChanges o) (KNumber n); user := u;
                calls := calls o ++ [(KNumber n, v)] |}.
Proof.
  intros [Hnd Hseen] Hnew. split; cbn [calls seenChanges].
  - rewrite map_app. cbn [map fst]. apply NoDup_app. split; [done|].
    split; [|apply NoDup_singleton].
    intros k Hk ->%list_elem_of_singleton. apply Hseen in Hk. congruence.
  - intros k. rewrite map_app. cbn [map fst].
    intros [Hk | ->%list_elem_of_singleton]%elem_of_app.
    + apply Set_has_mono. by apply Hseen.
    + apply Set_has_added.
Qed.

Definition numeric (r : Record_) : Prop := ∃ n, r.1 = KNumber n.

(** A cursor over numeric keys keeps the observer consistent, whatever
    the engine and the callback do. *)
Lemma poll_cursor_consistent (rs : list Record_) (o : Observer) (f : Faults) (t : Task) :
  Forall numeric rs → consistent o →
  consistent (cursor_events handler rs o f t).1.
Proof.
  intros Hnum. revert o t.
  induction Hnum as [|[k v] rs [n Hk] _ IH]; intros o t Ho; cbn [cursor_events].
  - by destruct (tx_request f t) as [[] t1].
  - cbn in Hk. subst k.
    destruct (tx_request f t) as [[] t1]; cbn [negb fst]; [|done].
    rewrite handler_step.
    destruct (Set_has (seenChanges o) (KNumber n)) eqn:Hhas; [by apply IH|].
    destruct (callback v (user o)) as [e|u].
    + cbn [fst]. by apply consistent_deliver.
    + apply IH. by apply consistent_deliver.
Qed.

(** What a cursor delivers is a selection of the records, in their
    order. *)
Lemma poll_cursor_delivers (rs : list Record_) (o : Observer) (f : Faults) (t : Task) :
  ∃ d, calls (cursor_events handler rs o f t).1 = calls o ++ d ∧ d `sublist_of` rs.
Proof.
  revert o t.
  induction rs as [|[k v] rs IH]; intros o t; cbn [cursor_events].
  - exists []. rewrite app_nil_r. split; [|done].
    by destruct (tx_request f t) as [[] t1].
  - destruct (tx_request f t) as [[] t1]; cbn [negb fst].
    2:{ exists []. rewrite app_nil_r. split; [done|]. apply sublist_nil_l. }
    rewrite handler_step.
    destruct (Set_has (seenChanges o) k).
    { destruct (IH o t1) as (d & Hd & Hsub). exists d. split; [done|].
      by apply sublist_cons. }
    destruct (callback v (user o)) as [e|u].
    + cbn [fst calls]. exists [(k, v)]. split; [done|].
      apply sublist_skip, sublist_nil_l.
    + match goal with
      | |- context [cursor_events _ _ ?o1 _ _] =>
          destruct (IH o1 t1) as (d & Hd & Hsub)
      end.
      exists ((k, v) :: d). split.
      * rewrite Hd. cbn [calls]. by rewrite <- app_assoc.
      * by apply sublist_skip.
Qed.

(** What calls of the callback, one for each of the entries [d], make of
    the caller's state: each call starts from the state the call before
    it left, and a call that throws leaves the state as it found it. *)
Definition effect (d : list Record_) (u : U) : U :=
  fold_left (λ u r, match callback r.2 u with inr u' => u' | inl _ => u end) d u.

Lemma effect_app (d1 d2 : list Record_) (u : U) :
  effect (d1 ++ d2) u = effect d2 (effect d1 u).
Proof. apply fold_left_app. Qed.

(** The callback is called on what the cursor delivers, entry by entry. *)
Lemma poll_cursor_effect (rs : list Record_) (o : Observer) (f : Faults) (t : Task) :
  ∃ d, calls (cursor_events handler rs o f t).1 = calls o ++ d
       ∧ d `sublist_of` rs
       ∧ user (cursor_events handler rs o f t).1 = effect d (user o).
Proof.
  revert o t.
  induction rs as [|[k v] rs IH]; intros o t; cbn [cursor_events].
  - exists []. rewrite app_nil_r. split; [|split; [done|]];
      by destruct (tx_request f t) as [[] t1].
  - destruct (tx_request f t) as [[] t1]; cbn [negb fst].
    2:{ exists []. rewrite app_nil_r. split; [done|]. split; [apply sublist_nil_l|done]. }
    rewrite handler_step.
    destruct (Set_has (seenChanges o) k).
    { destruct (IH o t1) as (d & Hd & Hsub & Hu). exists d. split; [done|].
      split; [by apply sublist_cons|done]. }
    destruct (callback v (user o)) as [e|u] eqn:Hcall.
    + cbn [fst calls user]. exists [(k, v)]. split; [done|].
      split; [apply sublist_skip, sublist_nil_l|].
      unfold effect. cbn [fold_left snd]. by rewrite Hcall.
    + match goal with
      | |- context [cursor_events _ _ ?o1 _ _] =>
          destruct (IH o1 t1) as (d & Hd & Hsub & Hu)
      end.
      exists ((k, v) :: d). split; [|split].
      * rewrite Hd. cbn [calls]. by rewrite <- app_assoc.
      * by apply sublist_skip.
      * rewrite Hu. unfold effect. cbn [fold_left snd user]. by rewrite Hcall.
Qed.

End NotifierProperties.

(** ** Writes, then a first poll *)

(** A write: the store, the key and the value. *)
Definition Write : Type := string * IDBValidKey * JsonValue.

(** Writes made one after the other, each of which resolves. *)
Fixpoint writes (dbName : string) (ws : list (Write * Faults)) (h : Host)
  : option Host :=
  match ws with
  | [] => Some h
  | ((storeName, key, value), f) :: later =>
      match writeJson dbName storeName key value f h with
      | (Resolved _, h') => writes dbName later h'
      | _ => None
      end
  end.

(** The log entries of a sequence of writes, numbered from [g]. *)
Fixpoint entries_from (g : Z) (ws : list Write) : list Record_ :=
  match ws with
  | [] => []
  | (storeName, key, value) :: later =>
      (KNumber g,
       Entry {| entry_id := Some g; entry_store := storeName;
                entry_key := key; entry_value := value |})
      :: entries_from (g + 1) later
  end.

Lemma writes_log (dbName : string) (ws : list (Write * Faults)) (h h' : Host) :
  log_ok h dbName → writes dbName ws h = Some h' →
  changeLog_of h' dbName
    = changeLog_of h dbName ++ entries_from (next_id h dbName) (map fst ws)
  ∧ log_ok h' dbName
  ∧ (ws ≠ [] → is_Some (store_of h' dbName "changeLog")).
Proof.
  revert h. induction ws as [|[[[s k] v] f] ws IH]; intros h Hok; cbn [writes].
  - intros [= <-]. cbn. by rewrite app_nil_r.
  - destruct (writeJson dbName s k v f h) as [[| [] |e] h1] eqn:Hw; try discriminate.
    intros Hrest.
    destruct (writeJson_resolved_log dbName s k v f h h1 Hok Hw)
      as (Hlog1 & _ & Hgen1 & Hok1 & Hsome1).
    destruct (IH h1 Hok1 Hrest) as (Hlog' & Hok' & Hsome').
    split; [|split; [done|]].
    + rewrite Hlog', Hlog1, Hgen1. cbn [map fst entries_from].
      by rewrite <- app_assoc.
    + intros _. destruct ws as [|w ws']; [|by apply Hsome'].
      cbn in Hrest. by injection Hrest as <-.
Qed.

Lemma log_ok_numeric (h : Host) (dbName : string) :
  log_ok h dbName → Forall numeric (changeLog_of h dbName).
Proof.
  intros Hok. unfold changeLog_of, records_of.
  destruct (store_of h dbName "changeLog") as [os|] eqn:Hos; [|constructor].
  destruct (Hok os Hos) as (_ & _ & Hbelow & _). cbn.
  eapply Forall_impl; [exact Hbelow|]. intros r (n & Hn & _). by exists n.
Qed.

Lemma log_ok_ascending (h : Host) (dbName : string) :
  log_ok h dbName → ascending (changeLog_of h dbName).
Proof.
  intros Hok. unfold changeLog_of, records_of.
  destruct (store_of h dbName "changeLog") as [os|] eqn:Hos; [|constructor].
  by destruct (Hok os Hos) as (_ & _ & _ & Hasc).
Qed.

Lemma sublist_Forall_keep {A : Type} (P : A → Prop) (l k : list A) :
  l `sublist_of` k → Forall P k → Forall P l.
Proof.
  induction 1 as [|x l k _ IH|x l k _ IH]; intros HP; [done| |].
  - inversion HP; subst. constructor; auto.
  - inversion HP; subst. auto.
Qed.

Lemma ascending_sublist (l k : list Record_) :
  l `sublist_of` k → ascending k → ascending l.
Proof.
  unfold ascending.
  induction 1 as [|x l k Hsub IH|x l k Hsub IH]; intros Hk; [done| |].
  - inversion Hk; subst. constructor; [auto|].
    by eapply sublist_Forall_keep.
  - inversion Hk; subst. auto.
Qed.

Section ObserverLife.

Context {U : Type}.
Variable callback : StoredValue → U → JsError + U.

#[local] Abbreviation handler := (pollForChanges_onsuccess callback).

Lemma pass_consistent (dbName : string) (o : Observer) (f : Faults) (h : Host) :
  Forall numeric (changeLog_of h dbName) → consistent o →
  consistent (onNewRecord_pollForChanges callback dbName o f h).1.1.
Proof.
  intros Hnum Ho. rewrite onNewRecord_pass.
  destruct (open_fault f); [done|]. cbn zeta.
  unfold changeLog_of, records_of in Hnum.
  destruct (store_of h dbName "changeLog") as [os|]; [|done].
  cbn in Hnum.
  pose proof (poll_cursor_consistent callback (records os) o f
                (active (connect dbName (found h dbName) h) dbName
                   (objectStores (found h dbName)) 0) Hnum Ho) as Hc.
  destruct (cursor_events _ _ _ _ _) as [o' t2]. cbn [fst] in Hc.
  by destruct (tx_finish f t2) as [[[| |e]|] t3].
Qed.

Lemma pass_delivers (dbName : string) (o : Observer) (f : Faults) (h : Host) :
  ∃ d, calls (onNewRecord_pollForChanges callback dbName o f h).1.1 = calls o ++ d
       ∧ d `sublist_of` changeLog_of h dbName.
Proof.
  rewrite onNewRecord_pass.
  destruct (open_fault f).
  { exists []. rewrite app_nil_r. split; [done|apply sublist_nil_l]. }
  cbn zeta. unfold changeLog_of, records_of.
  destruct (store_of h dbName "changeLog") as [os|].
  2:{ exists []. rewrite app_nil_r. split; [done|apply sublist_nil_l]. }
  cbn [from_option].
  destruct (poll_cursor_delivers callback (records os) o f
              (active (connect dbName (found h dbName) h) dbName
                 (objectStores (found h dbName)) 0)) as (d & Hd & Hsub).
  exists d. split; [|done].
  destruct (cursor_events _ _ _ _ _) as [o' t2]. cbn [fst] in Hd.
  by destruct (tx_finish f t2) as [[[| |e]|] t3].
Qed.

Lemma pass_effect (dbName : string) (o : Observer) (f : Faults) (h : Host) :
  ∃ d, calls (onNewRecord_pollForChanges callback dbName o f h).1.1 = calls o ++ d
       ∧ d `sublist_of` changeLog_of h dbName
       ∧ user (onNewRecord_pollForChanges callback dbName o f h).1.1
         = effect callback d (user o).
Proof.
  rewrite onNewRecord_pass.
  destruct (open_fault f).
  { exists []. rewrite app_nil_r. split; [done|]. split; [apply sublist_nil_l|done]. }
  cbn zeta. unfold changeLog_of, records_of.
  destruct (store_of h dbName "changeLog") as [os|].
  2:{ exists []. rewrite app_nil_r. split; [done|]. split; [apply sublist_nil_l|done]. }
  cbn [from_option].
  destruct (poll_cursor_effect callback (records os) o f
              (active (connect dbName (found h dbName) h) dbName
                 (objectStores (found h dbName)) 0)) as (d & Hd & Hsub & Hu).
  exists d.
  destruct (cursor_events _ _ _ _ _) as [o' t2]. cbn [fst] in Hd, Hu.
  by destruct (tx_finish f t2) as [[[| |e]|] t3].
Qed.

Lemma polling_consistent (dbName : string) (world : list (Faults * Host))
    (o : Observer) :
  Forall (λ e, log_ok e.2 dbName) world → consistent o →
  consistent (polling (onNewRecord_pollForChanges callback dbName) world o).
Proof.
  intros Hworld. revert o.
  induction Hworld as [|[f h] world Hok _ IH]; intros o Ho; cbn [polling]; [done|].
  pose proof (pass_consistent dbName o f h (log_ok_numeric _ _ Hok) Ho) as Hc.
  destruct (onNewRecord_pollForChanges callback dbName o f h) as [[o' s] h'].
  cbn [fst] in Hc. destruct s; [by apply IH|done].
Qed.

(** A callback that throws on no value. *)
Definition never_throws : Prop := ∀ v u, ∃ u', callback v u = inr u'.

Lemma Set_has_add_other (s : list IDBValidKey) (k k' : IDBValidKey) :
  k ≠ k' → Set_has s k' = false → Set_has (Set_add s k) k' = false.
Proof.
  intros Hne Hno. unfold Set_add. destruct (Set_has s k); [done|].
  unfold Set_has in *. destruct k'; try done;
    rewrite existsb_app, Hno; cbn [existsb orb];
    rewrite key_eqb_ne by congruence; done.
Qed.

(** With no failure and a callback that does not throw, a cursor over
    records whose keys are distinct and not yet seen delivers them all. *)
Lemma poll_cursor_all (rs : list Record_) (o : Observer) (f : Faults)
    h name stores n :
  no_request_fault f → never_throws →
  NoDup (map fst rs) →
  Forall (λ r, Set_has (seenChanges o) r.1 = false) rs →
  ∃ o' n',
    cursor_events handler rs o f (active h name stores n)
      = (o', active h name stores n')
    ∧ calls o' = calls o ++ rs.
Proof.
  intros Hf Hcb. revert o n.
  induction rs as [|[k v] rs IH]; intros o n Hnd Hnew; cbn [cursor_events].
  - rewrite tx_request_active, Hf. cbn. rewrite app_nil_r. eauto.
  - rewrite tx_request_active, Hf. cbn [negb]. rewrite handler_step.
    inversion Hnew as [|? ? Hk Hrest]; subst. cbn [fst] in Hk. rewrite Hk.
    destruct (Hcb v (user o)) as [u ->].
    cbn [map fst] in Hnd. apply NoDup_cons in Hnd as [Hnot Hnd].
    match goal with
    | |- context [cursor_events _ _ ?o1 _ _] =>
        destruct (IH o1 (S n) Hnd) as (o' & n' & -> & Hcalls)
    end.
    { cbn [seenChanges]. apply Forall_forall. intros r Hr.
      apply Set_has_add_other.
      - intros ->. apply Hnot. apply list_elem_of_In.
        apply (in_map fst). by apply list_elem_of_In.
      - by eapply (proj1 (Forall_forall _ _) Hrest). }
    exists o', n'. split; [done|]. rewrite Hcalls. cbn [calls].
    by rewrite <- app_assoc.
Qed.

End ObserverLife.

Lemma ascending_NoDup (rs : list Record_) : ascending rs → NoDup (map fst rs).
Proof.
  unfold ascending. induction 1 as [|a rs _ IH Ha]; cbn; [constructor|].
  apply NoDup_cons. split; [|exact IH].
  intros Hin. apply list_elem_of_In, in_map_iff in Hin as (r & Hk & Hr).
  apply (proj1 (List.Forall_forall _ _) Ha) in Hr.
  unfold key_lt in Hr. rewrite Hk, key_compare_refl in Hr. discriminate.
Qed.

Lemma Set_has_empty (k : IDBValidKey) : Set_has [] k = false.
Proof. by destruct k. Qed.

Section ExactlyOnce.

Context {U : Type}.
Variable callback : StoredValue → U → JsError + U.

Lemma polling_extends (dbName : string) (world : list (Faults * Host))
    (o : Observer) :
  ∃ more,
    calls (polling (onNewRecord_pollForChanges callback dbName) world o)
    = calls o ++ more.
Proof.
  revert o. induction world as [|[f h] world IH]; intros o; cbn [polling].
  - exists []. by rewrite app_nil_r.
  - destruct (pass_delivers callback dbName o f h) as (d & Hd & _).
    destruct (onNewRecord_pollForChanges callback dbName o f h) as [[o' s] h'].
    cbn [fst] in Hd. destruct s.
    + destruct (IH o') as (more & ->). exists (d ++ more).
      by rewrite Hd, app_assoc.
    + by exists d.
Qed.

(** Over its life, an observer only adds to the calls it has made, and
    the caller's state is what these calls made of it. *)
Lemma polling_effect (dbName : string) (world : list (Faults * Host))
    (o : Observer) :
  ∃ more,
    calls (polling (onNewRecord_pollForChanges callback dbName) world o)
    = calls o ++ more
    ∧ user (polling (onNewRecord_pollForChanges callback dbName) world o)
      = effect callback more (user o).
Proof.
  revert o. induction world as [|[f h] world IH]; intros o; cbn [polling].
  - exists []. by rewrite app_nil_r.
  - destruct (pass_effect callback dbName o f h) as (d & Hd & _ & Hu).
    destruct (onNewRecord_pollForChanges callback dbName o f h) as [[o' s] h'].
    cbn [fst] in Hd, Hu. destruct s.
    + destruct (IH o') as (more & -> & ->). exists (d ++ more).
      by rewrite Hd, Hu, app_assoc, effect_app.
    + by exists d.
Qed.

(** The first pass on a database whose log is sound, when nothing
    fails: every entry of the log is delivered, in the order of the log,
    and the next pass is scheduled. *)
Lemma first_pass_all (dbName : string) (u : U) (f : Faults) (h : Host) :
  log_ok h dbName → is_Some (store_of h dbName "changeLog") →
  never_throws callback → open_fault f = false → tx_fault f = None →
  let first := onNewRecord_pollForChanges callback dbName (new_observer u) f h in
  calls first.1.1 = changeLog_of h dbName ∧ first.1.2 = true.
Proof.
  intros Hok [os Hos] Hcb Hopen Htx. cbn zeta.
  rewrite onNewRecord_pass, Hopen. cbn zeta. rewrite Hos.
  assert (records os = changeLog_of h dbName) as Hrecs.
  { unfold changeLog_of, records_of. by rewrite Hos. }
  assert (no_request_fault f) as Hf.
  { intros k. unfold hits. by rewrite Htx. }
  destruct (poll_cursor_all callback (records os) (new_observer u) f
              (connect dbName (found h dbName) h) dbName
              (objectStores (found h dbName)) 0 Hf Hcb)
    as (o' & n' & -> & Hcalls).
  { rewrite Hrecs. by apply ascending_NoDup, log_ok_ascending. }
  { apply Forall_forall. intros r _. apply Set_has_empty. }
  rewrite tx_finish_active.
  assert (commits f = true) as -> by (unfold commits; by rewrite Htx).
  cbn [fst snd]. by rewrite Hcalls, Hrecs.
Qed.

(** C2, as the code has it.  Exactly-once, ordered delivery, on databases
    whose change log is the log [openDb] provisions.  The two notifiers
    run the same observer: [onNewRecordWithLog] calls the callback on
    the same entries as [onNewRecord], leaves the caller's state the same
    and schedules the same passes.  (1) Over the whole life of an
    observer, whatever fails and whatever the callback does, the caller's
    state is what the calls of the callback made of it, one after the
    other, and, on databases whose log is sound, no entry id is
    delivered twice.  (2) One pass calls the callback on a selection of
    the log's entries, in the order of the log, which is the increasing
    order of the ids when the store holds its records in key order.
    (3) After writes that all resolved, the first pass of an observer,
    when nothing fails and the callback does not throw, calls the
    callback on the entries the log had and then on one entry per write,
    in the order of the writes, under increasing ids, and schedules the
    next pass; the later passes run on from there, and none of them
    delivers any of these entries again. *)
Theorem notifier_once_in_order (dbName : string) :
  (∀ u world,
      onNewRecordWithLog callback dbName u world = onNewRecord callback dbName u world
      ∧ user (onNewRecord callback dbName u world)
        = effect callback (calls (onNewRecord callback dbName u world)) u
      ∧ (Forall (λ e, log_ok e.2 dbName) world →
         NoDup (map fst (calls (onNewRecord callback dbName u world)))))
  ∧ (∀ o f h,
        (onNewRecordWithLog_pollForChanges callback dbName o f h).1
        = (onNewRecord_pollForChanges callback dbName o f h).1
        ∧ ∃ d,
            calls (onNewRecord_pollForChanges callback dbName o f h).1.1
              = calls o ++ d
            ∧ user (onNewRecord_pollForChanges callback dbName o f h).1.1
              = effect callback d (user o)
            ∧ d `sublist_of` changeLog_of h dbName
            ∧ (ascending (changeLog_of h dbName) → ascending d))
  ∧ (∀ u h0 ws h f later,
        log_ok h0 dbName → ws ≠ [] → writes dbName ws h0 = Some h →
        never_throws callback → open_fault f = false → tx_fault f = None →
        Forall (λ e, log_ok e.2 dbName) later →
        let delivered :=
          changeLog_of h0 dbName ++ entries_from (next_id h0 dbName) (map fst ws) in
        let first :=
          onNewRecord_pollForChanges callback dbName (new_observer u) f h in
        let life := onNewRecord callback dbName u ((f, h) :: later) in
        calls first.1.1 = delivered
        ∧ user first.1.1 = effect callback delivered u
        ∧ first.1.2 = true
        ∧ ascending delivered
        ∧ life = polling (onNewRecord_pollForChanges callback dbName) later first.1.1
        ∧ (∃ more, calls life = delivered ++ more
                   ∧ user life = effect callback more (user first.1.1))
        ∧ NoDup (map fst (calls life))
        ∧ (onNewRecordWithLog_pollForChanges callback dbName (new_observer u) f h).1
          = first.1
        ∧ onNewRecordWithLog callback dbName u ((f, h) :: later) = life).
Proof.
  assert (∀ u world,
            Forall (λ e, log_ok e.2 dbName) world →
            NoDup (map fst (calls (onNewRecord callback dbName u world)))) as Honce.
  { intros u world Hworld.
    apply (polling_consistent callback dbName world _ Hworld (consistent_new u)). }
  split; [|split].
  - intros u world. split; [apply notifiers_agree|]. split; [|apply Honce].
    unfold onNewRecord.
    destruct (polling_effect dbName world (new_observer u)) as (more & -> & ->).
    reflexivity.
  - intros o f h. split; [apply passes_agree|].
    destruct (pass_effect callback dbName o f h) as (d & Hd & Hsub & Hu).
    exists d. split; [done|]. split; [done|]. split; [done|].
    by apply ascending_sublist.
  - intros u h0 ws h f later Hok0 Hne Hws Hcb Hopen Htx Hlater. cbn zeta.
    destruct (writes_log dbName ws h0 h Hok0 Hws) as (Hlog & Hok & Hsome).
    destruct (first_pass_all dbName u f h Hok (Hsome Hne) Hcb Hopen Htx)
      as (Hcalls & Hsched).
    rewrite <- Hlog.
    destruct (pass_effect callback dbName (new_observer u) f h)
      as (d & Hd & _ & Hu).
    cbn [calls new_observer app user] in Hd, Hu. rewrite Hcalls in Hd. subst d.
    split; [done|]. split; [done|]. split; [done|].
    split; [by apply log_ok_ascending|].
    assert (onNewRecord callback dbName u ((f, h) :: later)
            = polling (onNewRecord_pollForChanges callback dbName) later
                (onNewRecord_pollForChanges callback dbName (new_observer u) f h).1.1)
      as Hlife.
    { unfold onNewRecord. cbn [polling].
      destruct (onNewRecord_pollForChanges callback dbName (new_observer u) f h)
        as [[o1 s] h1]. cbn [fst snd] in *. by subst s. }
    split; [exact Hlife|].
    split; [|split; [apply Honce; by constructor|]].
    + rewrite Hlife, <- Hcalls. apply polling_effect.
    + split; [apply passes_agree|apply notifiers_agree].
Qed.

End ExactlyOnce.

(** ** When a pass fails *)

Lemma tx_request_host (f : Faults) (t : Task) :
  task_host (tx_request f t).2 = task_host t.
Proof.
  unfold tx_request. destruct (task_tx t) as [tr|]; [|done].
  destruct (live_status tr); [|done..]. by destruct (hits f _).
Qed.

Lemma handler_threw_signals (e : JsError) (t : Task) :
  signals (task_host (handler_threw e t)) = signals (task_host t).
Proof.
  unfold handler_threw. cbn.
  destruct (task_tx t) as [tr|]; [|done]. by destruct (live_status tr).
Qed.

Lemma tx_finish_signals (f : Faults) (t : Task) :
  signals (task_host (tx_finish f t).2)
  = signals (task_host t) ++ from_option (λ sig, [sig]) [] (tx_finish f t).1.
Proof.
  unfold tx_finish. destruct (task_tx t) as [tr|]; cbn; [|by rewrite app_nil_r].
  by destruct (tx_outcome f tr).
Qed.

Section PassFailure.

Context {U : Type}.
Variable callback : StoredValue → U → JsError + U.

Lemma poll_cursor_signals (rs : list Record_) (o : Observer) (f : Faults) (t : Task) :
  signals (task_host (cursor_events (pollForChanges_onsuccess callback) rs o f t).2)
  = signals (task_host t).
Proof.
  revert o t. induction rs as [|[k v] rs IH]; intros o t; cbn [cursor_events];
    pose proof (tx_request_host f t) as Hreq;
    destruct (tx_request f t) as [[] t1]; cbn [negb snd] in *;
    try by rewrite Hreq.
  - by rewrite <- Hreq.
  - rewrite handler_step. destruct (Set_has (seenChanges o) k).
    { rewrite IH. by rewrite Hreq. }
    destruct (callback v (user o)) as [e|u]; cbn [snd].
    + rewrite handler_threw_signals. by rewrite Hreq.
    + rewrite IH. by rewrite Hreq.
Qed.

(** The next pass is scheduled exactly when the transaction of this
    pass completes. *)
Lemma scheduled_iff_completed (dbName : string) (o : Observer) (f : Faults) (h : Host) :
  let pass := onNewRecord_pollForChanges callback dbName o f h in
  pass.1.2 = true ↔ completed h pass.2.
Proof.
  cbn zeta. rewrite onNewRecord_pass. unfold completed.
  destruct (open_fault f).
  { cbn. split; [done|]. intros Hs. apply (f_equal length) in Hs.
    rewrite length_app in Hs. cbn in Hs. lia. }
  cbn zeta.
  destruct (store_of h dbName "changeLog") as [os|].
  2:{ cbn. split; [done|]. intros Hs. apply (f_equal length) in Hs.
      rewrite length_app in Hs. cbn in Hs. lia. }
  pose proof (poll_cursor_signals (records os) o f
                (active (connect dbName (found h dbName) h) dbName
                   (objectStores (found h dbName)) 0)) as Hcur.
  destruct (cursor_events _ _ _ _ _) as [o' t2]. cbn [snd] in Hcur.
  pose proof (tx_finish_signals f t2) as Hfin. rewrite Hcur in Hfin.
  cbn [active task_host connect signals] in Hfin.
  destruct (tx_finish f t2) as [[[| |e]|] t3]; cbn [fst snd from_option] in *;
    rewrite Hfin; split; try done.
  - intros Hs. by apply app_inj_tail in Hs as [_ ?].
  - intros Hs. by apply app_inj_tail in Hs as [_ ?].
  - rewrite app_nil_r. intros Hs. apply (f_equal length) in Hs.
    rewrite length_app in Hs. cbn in Hs. lia.
Qed.

Lemma passes_signal_alike (dbName : string) (o : Observer) (f : Faults) (h : Host) :
  signals (onNewRecordWithLog_pollForChanges callback dbName o f h).2
  = signals (onNewRecord_pollForChanges callback dbName o f h).2.
Proof.
  rewrite onNewRecordWithLog_pass, onNewRecord_pass.
  destruct (open_fault f); [done|]. cbn zeta.
  destruct (store_of h dbName "changeLog"); [|done].
  destruct (cursor_events _ _ _ _ _) as [o' t2].
  by destruct (tx_finish f t2) as [[[| |e]|] t3].
Qed.

(** C8, as the code has it.  A pass schedules the next one from the
    transaction's [complete] event and from nowhere else.  When the open
    fails, [onNewRecord] does nothing at all and [onNewRecordWithLog]
    prints the error; when the [changeLog] store is missing the
    exception of [db.transaction] reaches nobody; in both notifiers the
    next pass is scheduled if and only if the pass's transaction
    completed; and an observer whose pass did not schedule the next one
    never runs again. *)
Theorem failed_pass_ends_polling (dbName : string) (o : Observer)
    (f : Faults) (h : Host) :
  let pass := onNewRecord_pollForChanges callback dbName o f h in
  let passWithLog := onNewRecordWithLog_pollForChanges callback dbName o f h in
  (open_fault f = true →
     pass = (o, false, h)
     ∧ passWithLog
       = (o, false, console_error "Error opening database:" (Some UnknownError) h))
  ∧ (open_fault f = false → store_of h dbName "changeLog" = None →
     pass.1 = (o, false) ∧ passWithLog.1 = (o, false)
     ∧ uncaught pass.2 = uncaught h ++ [NotFoundError]
     ∧ console passWithLog.2 = console h)
  ∧ (pass.1.2 = true ↔ completed h pass.2)
  ∧ (passWithLog.1.2 = true ↔ completed h passWithLog.2)
  ∧ (∀ later,
       pass.1.2 = false →
       polling (onNewRecord_pollForChanges callback dbName) ((f, h) :: later) o
         = pass.1.1
       ∧ polling (onNewRecordWithLog_pollForChanges callback dbName)
           ((f, h) :: later) o
         = pass.1.1).
Proof.
  cbn zeta. split; [|split; [|split; [|split]]].
  - intros Hopen. by rewrite onNewRecord_pass, onNewRecordWithLog_pass, Hopen.
  - intros Hopen Hnone.
    rewrite onNewRecord_pass, onNewRecordWithLog_pass, Hopen. cbn zeta.
    by rewrite Hnone.
  - apply scheduled_iff_completed.
  - rewrite passes_agree. unfold completed. rewrite passes_signal_alike.
    apply scheduled_iff_completed.
  - intros later Hstop. cbn [polling].
    pose proof (passes_agree callback dbName o f h) as Hsame.
    destruct (onNewRecordWithLog_pollForChanges callback dbName o f h) as [[o1 s1] h1].
    destruct (onNewRecord_pollForChanges callback dbName o f h) as [[o2 s2] h2].
    cbn [fst snd] in *. injection Hsame as -> ->. by subst s2.
Qed.

End PassFailure.

(** ** Who creates a store *)

Lemma current_absent (h : Host) (dbName : string) :
  databases h !! dbName = None → current h dbName = no_database.
Proof. unfold current. by intros ->. Qed.

(** [openDb] on a database that does not exist creates it with the
    caller's store and [changeLog]. *)
Lemma new_database_provisioned (h : Host) (dbName storeName : string) :
  databases h !! dbName = None →
  let d := upgraded 1 (openDb_onupgradeneeded storeName) (current h dbName) in
  is_Some (objectStores d !! storeName) ∧ is_Some (objectStores d !! "changeLog").
Proof.
  intros Hnone. cbn zeta. rewrite (current_absent _ _ Hnone).
  unfold upgraded. cbn [db_version no_database]. change (0 <? 1)%N with true.
  cbn iota. rewrite !onupgradeneeded_lookup. cbn [objectStores no_database].
  rewrite !lookup_empty. rewrite decide_True by done.
  split; [by eexists|]. case_decide; [by eexists|].
  rewrite decide_True by done. by eexists.
Qed.

(** An existing database is opened as it is: no store is created. *)
Lemma existing_database_as_is (h : Host) (dbName storeName s : string) :
  (1 ≤ db_version (current h dbName))%N →
  objectStores (upgraded 1 (openDb_onupgradeneeded storeName) (current h dbName)) !! s
  = store_of h dbName s.
Proof.
  intros Hv. unfold upgraded.
  destruct (db_version (current h dbName) <? 1)%N eqn:Hlt.
  - apply N.ltb_lt in Hlt. lia.
  - apply store_of_current.
Qed.

Lemma forallb_contains_false_2 (d : Database) (a b : string) :
  is_Some (objectStores d !! a) → is_Some (objectStores d !! b) →
  forallb (contains d) [a; b] = false → False.
Proof.
  intros [x Hx] [y Hy]. cbn.
  by rewrite (contains_true d a x), (contains_true d b y).
Qed.

Lemma is_Some_insert (m : gmap string IDBObjectStore) (i j : string) (x : IDBObjectStore) :
  is_Some (m !! j) → is_Some (<[i := x]> m !! j).
Proof. intros Hj. rewrite lookup_insert. case_decide; [by eexists|done]. Qed.

Definition is_rejected {A : Type} (p : Promise A) : Prop := ∃ e, p = Rejected e.

(** What [writeJson], [readJson] and [deleteKey] do about the stores. *)
Lemma openDb_callers_provision (dbName storeName : string) (key : IDBValidKey)
    (value : JsonValue) (f : Faults) (h : Host) (h' : Host) :
  h' = (writeJson dbName storeName key value f h).2
  ∨ h' = (readJson dbName storeName key f h).2
  ∨ h' = (deleteKey dbName storeName key f h).2 →
  databases h !! dbName = None → open_fault f = false →
  is_Some (store_of h' dbName storeName) ∧ is_Some (store_of h' dbName "changeLog").
Proof.
  intros Hh' Hnone Hopen.
  destruct (new_database_provisioned h dbName storeName Hnone) as [Hs Hc].
  set (d := upgraded 1 (openDb_onupgradeneeded storeName) (current h dbName)) in *.
  assert (¬ (open_fault f = true ∨ (1 < db_version (current h dbName))%N)) as Hnot.
  { rewrite (current_absent _ _ Hnone). cbn. intros [?|?]; [congruence|lia]. }
  assert (∀ sig, is_Some (store_of (signal sig (connect dbName d h)) dbName storeName)
                 ∧ is_Some (store_of (signal sig (connect dbName d h)) dbName "changeLog"))
    as Hrolled.
  { intros sig. by rewrite !store_of_signal, !store_of_connect. }
  destruct Hh' as [-> | [-> | ->]].
  - destruct (writeJson_cases dbName storeName key value f h)
      as [[Hbad _] | [[Hbad _] | [(e & sig & _ & ->) | [(e & stores & n & _ & Hkeep & ->)
          | (os & oc & _ & _ & _ & _ & _ & _ & _ & _ & ->)]]]]; cbn [snd].
    + done.
    + exfalso. exact (forallb_contains_false_2 d storeName "changeLog" Hs Hc Hbad).
    + apply Hrolled.
    + rewrite !store_of_signal, !store_of_commit. split; by apply Hkeep.
    + rewrite !store_of_db_close, !store_of_signal, !store_of_commit.
      split; by repeat apply is_Some_insert.
  - destruct (readJson_cases dbName storeName key f h)
      as [[Hbad _] | [[Hbad _] | [(_ & e & sig & _ & ->) | (os & _ & ->)]]]; cbn [snd].
    + done.
    + fold d in Hbad. rewrite Hbad in Hs. by destruct Hs.
    + apply Hrolled.
    + by rewrite !store_of_db_close, !store_of_signal, !store_of_commit.
  - destruct (deleteKey_cases dbName storeName key f h)
      as [[Hbad _] | [[Hbad _] | [(_ & e & sig & _ & ->) | (os & _ & ->)]]]; cbn [snd].
    + done.
    + fold d in Hbad. rewrite Hbad in Hs. by destruct Hs.
    + apply Hrolled.
    + rewrite !store_of_db_close, !store_of_signal, !store_of_commit.
      split; by repeat apply is_Some_insert.
Qed.

Lemma openDb_callers_existing (dbName storeName : string) (key : IDBValidKey)
    (value : JsonValue) (f : Faults) (h : Host) :
  (1 ≤ db_version (current h dbName))%N →
  store_of h dbName storeName = None →
  let w := writeJson dbName storeName key value f h in
  let r := readJson dbName storeName key f h in
  let d := deleteKey dbName storeName key f h in
  (is_rejected w.1 ∧ store_of w.2 dbName storeName = None)
  ∧ (is_rejected r.1 ∧ store_of r.2 dbName storeName = None)
  ∧ (is_rejected d.1 ∧ store_of d.2 dbName storeName = None).
Proof.
  intros Hv Hnone. cbn zeta.
  pose proof (existing_database_as_is h dbName storeName storeName Hv) as Hsame.
  rewrite Hnone in Hsame.
  assert (∀ sig,
            store_of
              (signal sig
                 (connect dbName
                    (upgraded 1 (openDb_onupgradeneeded storeName) (current h dbName)) h))
              dbName storeName = None) as Hrolled.
  { intros sig. by rewrite store_of_signal, store_of_connect. }
  unfold is_rejected. split; [|split].
  - destruct (writeJson_cases dbName storeName key value f h)
      as [[_ [e ->]] | [[_ ->] | [(e & sig & _ & ->) | [(e & stores & n & Hbad & _ & ->)
          | (os & oc & _ & Hbad & _)]]]]; cbn [fst snd].
    + eauto.
    + split; [eauto|]. by rewrite store_of_connect.
    + split; [eauto|]. apply Hrolled.
    + rewrite Hsame in Hbad. by destruct Hbad.
    + congruence.
  - destruct (readJson_cases dbName storeName key f h)
      as [[_ [e ->]] | [[_ ->] | [(_ & e & sig & _ & ->) | (os & Hbad & _)]]];
      cbn [fst snd].
    + eauto.
    + split; [eauto|]. by rewrite store_of_connect.
    + split; [eauto|]. apply Hrolled.
    + congruence.
  - destruct (deleteKey_cases dbName storeName key f h)
      as [[_ [e ->]] | [[_ ->] | [(_ & e & sig & _ & ->) | (os & Hbad & _)]]];
      cbn [fst snd].
    + eauto.
    + split; [eauto|]. by rewrite store_of_connect.
    + split; [eauto|]. apply Hrolled.
    + congruence.
Qed.

(** How a scan ends on a store that does not exist. *)
Lemma scans_without_store (dbName storeName : string) (filterFn : FilterFn)
    (f : Faults) (h : Host) :
  store_of h dbName storeName = None →
  readMultipleRecords dbName storeName filterFn f h
  = (if open_fault f
     then (Rejected UnknownError,
           console_error "Error opening database:" (Some UnknownError) h)
     else (Pending, report_uncaught NotFoundError (connect dbName (found h dbName) h)))
  ∧ deleteMultipleRecords dbName storeName filterFn f h
    = (if open_fault f
       then (Rejected UnknownError,
             console_error "Error opening database:" (Some UnknownError) h)
       else (Pending, report_uncaught NotFoundError (connect dbName (found h dbName) h))).
Proof.
  intros Hnone.
  assert (forallb (contains (found h dbName)) [storeName] = false) as Hscope.
  { destruct (forallb _ _) eqn:Hs; [|done].
    apply forallb_contains_1 in Hs as (os & Hos).
    rewrite found_lookup in Hos. congruence. }
  unfold readMultipleRecords, deleteMultipleRecords. rewrite plain_open_cases.
  destruct (open_fault f); [done|].
  change {| task_host := connect dbName (found h dbName) h; task_tx := None |}
    with (idle (connect dbName (found h dbName) h)).
  by rewrite !db_transaction_connected, Hscope.
Qed.

(** The database [indexedDB.open(name)] creates when there is none. *)
Lemma found_absent (h : Host) (dbName : string) :
  databases h !! dbName = None →
  found h dbName = {| db_version := 1; objectStores := ∅ |}.
Proof. intros Hnone. unfold found. by rewrite (current_absent _ _ Hnone). Qed.

Lemma store_of_report_uncaught e h name s :
  store_of (report_uncaught e h) name s = store_of h name s.
Proof. reflexivity. Qed.

Section Provisioning.

Context {U : Type}.
Variable callback : StoredValue → U → JsError + U.

(** C10, as the code has it.  (1) [writeJson], [readJson] and
    [deleteKey], whose open succeeds on a database that does not exist,
    leave it with the caller's store and [changeLog].  (2) On a database
    that exists they create nothing: a missing store makes them reject.
    (3) [readMultipleRecords] and [deleteMultipleRecords] never create
    the store and never resolve without it: when the open succeeds their
    promise is left pending, the [NotFoundError] of [db.transaction]
    reaching nobody, and a database that did not exist now exists,
    empty, at version 1.  (4) A notifier's pass without [changeLog]
    delivers nothing, schedules nothing and creates nothing. *)
Theorem stores_are_created_by_openDb_only (dbName storeName : string)
    (key : IDBValidKey) (value : JsonValue) (filterFn : FilterFn)
    (o : Observer) (f : Faults) (h : Host) :
  let w := writeJson dbName storeName key value f h in
  let r := readJson dbName storeName key f h in
  let d := deleteKey dbName storeName key f h in
  let rm := readMultipleRecords dbName storeName filterFn f h in
  let dm := deleteMultipleRecords dbName storeName filterFn f h in
  let pass := onNewRecord_pollForChanges callback dbName o f h in
  let passWithLog := onNewRecordWithLog_pollForChanges callback dbName o f h in
  (databases h !! dbName = None → open_fault f = false →
     ∀ h', h' = w.2 ∨ h' = r.2 ∨ h' = d.2 →
           is_Some (store_of h' dbName storeName)
           ∧ is_Some (store_of h' dbName "changeLog"))
  ∧ ((1 ≤ db_version (current h dbName))%N →
     store_of h dbName storeName = None →
     (is_rejected w.1 ∧ store_of w.2 dbName storeName = None)
     ∧ (is_rejected r.1 ∧ store_of r.2 dbName storeName = None)
     ∧ (is_rejected d.1 ∧ store_of d.2 dbName storeName = None))
  ∧ (store_of h dbName storeName = None →
     (∀ l, rm.1 ≠ Resolved l) ∧ dm.1 ≠ Resolved tt
     ∧ store_of rm.2 dbName storeName = None
     ∧ store_of dm.2 dbName storeName = None
     ∧ (open_fault f = false →
        rm.1 = Pending ∧ dm.1 = Pending
        ∧ uncaught rm.2 = uncaught h ++ [NotFoundError]
        ∧ uncaught dm.2 = uncaught h ++ [NotFoundError]
        ∧ console rm.2 = console h ∧ console dm.2 = console h
        ∧ (databases h !! dbName = None →
           databases rm.2 !! dbName = Some {| db_version := 1; objectStores := ∅ |}
           ∧ databases dm.2 !! dbName
             = Some {| db_version := 1; objectStores := ∅ |})))
  ∧ (store_of h dbName "changeLog" = None →
     pass.1 = (o, false) ∧ passWithLog.1 = (o, false)
     ∧ store_of pass.2 dbName "changeLog" = None
     ∧ store_of passWithLog.2 dbName "changeLog" = None).
Proof.
  cbn zeta. split; [|split; [|split]].
  - intros Hnone Hopen h' Hh'.
    by eapply (openDb_callers_provision dbName storeName key value f h h').
  - apply openDb_callers_existing.
  - intros Hnone.
    destruct (scans_without_store dbName storeName filterFn f h Hnone) as [-> ->].
    destruct (open_fault f); cbn [fst snd].
    + repeat split; try done.
    + repeat split; try done;
        rewrite ?store_of_report_uncaught, ?store_of_connect, ?found_lookup;
        try done; cbn; rewrite lookup_insert_eq; by rewrite found_absent.
  - intros Hnone. rewrite onNewRecord_pass, onNewRecordWithLog_pass.
    destruct (open_fault f); cbn zeta; rewrite ?Hnone; cbn [fst snd].
    + done.
    + repeat split;
        by rewrite store_of_report_uncaught, store_of_connect, found_lookup.
Qed.

End Provisioning.

(** ** Connections *)

(** Connection ids are handed out in increasing order. *)
Definition handles_ok (h : Host) : Prop :=
  Forall (λ c, (conn_id c < nextConnection h)%nat) (connections h).

Lemma close_new_connection (h : Host) (name : string) (d : Database) (h2 : Host) :
  handles_ok h →
  connections h2 = connections (connect name d h) →
  connections (db_close (new_connection h name) h2) = connections h.
Proof.
  intros Hok Hc. unfold db_close. cbn [connections]. rewrite Hc.
  cbn [connect connections List.filter]. rewrite conn_eqb_refl. cbn [negb].
  induction Hok as [|c cs Hlt _ IH]; cbn [List.filter]; [done|].
  unfold conn_eqb at 1. cbn [new_connection conn_id].
  replace (Nat.eqb (nextConnection h) (conn_id c)) with false
    by (symmetry; apply Nat.eqb_neq; lia).
  cbn [andb negb]. f_equal. exact IH.
Qed.

Lemma tx_finish_connections (f : Faults) (t : Task) :
  connections (task_host (tx_finish f t).2) = connections (task_host t).
Proof.
  unfold tx_finish. destruct (task_tx t) as [tr|]; [|done].
  cbn. by destruct (tx_outcome f tr).
Qed.

Lemma handler_threw_connections (e : JsError) (t : Task) :
  connections (task_host (handler_threw e t)) = connections (task_host t).
Proof.
  unfold handler_threw. cbn.
  destruct (task_tx t) as [tr|]; [|done]. by destruct (live_status tr).
Qed.

Lemma live_update_host name os t : task_host (live_update name os t) = task_host t.
Proof. unfold live_update. by destruct (task_tx t). Qed.

Lemma os_delete_host tx s k f t : task_host (os_delete tx s k f t).2 = task_host t.
Proof.
  unfold os_delete. destruct (tx_objectStore tx s t); [done|].
  destruct (tx_mode tx); [done|].
  pose proof (tx_request_host f t) as Hr.
  destruct (tx_request f t) as [[] t1]; cbn [snd] in *; [|done].
  by rewrite live_update_host.
Qed.

(** A cursor leaves the connections alone when its handler does. *)
Lemma cursor_events_connections {S : Type} (handler : Handler S)
    (rs : list Record_) (s : S) (f : Faults) (t : Task) :
  (∀ c s f t, connections (task_host (handler c s f t).2) = connections (task_host t)) →
  connections (task_host (cursor_events handler rs s f t).2) = connections (task_host t).
Proof.
  intros Hh. revert s t. induction rs as [|r rs IH]; intros s t; cbn [cursor_events];
    pose proof (tx_request_host f t) as Hreq;
    destruct (tx_request f t) as [[] t1]; cbn [negb snd] in *;
    try by rewrite Hreq.
  - pose proof (Hh None s f t1) as Hstep.
    destruct (handler None s f t1) as [[s' c|s' e] t2]; cbn [snd] in *.
    + by rewrite Hstep, Hreq.
    + by rewrite handler_threw_connections, Hstep, Hreq.
  - pose proof (Hh (Some r) s f t1) as Hstep.
    destruct (handler (Some r) s f t1) as [[s' [] |s' e] t2]; cbn [snd] in *.
    + by rewrite IH, Hstep, Hreq.
    + by rewrite Hstep, Hreq.
    + by rewrite handler_threw_connections, Hstep, Hreq.
Qed.

Lemma read_handler_connections (filterFn : FilterFn) c s f t :
  connections (task_host (readMultipleRecords_onsuccess filterFn c s f t).2)
  = connections (task_host t).
Proof.
  unfold readMultipleRecords_onsuccess. destruct c as [[k v]|]; [|done].
  by destruct (filterFn v) as [e|[]].
Qed.

Lemma delete_handler_connections tx storeName (filterFn : FilterFn) c p f t :
  connections (task_host (deleteMultipleRecords_onsuccess tx storeName filterFn c p f t).2)
  = connections (task_host t).
Proof.
  unfold deleteMultipleRecords_onsuccess. destruct c as [[k v]|]; [|done].
  destruct (filterFn v) as [e|[]]; [done| |done].
  pose proof (os_delete_host tx storeName k f t) as Hd.
  destruct (os_delete tx storeName k f t) as [[e|[]] t1]; cbn [snd] in *; by rewrite Hd.
Qed.

Lemma poll_handler_connections {U : Type} (callback : StoredValue → U → JsError + U)
    c o f t :
  connections (task_host (pollForChanges_onsuccess callback c o f t).2)
  = connections (task_host t).
Proof.
  unfold pollForChanges_onsuccess. destruct c as [[k v]|]; [|done].
  destruct (negb (Set_has (seenChanges o) k)); [|done].
  by destruct (callback v (user o)).
Qed.

Lemma openCursor_connections {S : Type} tx name (handler : Handler S) s f t :
  (∀ c s f t, connections (task_host (handler c s f t).2) = connections (task_host t)) →
  connections (task_host (openCursor tx name handler s f t).2) = connections (task_host t).
Proof.
  intros Hh. unfold openCursor. destruct (tx_objectStore tx name t); cbn [snd].
  - apply handler_threw_connections.
  - by apply cursor_events_connections.
Qed.

Lemma db_transaction_host db scope mode t :
  task_host (db_transaction db scope mode t).2 = task_host t.
Proof.
  unfold db_transaction. destruct (negb _); [done|]. by destruct (forallb _ _).
Qed.

Section Handles.

Context {U : Type}.
Variable callback : StoredValue → U → JsError + U.

Lemma scans_keep_connection (dbName storeName : string) (filterFn : FilterFn)
    (f : Faults) (h : Host) :
  open_fault f = false →
  connections (readMultipleRecords dbName storeName filterFn f h).2
    = new_connection h dbName :: connections h
  ∧ connections (deleteMultipleRecords dbName storeName filterFn f h).2
    = new_connection h dbName :: connections h.
Proof.
  intros Hopen. unfold readMultipleRecords, deleteMultipleRecords.
  rewrite plain_open_cases, Hopen.
  set (t0 := {| task_host := connect dbName (found h dbName) h; task_tx := None |}).
  split.
  - pose proof (db_transaction_host (new_connection h dbName) [storeName] readonly t0)
      as Htx.
    destruct (db_transaction _ _ _ t0) as [[e|tx] t1]; cbn [snd] in *.
    { cbn. by rewrite Htx. }
    pose proof (openCursor_connections tx storeName
                  (readMultipleRecords_onsuccess filterFn)
                  {| scan_records := []; scan_promise := Pending |} f t1
                  (read_handler_connections filterFn)) as Hcur.
    destruct (openCursor _ _ _ _ _ _) as [s t2]. cbn [snd] in Hcur.
    pose proof (tx_finish_connections f t2) as Hfin.
    destruct (tx_finish f t2) as [[[| |e]|] t3];
      cbn [snd connections console_error] in *;
      by rewrite Hfin, Hcur, Htx.
  - pose proof (db_transaction_host (new_connection h dbName) [storeName] readwrite t0)
      as Htx.
    destruct (db_transaction _ _ _ t0) as [[e|tx] t1]; cbn [snd] in *.
    { cbn. by rewrite Htx. }
    pose proof (openCursor_connections tx storeName
                  (deleteMultipleRecords_onsuccess tx storeName filterFn)
                  Pending f t1
                  (delete_handler_connections tx storeName filterFn)) as Hcur.
    destruct (openCursor _ _ _ _ _ _) as [s t2]. cbn [snd] in Hcur.
    rewrite deleteMultipleRecords_onerror_events.
    pose proof (tx_finish_connections f t2) as Hfin.
    destruct (tx_finish f t2) as [[[| |e]|] t3];
      cbn [snd connections console_error] in *;
      rewrite ?(proj1 (proj2 (printed_rest _ _)));
      by rewrite Hfin, Hcur, Htx.
Qed.

Lemma passes_keep_connection (dbName : string) (o : Observer) (f : Faults) (h : Host) :
  open_fault f = false →
  connections (onNewRecord_pollForChanges callback dbName o f h).2
    = new_connection h dbName :: connections h
  ∧ connections (onNewRecordWithLog_pollForChanges callback dbName o f h).2
    = new_connection h dbName :: connections h.
Proof.
  intros Hopen. rewrite onNewRecord_pass, onNewRecordWithLog_pass, Hopen. cbn zeta.
  destruct (store_of h dbName "changeLog") as [os|]; [|done].
  pose proof (cursor_events_connections (pollForChanges_onsuccess callback)
                (records os) o f
                (active (connect dbName (found h dbName) h) dbName
                   (objectStores (found h dbName)) 0)
                (poll_handler_connections callback)) as Hcur.
  destruct (cursor_events _ _ _ _ _) as [o' t2]. cbn [snd] in Hcur.
  pose proof (tx_finish_connections f t2) as Hfin.
  destruct (tx_finish f t2) as [[[| |e]|] t3];
    cbn [snd connections console_error] in *;
    by rewrite Hfin, Hcur.
Qed.

(** C9, as the code has it.  Every operation opens a connection of its
    own.  [writeJson], [readJson] and [deleteKey] close it when they
    resolve, and only then: rejected after the open, they leave it open.
    [readMultipleRecords], [deleteMultipleRecords] and the passes of both
    notifiers never close theirs. *)
Theorem connection_closed_on_success_only (dbName storeName : string)
    (key : IDBValidKey) (value : JsonValue) (filterFn : FilterFn)
    (o : Observer) (f : Faults) (h : Host) :
  open_fault f = false → (db_version (current h dbName) ≤ 1)%N →
  let w := writeJson dbName storeName key value f h in
  let r := readJson dbName storeName key f h in
  let d := deleteKey dbName storeName key f h in
  let rm := readMultipleRecords dbName storeName filterFn f h in
  let dm := deleteMultipleRecords dbName storeName filterFn f h in
  let pass := onNewRecord_pollForChanges callback dbName o f h in
  let passWithLog := onNewRecordWithLog_pollForChanges callback dbName o f h in
  let left_open := new_connection h dbName :: connections h in
  (connections rm.2 = left_open ∧ connections dm.2 = left_open
   ∧ connections pass.2 = left_open ∧ connections passWithLog.2 = left_open)
  ∧ (is_rejected w.1 → connections w.2 = left_open)
  ∧ (is_rejected r.1 → connections r.2 = left_open)
  ∧ (is_rejected d.1 → connections d.2 = left_open)
  ∧ (handles_ok h →
     (w.1 = Resolved tt → connections w.2 = connections h)
     ∧ (∀ v, r.1 = Resolved v → connections r.2 = connections h)
     ∧ (d.1 = Resolved tt → connections d.2 = connections h)).
Proof.
  intros Hopen Hver. cbn zeta.
  assert (¬ (open_fault f = true ∨ (1 < db_version (current h dbName))%N)) as Hnot.
  { intros [?|?]; [congruence|lia]. }
  split; [|split; [|split; [|split]]].
  - destruct (scans_keep_connection dbName storeName filterFn f h Hopen) as [-> ->].
    by destruct (passes_keep_connection dbName o f h Hopen) as [-> ->].
  - intros [e He].
    destruct (writeJson_cases dbName storeName key value f h)
      as [[Hbad _] | [[_ Hr] | [(e' & sig & _ & Hr) | [(e' & stores & n & _ & _ & Hr)
          | (os & oc & _ & _ & _ & _ & _ & _ & _ & _ & Hr)]]]];
      [done|rewrite Hr in *; try done..].
  - intros [e He].
    destruct (readJson_cases dbName storeName key f h)
      as [[Hbad _] | [[_ Hr] | [(_ & e' & sig & _ & Hr) | (os & _ & Hr)]]];
      [done|rewrite Hr in *; try done..].
  - intros [e He].
    destruct (deleteKey_cases dbName storeName key f h)
      as [[Hbad _] | [[_ Hr] | [(_ & e' & sig & _ & Hr) | (os & _ & Hr)]]];
      [done|rewrite Hr in *; try done..].
  - intros Hok. split; [|split].
    + intros Hres.
      destruct (writeJson_cases dbName storeName key value f h)
        as [[Hbad _] | [[_ Hr] | [(e' & sig & _ & Hr) | [(e' & stores & n & _ & _ & Hr)
            | (os & oc & _ & _ & _ & _ & _ & _ & _ & _ & Hr)]]]];
        [done|rewrite Hr in *; try done..].
      cbn [snd]. by apply (close_new_connection h dbName no_database).
    + intros v Hres.
      destruct (readJson_cases dbName storeName key f h)
        as [[Hbad _] | [[_ Hr] | [(_ & e' & sig & _ & Hr) | (os & _ & Hr)]]];
        [done|rewrite Hr in *; try done..].
      cbn [snd]. by apply (close_new_connection h dbName no_database).
    + intros Hres.
      destruct (deleteKey_cases dbName storeName key f h)
        as [[Hbad _] | [[_ Hr] | [(_ & e' & sig & _ & Hr) | (os & _ & Hr)]]];
        [done|rewrite Hr in *; try done..].
      cbn [snd]. by apply (close_new_connection h dbName no_database).
Qed.

End Handles.

(** * The scenarios of the test suite *)

Module Scenario.

Definition ada : JsonValue := JObject [("name", JString "Ada"); ("age", JNumber 37)].

Definition person (i : Z) (name : string) : JsonValue :=
  JObject [("id", JNumber i); ("name", JString name)].

Definition alice : JsonValue := person 1 "Alice".
Definition bob : JsonValue := person 2 "Bob".
Definition charlie : JsonValue := person 3 "Charlie".

(** [record.id] *)
Definition id_of (v : StoredValue) : option Z :=
  match v with
  | Plain (JObject (("id", JNumber i) :: _)) => Some i
  | _ => None
  end.

(** [(record) => record && record.id > 1] *)
Definition id_above_1 : FilterFn :=
  λ v, inr (match id_of v with Some i => 1 <? i | None => false end).

(** [(record) => record && record.id <= 2] *)
Definition id_up_to_2 : FilterFn :=
  λ v, inr (match id_of v with Some i => i <=? 2 | None => false end).

(** [() => true] *)
Definition always : FilterFn := λ _, inr true.

(** A predicate that throws on Bob's record. *)
Definition throws_on_2 : FilterFn :=
  λ v, match id_of v with
       | Some 2 => inl (UserError "boom")
       | _ => inr true
       end.

(** [(record) => notifications.push(record)] *)
Definition push : StoredValue → list StoredValue → JsError + list StoredValue :=
  λ record notifications, inr (notifications ++ [record]).

Definition open_fails : Faults := {| open_fault := true; tx_fault := None |}.
Definition commit_fails : Faults := {| open_fault := false; tx_fault := Some CommitError |}.

(** [writeJson('mydb', 'kv', 'user:1', { name: 'Ada', age: 37 })] *)
Definition mydb : Host :=
  (writeJson "mydb" "kv" (KString "user:1") ada no_faults empty_host).2.

Definition three_writes : list (Write * Faults) :=
  [(("teststore", KString "key1", alice), no_faults);
   (("teststore", KString "key2", bob), no_faults);
   (("teststore", KString "key3", charlie), no_faults)].

(** The three writes of the bulk tests, on an engine with no database. *)
Definition testdb : Host :=
  default empty_host (writes "testdb" three_writes empty_host).

Example test_writes_and_reads_json :
  (readJson "mydb" "kv" (KString "user:1") no_faults mydb).1
  = Resolved (Some (Plain ada)).
Proof. vm_compute. reflexivity. Qed.

Example test_deletes_key :
  let h := (deleteKey "mydb" "kv" (KString "user:1") no_faults mydb).2 in
  (readJson "mydb" "kv" (KString "user:1") no_faults h).1 = Resolved None.
Proof. vm_compute. reflexivity. Qed.

Example test_reads_multiple_records :
  (readMultipleRecords "testdb" "teststore" id_above_1 no_faults testdb).1
  = Resolved [Plain bob; Plain charlie].
Proof. vm_compute. reflexivity. Qed.

Example test_deletes_multiple_records :
  let h := (deleteMultipleRecords "testdb" "teststore" id_up_to_2 no_faults testdb).2 in
  (readMultipleRecords "testdb" "teststore" always no_faults h).1
  = Resolved [Plain charlie].
Proof. vm_compute. reflexivity. Qed.

(** The notifier test, which the suite skips, starts the observer before
    the first write.  On an engine with no database the observer's open
    creates the database empty, and [writeJson] then finds version 1
    without its stores. *)
Example observer_before_the_first_write :
  let '(o, scheduled, h) :=
    onNewRecord_pollForChanges push "testdb" (new_observer []) no_faults empty_host in
  scheduled = false
  ∧ (writeJson "testdb" "teststore" (KString "key1") alice no_faults h).1
    = Rejected NotFoundError.
Proof. vm_compute. split; reflexivity. Qed.

(** A [deleteMultipleRecords] whose commit fails has resolved all the
    same, and deleted nothing. *)
Example resolved_before_the_commit :
  let r := deleteMultipleRecords "testdb" "teststore" id_up_to_2 commit_fails testdb in
  r.1 = Resolved tt
  ∧ records_of r.2 "testdb" "teststore" = records_of testdb "testdb" "teststore".
Proof. vm_compute. split; reflexivity. Qed.

End Scenario.

(** * The theorems at work on the scenarios *)

Lemma mydb_log_ok : log_ok Scenario.mydb "mydb".
Proof.
  intros os Hos. vm_compute in Hos. injection Hos as <-.
  repeat split.
  - constructor; [|constructor]. exists 1. split; [reflexivity|cbn; lia].
  - repeat constructor.
Qed.

Lemma empty_host_log_ok (dbName : string) : log_ok empty_host dbName.
Proof. intros os Hos. discriminate. Qed.

Lemma testdb_written :
  writes "testdb" Scenario.three_writes empty_host = Some Scenario.testdb.
Proof. vm_compute. reflexivity. Qed.

Lemma testdb_log_ok : log_ok Scenario.testdb "testdb".
Proof.
  destruct (writes_log "testdb" Scenario.three_writes empty_host Scenario.testdb
              (empty_host_log_ok "testdb") testdb_written) as (_ & Hok & _).
  exact Hok.
Qed.

Lemma testdb_records :
  records_of Scenario.testdb "testdb" "teststore"
  = [(KString "key1", Plain Scenario.alice);
     (KString "key2", Plain Scenario.bob);
     (KString "key3", Plain Scenario.charlie)].
Proof. vm_compute. reflexivity. Qed.

Lemma push_never_throws : never_throws Scenario.push.
Proof. intros v u. eexists. reflexivity. Qed.

(** C1 at work: a second write into [mydb]. *)
Lemma writeJson_dual_write_witness :
  let h := Scenario.mydb in
  let h' := (writeJson "mydb" "kv" (KString "user:2") Scenario.ada no_faults h).2 in
  log_ok h "mydb"
  ∧ writeJson "mydb" "kv" (KString "user:2") Scenario.ada no_faults h = (Resolved tt, h')
  ∧ changeLog_of h' "mydb"
    = changeLog_of h "mydb"
        ++ [(KNumber 2,
             Entry {| entry_id := Some 2; entry_store := "kv";
                      entry_key := KString "user:2"; entry_value := Scenario.ada |})]
  ∧ next_id h' "mydb" = 3.
Proof.
  cbn zeta.
  assert (writeJson "mydb" "kv" (KString "user:2") Scenario.ada no_faults Scenario.mydb
          = (Resolved tt,
             (writeJson "mydb" "kv" (KString "user:2") Scenario.ada no_faults
                Scenario.mydb).2)) as Hrun by (vm_compute; reflexivity).
  split; [exact mydb_log_ok|]. split; [exact Hrun|].
  destruct (writeJson_dual_write "mydb" "kv" (KString "user:2") Scenario.ada no_faults
              Scenario.mydb _ _ mydb_log_ok Hrun) as [Hlog _].
  destruct (Hlog eq_refl) as (Happ & _ & Hnext).
  split; [exact Happ|exact Hnext].
Defined.

(** C3 at work: the suite's first test, read back what was written. *)
Lemma write_then_read_witness :
  writeJson "mydb" "kv" (KString "user:1") Scenario.ada no_faults empty_host
  = (Resolved tt, Scenario.mydb)
  ∧ (readJson "mydb" "kv" (KString "user:1") no_faults Scenario.mydb).1
    = Resolved (Some (Plain Scenario.ada)).
Proof.
  assert (writeJson "mydb" "kv" (KString "user:1") Scenario.ada no_faults empty_host
          = (Resolved tt, Scenario.mydb)) as Hrun by (vm_compute; reflexivity).
  split; [exact Hrun|].
  exact (proj1 (write_then_read "mydb" "kv" (KString "user:1") Scenario.ada no_faults
                  empty_host Scenario.mydb Hrun)).
Defined.

Lemma testdb_teststore : is_Some (store_of Scenario.testdb "testdb" "teststore").
Proof. vm_compute. by eexists. Qed.

Lemma total_on_inr (filterFn : FilterFn) (rs : list Record_) :
  (∀ v, ∃ b, filterFn v = inr b) → total_on filterFn rs.
Proof. intros Hall. apply Forall_forall. intros r _. apply Hall. Qed.

(** C4 at work: the records of [teststore] whose id is above 1. *)
Lemma readMultipleRecords_filter_witness :
  open_fault no_faults = false
  ∧ no_request_fault no_faults
  ∧ is_Some (store_of Scenario.testdb "testdb" "teststore")
  ∧ total_on Scenario.id_above_1 (records_of Scenario.testdb "testdb" "teststore")
  ∧ (readMultipleRecords "testdb" "teststore" Scenario.id_above_1 no_faults
       Scenario.testdb).1
    = Resolved (List.filter (matching Scenario.id_above_1)
                  (map snd (records_of Scenario.testdb "testdb" "teststore"))).
Proof.
  assert (total_on Scenario.id_above_1 (records_of Scenario.testdb "testdb" "teststore"))
    as Htotal by (apply total_on_inr; intros v; eexists; reflexivity).
  split; [reflexivity|]. split; [exact no_faults_no_request_fault|].
  split; [exact testdb_teststore|]. split; [exact Htotal|].
  exact (proj2 (readMultipleRecords_filter "testdb" "teststore" Scenario.id_above_1
                  no_faults Scenario.testdb)
           eq_refl no_faults_no_request_fault testdb_teststore Htotal).
Defined.

Lemma testdb_keys : NoDup (map fst (records_of Scenario.testdb "testdb" "teststore")).
Proof.
  rewrite testdb_records. cbn [map fst].
  repeat (apply NoDup_cons; split; [by (intros Hin; repeat (apply elem_of_cons in Hin as [Hin|Hin]; [discriminate|]); inversion Hin)|]).
  apply NoDup_nil. done.
Qed.

(** C5 at work: the suite's deletion of the records whose id is at most 2. *)
Lemma deleteMultipleRecords_removes_witness :
  let r := deleteMultipleRecords "testdb" "teststore" Scenario.id_up_to_2 no_faults
             Scenario.testdb in
  NoDup (map fst (records_of Scenario.testdb "testdb" "teststore"))
  ∧ is_Some (store_of Scenario.testdb "testdb" "teststore")
  ∧ total_on Scenario.id_up_to_2 (records_of Scenario.testdb "testdb" "teststore")
  ∧ r.1 = Resolved tt
  ∧ completed Scenario.testdb r.2
  ∧ records_of r.2 "testdb" "teststore"
    = List.filter (λ rec, negb (matching Scenario.id_up_to_2 rec.2))
        (records_of Scenario.testdb "testdb" "teststore").
Proof.
  cbn zeta.
  assert (total_on Scenario.id_up_to_2 (records_of Scenario.testdb "testdb" "teststore"))
    as Htotal by (apply total_on_inr; intros v; eexists; reflexivity).
  destruct (deleteMultipleRecords_removes "testdb" "teststore" Scenario.id_up_to_2
              no_faults Scenario.testdb testdb_keys) as (Hsound & Hruns & _).
  destruct (Hruns eq_refl eq_refl testdb_teststore Htotal) as [Hres Hdone].
  split; [exact testdb_keys|]. split; [exact testdb_teststore|].
  split; [exact Htotal|]. split; [exact Hres|]. split; [exact Hdone|].
  exact (proj1 (Hsound Hres Hdone)).
Defined.

(** Where the specification's wording fails: the promise is resolved when
    the cursor is exhausted, before the transaction commits.  When the
    commit then fails the call has resolved, and the record of Alice,
    which the predicate accepts, is still there. *)
Lemma resolved_without_deleting_counterexample :
  let r := deleteMultipleRecords "testdb" "teststore" Scenario.id_up_to_2
             Scenario.commit_fails Scenario.testdb in
  matching Scenario.id_up_to_2 (Plain Scenario.alice) = true
  ∧ r.1 = Resolved tt
  ∧ records_get (KString "key1") (records_of r.2 "testdb" "teststore")
    = Some (Plain Scenario.alice)
  ∧ records_of r.2 "testdb" "teststore"
    = records_of Scenario.testdb "testdb" "teststore".
Proof. vm_compute. repeat split; reflexivity. Qed.

(** C6 at work: the suite's deletion of [user:1] from [kv]. *)
Lemma deleteKey_frame_witness :
  let r := deleteKey "mydb" "kv" (KString "user:1") no_faults Scenario.mydb in
  r.1 = Resolved tt
  ∧ "kv" ≠ "changeLog"
  ∧ records_of r.2 "mydb" "kv"
    = records_delete (KString "user:1") (records_of Scenario.mydb "mydb" "kv")
  ∧ records_get (KString "user:1") (records_of r.2 "mydb" "kv") = None
  ∧ changeLog_of r.2 "mydb" = changeLog_of Scenario.mydb "mydb"
  ∧ next_id r.2 "mydb" = next_id Scenario.mydb "mydb".
Proof.
  cbn zeta.
  assert ((deleteKey "mydb" "kv" (KString "user:1") no_faults Scenario.mydb).1
          = Resolved tt) as Hres by (vm_compute; reflexivity).
  assert ("kv" ≠ "changeLog") as Hne by discriminate.
  destruct (deleteKey_frame "mydb" "kv" (KString "user:1") no_faults Scenario.mydb
              _ _ (surjective_pairing _)) as (Hdel & _ & _ & Hlog).
  destruct (Hdel Hres) as [Hrecords Hgone].
  destruct (Hlog Hne) as [Hsame Hnext].
  split; [exact Hres|]. split; [exact Hne|]. split; [exact Hrecords|].
  split; [exact Hgone|]. split; [exact Hsame|exact Hnext].
Defined.

(** Without the restriction on the store: [deleteKey] on the [changeLog]
    store itself resolves and removes the entry from the log. *)
Lemma deleteKey_changeLog_counterexample :
  let r := deleteKey "mydb" "changeLog" (KNumber 1) no_faults Scenario.mydb in
  r.1 = Resolved tt
  ∧ changeLog_of Scenario.mydb "mydb"
    = [(KNumber 1,
        Entry {| entry_id := Some 1; entry_store := "kv";
                 entry_key := KString "user:1"; entry_value := Scenario.ada |})]
  ∧ changeLog_of r.2 "mydb" = [].
Proof. vm_compute. repeat split; reflexivity. Qed.

Lemma throws_on_alice : total_on Scenario.throws_on_2 [(KString "key1", Plain Scenario.alice)].
Proof. constructor; [|constructor]. eexists. reflexivity. Qed.

(** C7 at work: a predicate that throws on the second of the three
    records of [teststore]. *)
Lemma predicate_throw_leaves_pending_witness :
  let r := readMultipleRecords "testdb" "teststore" Scenario.throws_on_2 no_faults
             Scenario.testdb in
  let d := deleteMultipleRecords "testdb" "teststore" Scenario.throws_on_2 no_faults
             Scenario.testdb in
  records_of Scenario.testdb "testdb" "teststore"
  = [(KString "key1", Plain Scenario.alice)]
      ++ (KString "key2", Plain Scenario.bob)
      :: [(KString "key3", Plain Scenario.charlie)]
  ∧ Scenario.throws_on_2 (Plain Scenario.bob) = inl (UserError "boom")
  ∧ r.1 = Pending
  ∧ uncaught r.2 = uncaught Scenario.testdb ++ [UserError "boom"]
  ∧ d.1 = Pending
  ∧ uncaught d.2 = uncaught Scenario.testdb ++ [UserError "boom"]
  ∧ records_of d.2 "testdb" "teststore" = records_of Scenario.testdb "testdb" "teststore".
Proof.
  cbn zeta.
  destruct (predicate_throw_leaves_pending "testdb" "teststore" Scenario.throws_on_2
              no_faults Scenario.testdb
              [(KString "key1", Plain Scenario.alice)]
              [(KString "key3", Plain Scenario.charlie)]
              (KString "key2") (Plain Scenario.bob) (UserError "boom")
              eq_refl no_faults_no_request_fault testdb_records throws_on_alice eq_refl)
    as [(Hr & Hru & _ & _) (Hd & Hdu & _ & _ & Hframe)].
  split; [exact testdb_records|]. split; [reflexivity|].
  split; [exact Hr|]. split; [exact Hru|]. split; [exact Hd|]. split; [exact Hdu|].
  exact (Hframe "testdb" "teststore").
Defined.

(** Where the specification's wording fails: the predicate throws and
    neither promise is rejected; both stay pending for ever. *)
Lemma predicate_throw_counterexample :
  Scenario.throws_on_2 (Plain Scenario.bob) = inl (UserError "boom")
  ∧ (readMultipleRecords "testdb" "teststore" Scenario.throws_on_2 no_faults
       Scenario.testdb).1 = Pending
  ∧ (deleteMultipleRecords "testdb" "teststore" Scenario.throws_on_2 no_faults
       Scenario.testdb).1 = Pending.
Proof. vm_compute. repeat split; reflexivity. Qed.

(** A fourth write, made after the observer's first pass. *)
Definition testdb_later : Host :=
  (writeJson "testdb" "teststore" (KString "key4") Scenario.ada no_faults
     Scenario.testdb).2.

Lemma testdb_later_log_ok : log_ok testdb_later "testdb".
Proof.
  assert (writes "testdb" [(("teststore", KString "key4", Scenario.ada), no_faults)]
            Scenario.testdb = Some testdb_later) as Hw by (vm_compute; reflexivity).
  by destruct (writes_log _ _ _ _ testdb_log_ok Hw) as (_ & Hok & _).
Qed.

(** C2 at work: the observer of the suite's notifier test, started after
    the three writes.  Its second pass finds the log as it was, its third
    pass finds the entry of a fourth write: over its life the callback
    has been called once on each of the four entries. *)
Lemma notifier_once_in_order_witness :
  let later := [(no_faults, Scenario.testdb); (no_faults, testdb_later)] in
  let first :=
    onNewRecord_pollForChanges Scenario.push "testdb" (new_observer []) no_faults
      Scenario.testdb in
  let life :=
    onNewRecord Scenario.push "testdb" [] ((no_faults, Scenario.testdb) :: later) in
  let delivered :=
    changeLog_of empty_host "testdb"
      ++ entries_from (next_id empty_host "testdb") (map fst Scenario.three_writes) in
  log_ok empty_host "testdb"
  ∧ writes "testdb" Scenario.three_writes empty_host = Some Scenario.testdb
  ∧ never_throws Scenario.push
  ∧ Forall (λ e, log_ok e.2 "testdb") later
  ∧ calls first.1.1 = delivered
  ∧ user first.1.1 = effect Scenario.push delivered []
  ∧ first.1.2 = true
  ∧ ascending delivered
  ∧ NoDup (map fst (calls life))
  ∧ onNewRecordWithLog Scenario.push "testdb" []
      ((no_faults, Scenario.testdb) :: later) = life
  ∧ calls life = changeLog_of testdb_later "testdb"
  ∧ user life = map snd (changeLog_of testdb_later "testdb").
Proof.
  cbn zeta.
  assert (Scenario.three_writes ≠ []) as Hws by discriminate.
  assert (Forall (λ e : Faults * Host, log_ok e.2 "testdb")
            [(no_faults, Scenario.testdb); (no_faults, testdb_later)]) as Hlater.
  { constructor; [exact testdb_log_ok|]. constructor; [exact testdb_later_log_ok|].
    constructor. }
  destruct (notifier_once_in_order Scenario.push "testdb") as (_ & _ & Hfirst).
  destruct (Hfirst [] empty_host Scenario.three_writes Scenario.testdb no_faults
              [(no_faults, Scenario.testdb); (no_faults, testdb_later)]
              (empty_host_log_ok "testdb") Hws testdb_written push_never_throws
              eq_refl eq_refl Hlater)
    as (Hcalls & Huser & Hnext & Hasc & _ & _ & Honce & _ & Hsame).
  split; [exact (empty_host_log_ok "testdb")|]. split; [exact testdb_written|].
  split; [exact push_never_throws|]. split; [exact Hlater|].
  split; [exact Hcalls|]. split; [exact Huser|]. split; [exact Hnext|].
  split; [exact Hasc|]. split; [exact Honce|]. split; [exact Hsame|].
  split; vm_compute; reflexivity.
Defined.

(** [writeJson('mydb', 'changeLog', [1], { name: 'Ada', age: 37 })] on an
    engine with no database.  The caller names its own store
    [changeLog]: [openDb] creates it without key path or key generator,
    and it holds the record under the key the caller gave. *)
Definition own_changeLog : Host :=
  (writeJson "mydb" "changeLog" (KArray [KNumber 1]) Scenario.ada no_faults
     empty_host).2.

(** Where the specification's wording fails: an array key is a new object
    each time the cursor hands it out, [seenChanges] never finds it, and
    each pass of either notifier calls the callback on the record
    again. *)
Lemma array_key_counterexample :
  let first :=
    onNewRecord_pollForChanges Scenario.push "mydb" (new_observer []) no_faults
      own_changeLog in
  let world := [(no_faults, own_changeLog); (no_faults, first.2)] in
  changeLog_of own_changeLog "mydb" = [(KArray [KNumber 1], Plain Scenario.ada)]
  ∧ changeLog_of first.2 "mydb" = [(KArray [KNumber 1], Plain Scenario.ada)]
  ∧ first.1.2 = true
  ∧ calls (onNewRecord Scenario.push "mydb" [] world)
    = [(KArray [KNumber 1], Plain Scenario.ada);
       (KArray [KNumber 1], Plain Scenario.ada)]
  ∧ user (onNewRecord Scenario.push "mydb" [] world)
    = [Plain Scenario.ada; Plain Scenario.ada]
  ∧ user (onNewRecordWithLog Scenario.push "mydb" [] world)
    = [Plain Scenario.ada; Plain Scenario.ada].
Proof. vm_compute. repeat split; reflexivity. Qed.

(** C8 at work: a pass whose open fails, followed by a world in which
    nothing fails. *)
Lemma failed_pass_ends_polling_witness :
  let o : @Observer (list StoredValue) := new_observer [] in
  let world := [(Scenario.open_fails, Scenario.testdb); (no_faults, Scenario.testdb)] in
  open_fault Scenario.open_fails = true
  ∧ onNewRecord_pollForChanges Scenario.push "testdb" o Scenario.open_fails
      Scenario.testdb
    = (o, false, Scenario.testdb)
  ∧ polling (onNewRecord_pollForChanges Scenario.push "testdb") world o = o
  ∧ polling (onNewRecordWithLog_pollForChanges Scenario.push "testdb") world o = o.
Proof.
  cbn zeta.
  destruct (failed_pass_ends_polling Scenario.push "testdb" (new_observer [])
              Scenario.open_fails Scenario.testdb) as (Hopen & _ & _ & _ & Hstop).
  destruct (Hopen eq_refl) as [Hpass _].
  cbn zeta in Hstop. rewrite Hpass in Hstop. cbn [fst snd] in Hstop.
  destruct (Hstop [(no_faults, Scenario.testdb)] eq_refl) as [Hlife HlifeWithLog].
  split; [reflexivity|]. split; [exact Hpass|].
  split; [exact Hlife|exact HlifeWithLog].
Defined.

(** Where the specification's wording fails: after a pass whose open
    fails nothing is printed by [onNewRecord], no next pass is scheduled
    by either notifier, and the three entries of the log are never
    delivered though the engine has recovered. *)
Lemma failed_open_counterexample :
  let o : @Observer (list StoredValue) := new_observer [] in
  let world := [(Scenario.open_fails, Scenario.testdb); (no_faults, Scenario.testdb)] in
  let pass :=
    onNewRecord_pollForChanges Scenario.push "testdb" o Scenario.open_fails
      Scenario.testdb in
  let passWithLog :=
    onNewRecordWithLog_pollForChanges Scenario.push "testdb" o Scenario.open_fails
      Scenario.testdb in
  length (changeLog_of Scenario.testdb "testdb") = 3%nat
  ∧ pass.1.2 = false
  ∧ console pass.2 = console Scenario.testdb
  ∧ passWithLog.1.2 = false
  ∧ calls (onNewRecord Scenario.push "testdb" [] world) = []
  ∧ calls (onNewRecordWithLog Scenario.push "testdb" [] world) = [].
Proof. vm_compute. repeat split; reflexivity. Qed.

Lemma testdb_handles_ok : handles_ok Scenario.testdb.
Proof. vm_compute. constructor. Qed.

(** C9 at work: after the three writes, a scan leaves its connection
    open and a fourth write closes its own. *)
Lemma connection_closed_on_success_only_witness :
  let rm := readMultipleRecords "testdb" "teststore" Scenario.always no_faults
              Scenario.testdb in
  let w := writeJson "testdb" "teststore" (KString "key1") Scenario.alice no_faults
             Scenario.testdb in
  open_fault no_faults = false
  ∧ (db_version (current Scenario.testdb "testdb") ≤ 1)%N
  ∧ handles_ok Scenario.testdb
  ∧ rm.1 = Resolved [Plain Scenario.alice; Plain Scenario.bob; Plain Scenario.charlie]
  ∧ connections rm.2
    = new_connection Scenario.testdb "testdb" :: connections Scenario.testdb
  ∧ w.1 = Resolved tt
  ∧ connections w.2 = connections Scenario.testdb.
Proof.
  cbn zeta.
  assert ((db_version (current Scenario.testdb "testdb") ≤ 1)%N) as Hversion
    by (apply N.leb_le; vm_compute; reflexivity).
  assert ((writeJson "testdb" "teststore" (KString "key1") Scenario.alice no_faults
             Scenario.testdb).1 = Resolved tt) as Hw by (vm_compute; reflexivity).
  destruct (connection_closed_on_success_only Scenario.push "testdb" "teststore"
              (KString "key1") Scenario.alice Scenario.always (new_observer [])
              no_faults Scenario.testdb eq_refl Hversion)
    as ((Hrm & _) & _ & _ & _ & Hclosed).
  destruct (Hclosed testdb_handles_ok) as (Hwrite & _).
  split; [reflexivity|]. split; [exact Hversion|]. split; [exact testdb_handles_ok|].
  split; [vm_compute; reflexivity|]. split; [exact Hrm|].
  split; [exact Hw|exact (Hwrite Hw)].
Defined.

(** C10 at work: the first write on an engine with no database. *)
Lemma stores_are_created_by_openDb_only_witness :
  databases empty_host !! "mydb" = None
  ∧ open_fault no_faults = false
  ∧ is_Some (store_of Scenario.mydb "mydb" "kv")
  ∧ is_Some (store_of Scenario.mydb "mydb" "changeLog").
Proof.
  destruct (stores_are_created_by_openDb_only Scenario.push "mydb" "kv"
              (KString "user:1") Scenario.ada Scenario.always (new_observer [])
              no_faults empty_host) as (Hnew & _).
  destruct (Hnew eq_refl eq_refl Scenario.mydb (or_introl eq_refl)) as [Hstore Hlog].
  split; [reflexivity|]. split; [reflexivity|]. split; [exact Hstore|exact Hlog].
Defined.

(** Where the specification's wording fails: a scan of a store that does
    not exist does not fail, its promise is left pending; and a scan of
    a database that does not exist creates it, empty, after which
    [writeJson] can no longer provision its stores. *)
Lemma missing_store_counterexample :
  let rm := readMultipleRecords "testdb" "nostore" Scenario.always no_faults
              Scenario.testdb in
  let dm := deleteMultipleRecords "testdb" "nostore" Scenario.always no_faults
              Scenario.testdb in
  let fresh := readMultipleRecords "newdb" "kv" Scenario.always no_faults empty_host in
  store_of Scenario.testdb "testdb" "nostore" = None
  ∧ rm.1 = Pending ∧ uncaught rm.2 = [NotFoundError]
  ∧ dm.1 = Pending ∧ uncaught dm.2 = [NotFoundError]
  ∧ databases empty_host !! "newdb" = None
  ∧ fresh.1 = Pending
  ∧ databases fresh.2 !! "newdb" = Some {| db_version := 1; objectStores := ∅ |}
  ∧ (writeJson "newdb" "kv" (KString "user:1") Scenario.ada no_faults fresh.2).1
    = Rejected NotFoundError.
Proof. vm_compute. repeat split; reflexivity. Qed.

(** * Further properties of the library *)

(** ** The exact outcome of the three async functions *)

(** How a transaction that is still active ends once the function that
    started it has returned or thrown: it commits on its own, unless the
    commit fails. *)
Definition ended (f : Faults) (name : string) (stores : gmap string IDBObjectStore)
    (n : nat) (h : Host) : Host :=
  if commits f then signal TxComplete (commit (live name stores n) h)
  else signal (TxAbort UnknownError) h.

Definition opened (dbName storeName : string) (h : Host) : Database :=
  upgraded 1 (openDb_onupgradeneeded storeName) (current h dbName).

Lemma readJson_run (dbName storeName : string) (key : IDBValidKey)
    (f : Faults) (h : Host) :
  readJson dbName storeName key f h =
  if open_fault f then (Rejected UnknownError, h)
  else if (1 <? db_version (current h dbName))%N then (Rejected VersionError, h)
  else
    let d := opened dbName storeName h in
    let h1 := connect dbName d h in
    match objectStores d !! storeName with
    | None => (Rejected NotFoundError, h1)
    | Some os =>
        if hits f 0 then (Rejected UnknownError, signal (TxError UnknownError) h1)
        else if commits f
        then (Resolved (records_get key (records os)),
              db_close (new_connection h dbName)
                (signal TxComplete (commit (live dbName (objectStores d) 1) h1)))
        else (Rejected UnknownError, signal (TxAbort UnknownError) h1)
    end.
Proof.
  unfold opened. unfold readJson. unfold_async.
  cbn [task_host task_tx]. rewrite openDb_cases.
  destruct (open_fault f); [done|].
  destruct (1 <? db_version (current h dbName))%N eqn:Hv; [done|].
  cbn zeta. set (d := upgraded _ _ _).
  unfold set_host. cbn [task_tx task_host].
  change {| task_host := connect dbName d h; task_tx := None |}
    with (idle (connect dbName d h)).
  rewrite db_transaction_connected.
  destruct (objectStores d !! storeName) as [os|] eqn:Hos; cycle 1.
  { cbn [forallb]. by rewrite (contains_false d storeName Hos). }
  cbn [forallb]. rewrite (contains_true d storeName os Hos). cbn [andb].
  set (h1 := connect dbName d h).
  set (tx := {| tx_db := _; tx_scope := _; tx_mode := _ |}).
  assert (in_scope storeName tx) as Hin by (apply in_scope_here; cbn; auto).
  rewrite (os_get_active tx storeName key f h1 dbName _ 0 os) by done.
  destruct (hits f 0) eqn:Hhit.
  { by rewrite tx_finish_doomed. }
  rewrite tx_finish_active. by destruct (commits f).
Qed.

Lemma deleteKey_run (dbName storeName : string) (key : IDBValidKey)
    (f : Faults) (h : Host) :
  deleteKey dbName storeName key f h =
  if open_fault f then (Rejected UnknownError, h)
  else if (1 <? db_version (current h dbName))%N then (Rejected VersionError, h)
  else
    let d := opened dbName storeName h in
    let h1 := connect dbName d h in
    match objectStores d !! storeName with
    | None => (Rejected NotFoundError, h1)
    | Some os =>
        if hits f 0 then (Rejected (Error "Transaction error"), signal (TxError UnknownError) h1)
        else if commits f
        then (Resolved tt,
              db_close (new_connection h dbName)
                (signal TxComplete
                   (commit
                      (live dbName
                         (<[storeName := with_records (records_delete key (records os)) os]>
                            (objectStores d)) 1)
                      h1)))
        else (Rejected UnknownError, signal (TxAbort UnknownError) h1)
    end.
Proof.
  unfold opened. unfold deleteKey. unfold_async.
  cbn [task_host task_tx]. rewrite openDb_cases.
  destruct (open_fault f); [done|].
  destruct (1 <? db_version (current h dbName))%N eqn:Hv; [done|].
  cbn zeta. set (d := upgraded _ _ _).
  unfold set_host. cbn [task_tx task_host].
  change {| task_host := connect dbName d h; task_tx := None |}
    with (idle (connect dbName d h)).
  rewrite db_transaction_connected.
  destruct (objectStores d !! storeName) as [os|] eqn:Hos; cycle 1.
  { cbn [forallb]. by rewrite (contains_false d storeName Hos). }
  cbn [forallb]. rewrite (contains_true d storeName os Hos). cbn [andb].
  set (h1 := connect dbName d h).
  set (tx := {| tx_db := _; tx_scope := _; tx_mode := _ |}).
  assert (in_scope storeName tx) as Hin by (apply in_scope_here; cbn; auto).
  rewrite (os_delete_active tx storeName key f h1 dbName _ 0 os) by done.
  destruct (hits f 0) eqn:Hhit.
  { by rewrite tx_finish_doomed. }
  rewrite tx_finish_active. by destruct (commits f).
Qed.

Lemma os_add_doomed_result tx s e f h name stores err n k oc :
  in_scope s tx → tx_mode tx = readwrite →
  stores !! s = Some oc → entry_id e = None →
  os_add tx s e f (doomed h name stores err n k) =
  if autoIncrement oc then (inr tt, doomed h name stores err n (S k))
  else (inl DataError, doomed h name stores err n k).
Proof.
  intros Hin Hmode Hoc Hid. unfold os_add.
  rewrite tx_objectStore_doomed by done. rewrite Hoc, Hmode.
  assert ((p ← keyPath oc; key_at_path p e) = None) as ->.
  { destruct (keyPath oc) as [p|]; [|done]. cbn. by apply key_at_path_no_id. }
  destruct (autoIncrement oc); [|done].
  by rewrite tx_request_doomed.
Qed.

Lemma writeJson_run (dbName storeName : string) (key : IDBValidKey)
    (value : JsonValue) (f : Faults) (h : Host) :
  writeJson dbName storeName key value f h =
  if open_fault f then (Rejected UnknownError, h)
  else if (1 <? db_version (current h dbName))%N then (Rejected VersionError, h)
  else
    let d := opened dbName storeName h in
    let h1 := connect dbName d h in
    match objectStores d !! storeName, objectStores d !! "changeLog" with
    | Some os, Some oc0 =>
        match keyPath os with
        | Some _ => (Rejected DataError, ended f dbName (objectStores d) 0 h1)
        | None =>
            if hits f 0
            then (Rejected (if autoIncrement oc0 then Error "Transaction error" else DataError),
                  signal (TxError UnknownError) h1)
            else
              let os' := put_into key (Plain value) os in
              let stores := <[storeName := os']> (objectStores d) in
              let oc := if decide (storeName = "changeLog") then os' else oc0 in
              if negb (autoIncrement oc)
              then (Rejected DataError, ended f dbName stores 1 h1)
              else if hits f 1
              then (Rejected (Error "Transaction error"), signal (TxError UnknownError) h1)
              else if (MAX_GENERATED_KEY <? keyGenerator oc)
                      || bool_decide (is_Some (records_get (KNumber (keyGenerator oc))
                                                 (records oc)))
              then (Rejected (Error "Transaction error"), signal (TxError ConstraintError) h1)
              else if commits f
              then (Resolved tt,
                    db_close (new_connection h dbName)
                      (signal TxComplete
                         (commit
                            (live dbName
                               (<["changeLog" := added oc (log_entry storeName key value)]>
                                  stores) 2)
                            h1)))
              else (Rejected UnknownError, signal (TxAbort UnknownError) h1)
        end
    | _, _ => (Rejected NotFoundError, h1)
    end.
Proof.
  unfold opened, ended. unfold writeJson. unfold_async.
  cbn [task_host task_tx]. rewrite openDb_cases.
  destruct (open_fault f); [done|].
  destruct (1 <? db_version (current h dbName))%N eqn:Hv; [done|].
  cbn zeta. set (d := upgraded _ _ _).
  unfold set_host. cbn [task_tx task_host].
  change {| task_host := connect dbName d h; task_tx := None |}
    with (idle (connect dbName d h)).
  rewrite db_transaction_connected. cbn [forallb].
  destruct (objectStores d !! storeName) as [os|] eqn:Hos; cycle 1.
  { by rewrite (contains_false d storeName Hos). }
  rewrite (contains_true d storeName os Hos).
  destruct (objectStores d !! "changeLog") as [oc0|] eqn:Hoc0; cycle 1.
  { by rewrite (contains_false d "changeLog" Hoc0). }
  rewrite (contains_true d "changeLog" oc0 Hoc0). cbn [andb].
  set (h1 := connect dbName d h).
  set (tx := {| tx_db := _; tx_scope := _; tx_mode := _ |}).
  assert (in_scope storeName tx) as Hin1 by (apply in_scope_here; cbn; auto).
  assert (in_scope "changeLog" tx) as Hin2 by (apply in_scope_here; cbn; auto).
  rewrite (os_put_active tx storeName _ _ f h1 dbName _ 0 os) by done.
  destruct (keyPath os) eqn:Hkp.
  { rewrite tx_finish_active. by destruct (commits f). }
  destruct (hits f 0) eqn:Hhit0.
  { rewrite (os_add_doomed_result tx "changeLog" _ f h1 dbName _ _ 1 0 oc0) by done.
    destruct (autoIncrement oc0); by rewrite tx_finish_doomed. }
  fold (put_into key (Plain value) os).
  set (os' := put_into key (Plain value) os).
  set (S1 := <[storeName := os']> (objectStores d)).
  set (oc := if decide (storeName = "changeLog") then os' else oc0).
  assert (S1 !! "changeLog" = Some oc) as Hoc.
  { subst S1 oc. destruct (decide (storeName = "changeLog")) as [->|Hne].
    - by rewrite lookup_insert_eq.
    - by rewrite lookup_insert_ne. }
  rewrite (os_add_active tx "changeLog" _ f h1 dbName S1 1 oc) by done.
  destruct (autoIncrement oc) eqn:Hauto; cbn [negb]; cycle 1.
  { rewrite tx_finish_active. by destruct (commits f). }
  destruct (hits f 1) eqn:Hhit1.
  { by rewrite tx_finish_doomed. }
  destruct (MAX_GENERATED_KEY <? keyGenerator oc) eqn:Hmax; cbn [orb].
  { by rewrite tx_finish_doomed. }
  destruct (records_get _ (records oc)) eqn:Hget.
  { rewrite bool_decide_eq_true_2 by eauto. by rewrite tx_finish_doomed. }
  rewrite bool_decide_eq_false_2 by (by intros [? ?]).
  rewrite tx_finish_active. by destruct (commits f).
Qed.

(** ** What a resolved call leaves behind *)

Lemma opened_records (dbName storeName s : string) (h : Host) :
  from_option records [] (objectStores (opened dbName storeName h) !! s)
  = records_of h dbName s.
Proof. apply upgraded_records. Qed.

Lemma opened_store (dbName storeName s : string) (h : Host) :
  is_Some (store_of h dbName s) →
  objectStores (opened dbName storeName h) !! s = store_of h dbName s.
Proof.
  intros [os Hos].
  destruct (upgraded_lookup h dbName storeName s) as [Heq|[Hnone _]]; [exact Heq|].
  congruence.
Qed.

Lemma opened_own_store (dbName storeName : string) (h : Host) :
  databases h !! dbName = None ∨ is_Some (store_of h dbName storeName) →
  is_Some (objectStores (opened dbName storeName h) !! storeName).
Proof.
  intros [Hnew|Hhas].
  - by apply new_database_provisioned.
  - rewrite opened_store by done. exact Hhas.
Qed.

Lemma no_tx_fault_hits (f : Faults) (n : nat) : tx_fault f = None → hits f n = false.
Proof. intros Hf. unfold hits. by rewrite Hf. Qed.

Lemma no_tx_fault_commits (f : Faults) : tx_fault f = None → commits f = true.
Proof. intros Hf. unfold commits. by rewrite Hf. Qed.

Lemma version_check (h : Host) (dbName : string) :
  (db_version (current h dbName) ≤ 1)%N → (1 <? db_version (current h dbName))%N = false.
Proof. intros Hv. by apply N.ltb_ge. Qed.

Lemma readJson_resolved (dbName storeName : string) (key : IDBValidKey)
    (f : Faults) (h : Host) (v : option StoredValue) :
  (readJson dbName storeName key f h).1 = Resolved v →
  v = records_get key (records_of h dbName storeName).
Proof.
  rewrite readJson_run.
  destruct (open_fault f); [done|].
  destruct (1 <? db_version (current h dbName))%N; [done|].
  cbn zeta. pose proof (opened_records dbName storeName storeName h) as Hrec.
  destruct (objectStores (opened dbName storeName h) !! storeName) as [os|]; [|done].
  cbn [from_option] in Hrec.
  destruct (hits f 0); [done|]. destruct (commits f); [|done].
  cbn [fst]. intros [= <-]. by rewrite Hrec.
Qed.

Lemma readJson_resolves (dbName storeName : string) (key : IDBValidKey)
    (f : Faults) (h : Host) :
  open_fault f = false → tx_fault f = None →
  (db_version (current h dbName) ≤ 1)%N →
  databases h !! dbName = None ∨ is_Some (store_of h dbName storeName) →
  (readJson dbName storeName key f h).1
  = Resolved (records_get key (records_of h dbName storeName)).
Proof.
  intros Hopen Htx Hv Hstore.
  rewrite readJson_run, Hopen, version_check by done. cbn zeta.
  pose proof (opened_records dbName storeName storeName h) as Hrec.
  destruct (opened_own_store dbName storeName h Hstore) as [os Hos].
  rewrite Hos in *. cbn [from_option] in Hrec.
  rewrite no_tx_fault_hits, no_tx_fault_commits by done.
  cbn [fst]. by rewrite Hrec.
Qed.

(** X1. [readJson] reads what the store holds under the key: whenever it
    resolves, its value is the record stored under the key, [undefined]
    when there is none; and it does resolve, also for a key or a database
    that does not exist, when the engine reports no failure and the store
    is there or can be created. *)
Theorem readJson_reads_the_store (dbName storeName : string) (key : IDBValidKey)
    (f : Faults) (h : Host) :
  (∀ v, (readJson dbName storeName key f h).1 = Resolved v →
        v = records_get key (records_of h dbName storeName))
  ∧ (open_fault f = false → tx_fault f = None →
     (db_version (current h dbName) ≤ 1)%N →
     databases h !! dbName = None ∨ is_Some (store_of h dbName storeName) →
     (readJson dbName storeName key f h).1
     = Resolved (records_get key (records_of h dbName storeName)))
  ∧ (databases h !! dbName = None → open_fault f = false → tx_fault f = None →
     (readJson dbName storeName key f h).1 = Resolved None).
Proof.
  split; [intros v; apply readJson_resolved|].
  split; [apply readJson_resolves|].
  intros Hnew Hopen Htx.
  rewrite readJson_resolves; auto.
  - unfold records_of, store_of. by rewrite Hnew.
  - rewrite current_absent by done. cbn. lia.
Qed.

Lemma records_delete_absent (k : IDBValidKey) (rs : list Record_) :
  records_get k rs = None → records_delete k rs = rs.
Proof.
  induction rs as [|[k' v'] rs IH]; [done|].
  cbn [records_get]. unfold records_delete. cbn [List.filter fst].
  destruct (key_eqb k k'); [done|]. intros Hget. cbn [negb].
  f_equal. by apply IH.
Qed.

(** The views of the state a resolved [deleteKey] leaves. *)
Lemma deleteKey_resolved (dbName storeName : string) (key : IDBValidKey)
    (f : Faults) (h h' : Host) :
  deleteKey dbName storeName key f h = (Resolved tt, h') →
  db_version (current h' dbName) = 1%N
  ∧ is_Some (store_of h' dbName storeName)
  ∧ records_of h' dbName storeName = records_delete key (records_of h dbName storeName).
Proof.
  rewrite deleteKey_run.
  destruct (open_fault f); [done|].
  destruct (1 <? db_version (current h dbName))%N eqn:Hv; [done|].
  apply N.ltb_ge in Hv. cbn zeta.
  pose proof (opened_records dbName storeName storeName h) as Hrec.
  destruct (objectStores (opened dbName storeName h) !! storeName) as [os|]; [|done].
  cbn [from_option] in Hrec.
  destruct (hits f 0); [done|]. destruct (commits f); [|done].
  intros [= <-]. split; [|split].
  - rewrite current_db_close, current_signal, current_commit, current_connect.
    cbn [db_version]. unfold opened. by apply upgraded_version.
  - unfold store_of at 1. cbn [databases db_close signal].
    fold (store_of (commit (live dbName
            (<[storeName := with_records (records_delete key (records os)) os]>
               (objectStores (opened dbName storeName h))) 1)
            (connect dbName (opened dbName storeName h) h)) dbName storeName).
    rewrite store_of_commit, lookup_insert_eq. by eexists.
  - rewrite records_of_committed. rewrite decide_True by done.
    rewrite lookup_insert_eq. cbn [from_option with_records records]. by rewrite Hrec.
Qed.

(** X2. Delete, then read: after a [deleteKey] that resolved, [readJson]
    of the same database, store and key resolves with [undefined] when
    the engine reports no failure, and never resolves with a value. *)
Theorem deleteKey_then_read (dbName storeName : string) (key : IDBValidKey)
    (f : Faults) (h h' : Host) :
  deleteKey dbName storeName key f h = (Resolved tt, h') →
  (readJson dbName storeName key no_faults h').1 = Resolved None
  ∧ ∀ f' v, (readJson dbName storeName key f' h').1 = Resolved v → v = None.
Proof.
  intros Hrun.
  destruct (deleteKey_resolved dbName storeName key f h h' Hrun) as (Hv & Hstore & Hrec).
  assert (records_get key (records_of h' dbName storeName) = None) as Hgone
    by (rewrite Hrec; apply records_get_delete).
  split.
  - rewrite readJson_resolves; auto.
    + by rewrite Hgone.
    + rewrite Hv. lia.
  - intros f' v Hread. apply readJson_resolved in Hread. congruence.
Qed.

(** X3. Deleting a key the store does not hold is not an error and changes
    no record: [deleteKey] resolves all the same when the engine reports
    no failure, and whatever the outcome every store of every database
    holds the records it held. *)
Theorem deleteKey_of_a_missing_key (dbName storeName : string) (key : IDBValidKey)
    (f : Faults) (h : Host) :
  records_get key (records_of h dbName storeName) = None →
  let r := deleteKey dbName storeName key f h in
  (∀ name s, records_of r.2 name s = records_of h name s)
  ∧ (open_fault f = false → tx_fault f = None →
     (db_version (current h dbName) ≤ 1)%N →
     databases h !! dbName = None ∨ is_Some (store_of h dbName storeName) →
     r.1 = Resolved tt).
Proof.
  intros Hnone. cbn zeta. rewrite deleteKey_run. split.
  - intros name s.
    destruct (open_fault f); [done|].
    destruct (1 <? db_version (current h dbName))%N; [done|].
    cbn zeta.
    pose proof (opened_records dbName storeName storeName h) as Hrec.
    pose proof (opened_records dbName storeName s h) as Hs.
    destruct (objectStores (opened dbName storeName h) !! storeName) as [os|] eqn:Hos;
      cbn [snd]; [|apply records_of_opened].
    cbn [from_option] in Hrec.
    destruct (hits f 0); cbn [snd].
    { rewrite records_of_signal. apply records_of_opened. }
    destruct (commits f); cbn [snd]; cycle 1.
    { rewrite records_of_signal. apply records_of_opened. }
    rewrite records_of_committed. case_decide as Hname; [|apply records_of_opened].
    subst name. destruct (decide (s = storeName)) as [->|Hne].
    + rewrite lookup_insert_eq. cbn [from_option with_records records].
      rewrite Hrec. by apply records_delete_absent.
    + by rewrite lookup_insert_ne.
  - intros Hopen Htx Hv Hstore.
    rewrite Hopen, version_check by done. cbn zeta.
    destruct (opened_own_store dbName storeName h Hstore) as [os Hos].
    rewrite Hos. by rewrite no_tx_fault_hits, no_tx_fault_commits.
Qed.

(** ** What [writeJson] touches *)

Lemma records_of_ended (f : Faults) (name : string)
    (stores : gmap string IDBObjectStore) (n : nat) (h : Host) (name' s : string) :
  records_of (ended f name stores n h) name' s
  = if commits f && bool_decide (name = name')
    then from_option records [] (stores !! s)
    else records_of h name' s.
Proof.
  unfold ended. destruct (commits f); cbn [andb]; rewrite records_of_signal; [|done].
  rewrite records_of_commit. by repeat case_decide; case_bool_decide.
Qed.

(** The records of the stores, once [writeJson] has got as far as its
    transaction: those the database had, or those with the caller's record
    put in its store. *)
Lemma writeJson_records (dbName storeName : string) (key : IDBValidKey)
    (value : JsonValue) (f : Faults) (h : Host) (name s : string) :
  name ≠ dbName ∨ s ≠ "changeLog" →
  let r := writeJson dbName storeName key value f h in
  records_of r.2 name s = records_of h name s
  ∨ (name = dbName ∧ s = storeName
     ∧ records_of r.2 name s = records_put key (Plain value) (records_of h name s)).
Proof.
  intros Hns. cbn zeta. rewrite writeJson_run.
  destruct (open_fault f); [by left|].
  destruct (1 <? db_version (current h dbName))%N; [by left|].
  cbn zeta.
  pose proof (opened_records dbName storeName storeName h) as Hrec.
  pose proof (opened_records dbName storeName s h) as Hs.
  set (d := opened dbName storeName h) in *.
  assert (∀ h2, (h2 = connect dbName d h ∨ ∃ sig, h2 = signal sig (connect dbName d h)) →
                records_of h2 name s = records_of h name s) as Hsame.
  { intros h2 [->|[sig ->]]; [|rewrite records_of_signal]; apply records_of_opened. }
  destruct (objectStores d !! storeName) as [os|] eqn:Hos; cbn [snd]; [|left; auto].
  destruct (objectStores d !! "changeLog") as [oc0|] eqn:Hoc0; cbn [snd]; [|left; auto].
  cbn [from_option] in Hrec.
  assert (∀ n, records_of (ended f dbName (objectStores d) n (connect dbName d h)) name s
               = records_of h name s) as Hended.
  { intros n. rewrite records_of_ended.
    destruct (commits f); cbn [andb]; [|apply records_of_opened].
    case_bool_decide as Hname; [|apply records_of_opened]. subst name. exact Hs. }
  destruct (keyPath os); cbn [snd]; [left; apply Hended|].
  destruct (hits f 0); cbn [snd]; [left; eauto|].
  set (os' := put_into key (Plain value) os).
  set (oc := if decide (storeName = "changeLog") then os' else oc0).
  assert (∀ stores : gmap string IDBObjectStore,
            from_option records [] ((<[storeName := os']> stores) !! s)
            = (if decide (s = storeName)
               then records_put key (Plain value) (records os)
               else from_option records [] (stores !! s))) as Hput.
  { intros stores. case_decide as Hsn.
    - subst s. rewrite lookup_insert_eq. cbn [from_option]. apply put_into_records.
    - by rewrite lookup_insert_ne. }
  assert (∀ (stores : gmap string IDBObjectStore) n,
            (∀ s', s' ≠ "changeLog" →
                   stores !! s' = (<[storeName := os']> (objectStores d)) !! s') →
            commits f = true →
            records_of (signal TxComplete (commit (live dbName stores n) (connect dbName d h)))
              name s = records_of h name s
            ∨ (name = dbName ∧ s = storeName
               ∧ records_of
                   (signal TxComplete (commit (live dbName stores n) (connect dbName d h)))
                   name s
                 = records_put key (Plain value) (records_of h name s))) as Hcommitted.
  { intros stores n Hstores Hc. rewrite records_of_signal, records_of_commit.
    destruct (decide (dbName = name)) as [Hname|Hname]; [|left; apply records_of_opened].
    subst name. destruct Hns as [Hns|Hns]; [done|].
    rewrite Hstores, Hput by done. destruct (decide (s = storeName)) as [Hsn|Hsn].
    - right. subst s. by rewrite Hrec.
    - left. exact Hs. }
  destruct (negb (autoIncrement oc)); cbn [snd].
  { unfold ended. destruct (commits f) eqn:Hc; [|left; eauto].
    by apply Hcommitted. }
  destruct (hits f 1); cbn [snd]; [left; eauto|].
  destruct (_ || _); cbn [snd]; [left; eauto|].
  destruct (commits f) eqn:Hc; cbn [snd]; [|left; eauto].
  assert (∀ c h2, records_of (db_close c h2) name s = records_of h2 name s) as Hclose.
  { intros c h2. unfold records_of. by rewrite store_of_db_close. }
  rewrite Hclose. apply Hcommitted; [|done].
  intros s' Hs'. by rewrite lookup_insert_ne.
Qed.

Lemma writeJson_resolved_records (dbName storeName : string) (key : IDBValidKey)
    (value : JsonValue) (f : Faults) (h h' : Host) :
  storeName ≠ "changeLog" →
  writeJson dbName storeName key value f h = (Resolved tt, h') →
  records_of h' dbName storeName
  = records_put key (Plain value) (records_of h dbName storeName).
Proof.
  intros Hstore. rewrite writeJson_run.
  destruct (open_fault f); [done|].
  destruct (1 <? db_version (current h dbName))%N; [done|].
  cbn zeta.
  pose proof (opened_records dbName storeName storeName h) as Hrec.
  destruct (objectStores (opened dbName storeName h) !! storeName) as [os|]; [|done].
  destruct (objectStores (opened dbName storeName h) !! "changeLog"); [|done].
  cbn [from_option] in Hrec.
  destruct (keyPath os); [by destruct (ended _ _ _ _ _)|].
  destruct (hits f 0); [done|].
  destruct (negb _); [done|]. destruct (hits f 1); [done|].
  destruct (_ || _); [done|]. destruct (commits f); [|done].
  intros [= <-]. rewrite records_of_committed, decide_True by done.
  rewrite lookup_insert_ne, lookup_insert_eq by done.
  cbn [from_option]. by rewrite put_into_records, Hrec.
Qed.

(** X4. [writeJson] touches one record of one store, and the log.
    Whatever the outcome, every store of another database and every
    store of this database other than the caller's and [changeLog] holds
    the records it held, and in the caller's store every other key holds
    the value it held; a write that resolves has put the value under the
    key, in key order, replacing the record that was there. *)
Theorem writeJson_touches_one_record (dbName storeName : string) (key : IDBValidKey)
    (value : JsonValue) (f : Faults) (h : Host) :
  let r := writeJson dbName storeName key value f h in
  (∀ name s, name ≠ dbName ∨ (s ≠ storeName ∧ s ≠ "changeLog") →
             records_of r.2 name s = records_of h name s)
  ∧ (storeName ≠ "changeLog" →
     ∀ k, k ≠ key →
          records_get k (records_of r.2 dbName storeName)
          = records_get k (records_of h dbName storeName))
  ∧ (storeName ≠ "changeLog" → r.1 = Resolved tt →
     records_of r.2 dbName storeName
     = records_put key (Plain value) (records_of h dbName storeName)).
Proof.
  cbn zeta. split; [|split].
  - intros name s Hns.
    destruct (writeJson_records dbName storeName key value f h name s)
      as [Heq|(-> & -> & _)]; [tauto|exact Heq|].
    destruct Hns as [Hns|[Hns _]]; done.
  - intros Hstore k Hk.
    destruct (writeJson_records dbName storeName key value f h dbName storeName)
      as [->|(_ & _ & ->)]; [by right|done|].
    by apply records_get_put_ne.
  - intros Hstore Hres.
    apply (writeJson_resolved_records dbName storeName key value f h _ Hstore).
    rewrite <- Hres. apply surjective_pairing.
Qed.

(** ** The outcome of the scans, up to their cursor *)

Lemma readMultipleRecords_run (dbName storeName : string) (filterFn : FilterFn)
    (f : Faults) (h : Host) :
  readMultipleRecords dbName storeName filterFn f h =
  if open_fault f
  then (Rejected UnknownError,
        console_error "Error opening database:" (Some UnknownError) h)
  else
    let h1 := connect dbName (found h dbName) h in
    match store_of h dbName storeName with
    | None => (Pending, report_uncaught NotFoundError h1)
    | Some os =>
        let '(s, t2) :=
          cursor_events (readMultipleRecords_onsuccess filterFn) (records os)
            {| scan_records := []; scan_promise := Pending |} f
            (active h1 dbName (objectStores (found h dbName)) 0) in
        match tx_finish f t2 with
        | (Some (TxError e), t3) =>
            (settle (scan_promise s) (Rejected e),
             console_error "Transaction error:" (Some e) (task_host t3))
        | (_, t3) => (scan_promise s, task_host t3)
        end
    end.
Proof.
  unfold readMultipleRecords. rewrite plain_open_cases.
  destruct (open_fault f); [done|].
  change {| task_host := connect dbName (found h dbName) h; task_tx := None |}
    with (idle (connect dbName (found h dbName) h)).
  rewrite db_transaction_connected. cbn [forallb]. rewrite andb_true_r.
  rewrite <- found_lookup. cbn zeta.
  destruct (objectStores (found h dbName) !! storeName) as [os|] eqn:Hos; cycle 1.
  { by rewrite (contains_false _ _ Hos). }
  rewrite (contains_true _ _ _ Hos).
  unfold openCursor. rewrite tx_objectStore_active, Hos; [done|].
  apply in_scope_here. cbn. auto.
Qed.

Lemma deleteMultipleRecords_run (dbName storeName : string) (filterFn : FilterFn)
    (f : Faults) (h : Host) :
  deleteMultipleRecords dbName storeName filterFn f h =
  if open_fault f
  then (Rejected UnknownError,
        console_error "Error opening database:" (Some UnknownError) h)
  else
    let h1 := connect dbName (found h dbName) h in
    let tx := {| tx_db := new_connection h dbName; tx_scope := [storeName];
                 tx_mode := readwrite |} in
    match store_of h dbName storeName with
    | None => (Pending, report_uncaught NotFoundError h1)
    | Some os =>
        let '(p, t2) :=
          cursor_events (deleteMultipleRecords_onsuccess tx storeName filterFn)
            (records os) Pending f
            (active h1 dbName (objectStores (found h dbName)) 0) in
        match tx_finish f t2 with
        | (Some (TxError e), t3) =>
            (settle p (Rejected e), printed (error_events t2) (task_host t3))
        | (_, t3) => (p, task_host t3)
        end
    end.
Proof.
  unfold deleteMultipleRecords. rewrite plain_open_cases.
  destruct (open_fault f); [done|].
  change {| task_host := connect dbName (found h dbName) h; task_tx := None |}
    with (idle (connect dbName (found h dbName) h)).
  rewrite db_transaction_connected. cbn [forallb]. rewrite andb_true_r.
  rewrite <- found_lookup. cbn zeta.
  destruct (objectStores (found h dbName) !! storeName) as [os|] eqn:Hos; cycle 1.
  { by rewrite (contains_false _ _ Hos). }
  rewrite (contains_true _ _ _ Hos).
  unfold openCursor. rewrite tx_objectStore_active, Hos
    by (apply in_scope_here; cbn; auto).
  destruct (cursor_events _ _ _ _ _) as [p t2].
  apply deleteMultipleRecords_onerror_events.
Qed.

(** ** Calls that fail at the open *)

(** X5. A failed open is reported and changes nothing.  [writeJson],
    [readJson] and [deleteKey] reject with the open request's error and
    leave the engine as it was; [readMultipleRecords] and
    [deleteMultipleRecords] print [Error opening database:] with the
    error, reject with it, and change nothing else. *)
Theorem failed_open_is_reported (dbName storeName : string) (key : IDBValidKey)
    (value : JsonValue) (filterFn : FilterFn) (f : Faults) (h : Host) :
  open_fault f = true →
  let printed := console_error "Error opening database:" (Some UnknownError) h in
  writeJson dbName storeName key value f h = (Rejected UnknownError, h)
  ∧ readJson dbName storeName key f h = (Rejected UnknownError, h)
  ∧ deleteKey dbName storeName key f h = (Rejected UnknownError, h)
  ∧ readMultipleRecords dbName storeName filterFn f h = (Rejected UnknownError, printed)
  ∧ deleteMultipleRecords dbName storeName filterFn f h = (Rejected UnknownError, printed).
Proof.
  intros Hopen. cbn zeta.
  rewrite writeJson_run, readJson_run, deleteKey_run, readMultipleRecords_run,
    deleteMultipleRecords_run, Hopen.
  done.
Qed.

(** X6. The library only opens version 1.  On a database that other code
    has upgraded beyond version 1, [writeJson], [readJson] and
    [deleteKey] reject with [VersionError] and leave the engine as it
    was. *)
Theorem newer_version_is_refused (dbName storeName : string) (key : IDBValidKey)
    (value : JsonValue) (f : Faults) (h : Host) :
  open_fault f = false → (1 < db_version (current h dbName))%N →
  writeJson dbName storeName key value f h = (Rejected VersionError, h)
  ∧ readJson dbName storeName key f h = (Rejected VersionError, h)
  ∧ deleteKey dbName storeName key f h = (Rejected VersionError, h).
Proof.
  intros Hopen Hv. apply N.ltb_lt in Hv.
  by rewrite writeJson_run, readJson_run, deleteKey_run, Hopen, Hv.
Qed.

(** ** Calls that only read *)

(** Where a cursor whose handler leaves the transaction alone can leave
    it: active, doomed by a failed request, or aborted by an exception of
    the handler; its working copy is the one it started with. *)
Inductive untouched (h : Host) (name : string) (stores : gmap string IDBObjectStore)
  : Task → Prop :=
| untouched_active n : untouched h name stores (active h name stores n)
| untouched_doomed e n k : untouched h name stores (doomed h name stores e n k)
| untouched_threw e n :
    untouched h name stores (handler_threw e (active h name stores n)).

Lemma cursor_events_untouched {St : Type} (handler : Handler St) (rs : list Record_)
    (s : St) (f : Faults) h name stores n :
  (∀ c s f t, (handler c s f t).2 = t) →
  untouched h name stores (cursor_events handler rs s f (active h name stores n)).2.
Proof.
  intros Hh. revert s n. induction rs as [|r rs IH]; intros s n;
    cbn [cursor_events]; rewrite tx_request_active;
    (destruct (hits f n); cbn [negb snd]; [constructor|]).
  - pose proof (Hh None s f (active h name stores (S n))) as Hstep.
    destruct (handler None s f _) as [[s' c|s' e] t2]; cbn [snd] in *; subst t2;
      constructor.
  - pose proof (Hh (Some r) s f (active h name stores (S n))) as Hstep.
    destruct (handler (Some r) s f _) as [[s' [] |s' e] t2]; cbn [snd] in *; subst t2;
      [apply IH|constructor|constructor].
Qed.

Lemma records_of_console_error msg detail h name s :
  records_of (console_error msg detail h) name s = records_of h name s.
Proof. done. Qed.

Lemma records_of_report_uncaught e h name s :
  records_of (report_uncaught e h) name s = records_of h name s.
Proof. done. Qed.

(** The end of a transaction whose working copy is the database it was
    opened on shows the records that were there. *)
Lemma untouched_finish (f : Faults) (h : Host) (dbName name s : string) (t : Task) :
  untouched (connect dbName (found h dbName) h) dbName (objectStores (found h dbName)) t →
  records_of (task_host (tx_finish f t).2) name s = records_of h name s.
Proof.
  intros [n|e n|e n].
  - rewrite tx_finish_active. destruct (commits f); cbn [snd task_host idle];
      rewrite records_of_signal; [|apply records_of_found].
    fold (live dbName (objectStores (found h dbName)) n).
    rewrite records_of_commit. case_decide as Hname; [|apply records_of_found].
    subst name. by rewrite found_lookup.
  - rewrite tx_finish_doomed. cbn [snd task_host idle].
    rewrite records_of_signal. apply records_of_found.
  - rewrite tx_finish_threw. cbn [snd task_host idle].
    rewrite records_of_signal, records_of_report_uncaught. apply records_of_found.
Qed.

Lemma read_handler_untouched (filterFn : FilterFn) c s f t :
  (readMultipleRecords_onsuccess filterFn c s f t).2 = t.
Proof.
  unfold readMultipleRecords_onsuccess. destruct c as [[k v]|]; [|done].
  by destruct (filterFn v) as [e|[]].
Qed.

Lemma poll_handler_untouched {U : Type} (callback : StoredValue → U → JsError + U)
    c o f t :
  (pollForChanges_onsuccess callback c o f t).2 = t.
Proof.
  unfold pollForChanges_onsuccess. destruct c as [[k v]|]; [|done].
  destruct (negb (Set_has (seenChanges o) k)); [|done].
  by destruct (callback v (user o)).
Qed.

Lemma readJson_records (dbName storeName : string) (key : IDBValidKey)
    (f : Faults) (h : Host) (name s : string) :
  records_of (readJson dbName storeName key f h).2 name s = records_of h name s.
Proof.
  rewrite readJson_run.
  destruct (open_fault f); [done|].
  destruct (1 <? db_version (current h dbName))%N; [done|].
  cbn zeta.
  destruct (objectStores (opened dbName storeName h) !! storeName) as [os|];
    cbn [snd]; [|apply records_of_opened].
  destruct (hits f 0); cbn [snd].
  { rewrite records_of_signal. apply records_of_opened. }
  destruct (commits f); cbn [snd]; cycle 1.
  { rewrite records_of_signal. apply records_of_opened. }
  rewrite records_of_committed. case_decide as Hname; [|apply records_of_opened].
  subst name. apply opened_records.
Qed.

Lemma readMultipleRecords_records (dbName storeName : string) (filterFn : FilterFn)
    (f : Faults) (h : Host) (name s : string) :
  records_of (readMultipleRecords dbName storeName filterFn f h).2 name s
  = records_of h name s.
Proof.
  rewrite readMultipleRecords_run.
  destruct (open_fault f); [done|]. cbn zeta.
  destruct (store_of h dbName storeName) as [os|]; cbn [snd]; cycle 1.
  { rewrite records_of_report_uncaught. apply records_of_found. }
  pose proof (cursor_events_untouched (readMultipleRecords_onsuccess filterFn)
                (records os) {| scan_records := []; scan_promise := Pending |} f
                (connect dbName (found h dbName) h) dbName
                (objectStores (found h dbName)) 0
                (read_handler_untouched filterFn)) as Hcur.
  destruct (cursor_events _ _ _ _ _) as [sc t2]. cbn [snd] in Hcur.
  pose proof (untouched_finish f h dbName name s t2 Hcur) as Hfin.
  destruct (tx_finish f t2) as [[[| |e]|] t3]; cbn [snd] in *;
    rewrite ?records_of_console_error; exact Hfin.
Qed.

Section ReadOnly.

Context {U : Type}.
Variable callback : StoredValue → U → JsError + U.

Lemma pass_records (dbName : string) (o : Observer) (f : Faults) (h : Host)
    (name s : string) :
  records_of (onNewRecord_pollForChanges callback dbName o f h).2 name s
  = records_of h name s
  ∧ records_of (onNewRecordWithLog_pollForChanges callback dbName o f h).2 name s
    = records_of h name s.
Proof.
  rewrite onNewRecord_pass, onNewRecordWithLog_pass.
  destruct (open_fault f); [done|]. cbn zeta.
  destruct (store_of h dbName "changeLog") as [os|]; cbn [snd]; cycle 1.
  { rewrite records_of_report_uncaught. split; apply records_of_found. }
  pose proof (cursor_events_untouched (pollForChanges_onsuccess callback)
                (records os) o f
                (connect dbName (found h dbName) h) dbName
                (objectStores (found h dbName)) 0
                (poll_handler_untouched callback)) as Hcur.
  destruct (cursor_events _ _ _ _ _) as [o' t2]. cbn [snd] in Hcur.
  pose proof (untouched_finish f h dbName name s t2 Hcur) as Hfin.
  destruct (tx_finish f t2) as [[[| |e]|] t3]; cbn [snd] in *;
    rewrite ?records_of_console_error; by split.
Qed.

(** X7. The calls that read write nothing.  Whatever the engine, the
    predicate and the callback do, [readJson], [readMultipleRecords] and
    a pass of either notifier leave every store of every database with
    the records it had: the stores that [readJson] creates are empty. *)
Theorem reads_change_no_record (dbName storeName : string) (key : IDBValidKey)
    (filterFn : FilterFn) (o : Observer) (f : Faults) (h : Host) (name s : string) :
  records_of (readJson dbName storeName key f h).2 name s = records_of h name s
  ∧ records_of (readMultipleRecords dbName storeName filterFn f h).2 name s
    = records_of h name s
  ∧ records_of (onNewRecord_pollForChanges callback dbName o f h).2 name s
    = records_of h name s
  ∧ records_of (onNewRecordWithLog_pollForChanges callback dbName o f h).2 name s
    = records_of h name s.
Proof.
  split; [apply readJson_records|].
  split; [apply readMultipleRecords_records|].
  apply pass_records.
Qed.

End ReadOnly.

(** ** [deleteMultipleRecords] deletes all it should or nothing *)

(** A transaction that can only roll back: a request of it has failed, or
    a handler of it has thrown. *)
Inductive condemned (h : Host) : Task → Prop :=
| condemned_doomed name stores e n k : condemned h (doomed h name stores e n k)
| condemned_threw name stores e n :
    condemned h (handler_threw e (active h name stores n)).

Lemma condemned_finish (f : Faults) (h : Host) (t : Task) (name s : string) :
  condemned h t →
  records_of (task_host (tx_finish f t).2) name s = records_of h name s
  ∧ ∃ sig, (tx_finish f t).1 = Some sig ∧ sig ≠ TxComplete
           ∧ signals (task_host (tx_finish f t).2) = signals h ++ [sig].
Proof.
  intros [name' stores e n|name' stores e n].
  - rewrite tx_finish_doomed. cbn [fst snd task_host idle].
    split; [apply records_of_signal|]. by eexists.
  - rewrite tx_finish_threw. cbn [fst snd task_host idle].
    split; [by rewrite records_of_signal|]. by eexists.
Qed.

Lemma delete_cursor_pending (tx : IDBTransaction) (storeName : string)
    (filterFn : FilterFn) (rs : list Record_) (f : Faults) h name stores n os :
  in_scope storeName tx → tx_mode tx = readwrite →
  stores !! storeName = Some os →
  let r := cursor_events (deleteMultipleRecords_onsuccess tx storeName filterFn)
             rs Pending f (active h name stores n) in
  r.1 = Pending → condemned h r.2.
Proof.
  intros Hin Hmode. cbn zeta. revert stores n os.
  induction rs as [|[k v] rs IH]; intros stores n os Hos; cbn [cursor_events];
    rewrite tx_request_active;
    (destruct (hits f n); cbn [negb fst snd]; [intros _; constructor|]).
  - discriminate.
  - rewrite delete_step. destruct (filterFn v) as [e|[]].
    + intros _. constructor.
    + rewrite (os_delete_active tx storeName k f h name stores (S n) os) by done.
      destruct (hits f (S n)).
      { rewrite cursor_events_doomed. intros _. constructor. }
      eapply IH. apply lookup_insert_eq.
    + by eapply IH.
Qed.

Lemma deleteMultipleRecords_outcome (dbName storeName : string)
    (filterFn : FilterFn) (f : Faults) (h : Host) :
  NoDup (map fst (records_of h dbName storeName)) →
  let r := deleteMultipleRecords dbName storeName filterFn f h in
  let kept := List.filter (λ rec, negb (matching filterFn rec.2))
                (records_of h dbName storeName) in
  (∀ name s, name ≠ dbName ∨ s ≠ storeName →
             records_of r.2 name s = records_of h name s)
  ∧ (records_of r.2 dbName storeName = records_of h dbName storeName
     ∨ (records_of r.2 dbName storeName = kept
        ∧ r.1 = Resolved tt ∧ completed h r.2))
  ∧ (r.1 ≠ Resolved tt →
     records_of r.2 dbName storeName = records_of h dbName storeName)
  ∧ (r.1 = Resolved tt → completed h r.2 →
     records_of r.2 dbName storeName = kept).
Proof.
  intros Hnd. cbn zeta. rewrite deleteMultipleRecords_run.
  destruct (open_fault f).
  { split; [done|]. split; [by left|]. split; [done|discriminate]. }
  cbn zeta.
  assert (records_of h dbName storeName
          = from_option records [] (store_of h dbName storeName)) as Hrecs by done.
  destruct (store_of h dbName storeName) as [os|] eqn:Hos; cycle 1.
  { cbn [fst snd]. split; [|split; [left|split; [intros _|discriminate]]];
      intros; rewrite records_of_report_uncaught; apply records_of_found. }
  cbn [from_option] in Hrecs.
  set (h1 := connect dbName (found h dbName) h).
  set (tx := {| tx_db := _; tx_scope := _; tx_mode := _ |}).
  assert (in_scope storeName tx) as Hin by (apply in_scope_here; cbn; auto).
  assert (objectStores (found h dbName) !! storeName = Some os) as Hfound
    by (by rewrite found_lookup).
  pose proof (delete_cursor_pending tx storeName filterFn (records os) f h1 dbName
                (objectStores (found h dbName)) 0 os Hin eq_refl Hfound) as Hpending.
  destruct (delete_cursor_cases tx storeName filterFn (records os) f h1 dbName
              (objectStores (found h dbName)) 0 os Hin eq_refl Hfound)
    as [(Hp & _) | (Hp & Htot & stores' & n' & Ht & Hst & Hframe)];
    cbn zeta in Hpending;
    destruct (cursor_events _ _ _ _ _) as [p t2]; cbn [fst snd] in *; subst p.
  - specialize (Hpending eq_refl).
    assert (∀ name s, records_of (task_host (tx_finish f t2).2) name s
                      = records_of h name s) as Hsame.
    { intros name s. destruct (condemned_finish f h1 t2 name s Hpending) as [-> _].
      apply records_of_found. }
    destruct (tx_finish f t2) as [[[| |e]|] t3]; cbn [fst snd settle] in *;
      (split; [intros; rewrite ?records_of_printed; apply Hsame|
       split; [left; rewrite ?records_of_printed; apply Hsame|
       split; [intros; rewrite ?records_of_printed; apply Hsame|discriminate]]]).
  - subst t2. rewrite tx_finish_active. fold (live dbName stores' n').
    destruct (commits f); cbn [fst snd settle idle task_host].
    + assert (records_of
                (signal TxComplete (commit (live dbName stores' n') h1)) dbName storeName
              = List.filter (λ rec, negb (matching filterFn rec.2))
                  (records_of h dbName storeName)) as Hkept.
      { rewrite records_of_signal, records_of_commit, decide_True by done.
        rewrite Hst. cbn [from_option records with_records].
        rewrite delete_matching_all by (by rewrite <- Hrecs). by rewrite Hrecs. }
      split; [|split; [right; by split|split; [done|intros _ _; exact Hkept]]].
      intros name s Hother. rewrite records_of_signal, records_of_commit.
      destruct (decide (dbName = name)) as [Hn|Hn]; [|apply records_of_found].
      subst name. destruct Hother as [?|Hs]; [done|].
      rewrite Hframe by done. unfold records_of. by rewrite found_lookup.
    + split; [|split; [left|split; [done|]]]; intros;
        rewrite ?records_of_signal; try apply records_of_found.
      exfalso. unfold completed in *. cbn in *.
      match goal with H : _ ++ _ = _ ++ _ |- _ => apply app_inj_tail in H as [_ ?] end.
      discriminate.
Qed.

(** X8. [deleteMultipleRecords] is all or nothing.  Whatever the engine
    and the predicate do, the call leaves the store either with the
    records it had, or, its promise resolved and its transaction
    completed, without every record the predicate accepted; no other
    store is touched.  A call that is rejected or left pending has
    deleted nothing. *)
Theorem deleteMultipleRecords_all_or_nothing (dbName storeName : string)
    (filterFn : FilterFn) (f : Faults) (h : Host) :
  NoDup (map fst (records_of h dbName storeName)) →
  let r := deleteMultipleRecords dbName storeName filterFn f h in
  (∀ name s, name ≠ dbName ∨ s ≠ storeName →
             records_of r.2 name s = records_of h name s)
  ∧ (records_of r.2 dbName storeName = records_of h dbName storeName
     ∨ (records_of r.2 dbName storeName
        = List.filter (λ rec, negb (matching filterFn rec.2))
            (records_of h dbName storeName)
        ∧ r.1 = Resolved tt ∧ completed h r.2))
  ∧ (r.1 ≠ Resolved tt →
     records_of r.2 dbName storeName = records_of h dbName storeName).
Proof.
  intros Hnd.
  destruct (deleteMultipleRecords_outcome dbName storeName filterFn f h Hnd)
    as (Hframe & Hcases & Hnot & _).
  by repeat split.
Qed.

(** ** Scans after a write and after a deletion *)

Lemma readMultipleRecords_resolved (dbName storeName : string) (filterFn : FilterFn)
    (f : Faults) (h : Host) (l : list StoredValue) :
  (readMultipleRecords dbName storeName filterFn f h).1 = Resolved l →
  l = List.filter (matching filterFn) (map snd (records_of h dbName storeName)).
Proof.
  rewrite readMultipleRecords_run.
  destruct (open_fault f); [done|]. cbn zeta.
  assert (records_of h dbName storeName
          = from_option records [] (store_of h dbName storeName)) as Hrecs by done.
  destruct (store_of h dbName storeName) as [os|]; [|done].
  cbn [from_option] in Hrecs. rewrite Hrecs.
  pose proof (read_cursor_sound filterFn (records os) [] f
                (active (connect dbName (found h dbName) h) dbName
                   (objectStores (found h dbName)) 0)) as Hsound.
  cbn zeta in Hsound.
  destruct (cursor_events _ _ _ _ _) as [s t2]. cbn [fst app] in Hsound.
  destruct (tx_finish f t2) as [[[| |e]|] t3]; cbn [fst];
    destruct Hsound as [-> | ->]; cbn [settle]; congruence.
Qed.

Lemma readMultipleRecords_resolves (dbName storeName : string) (filterFn : FilterFn)
    (f : Faults) (h : Host) :
  open_fault f = false → no_request_fault f →
  is_Some (store_of h dbName storeName) →
  total_on filterFn (records_of h dbName storeName) →
  (readMultipleRecords dbName storeName filterFn f h).1
  = Resolved (List.filter (matching filterFn) (map snd (records_of h dbName storeName))).
Proof.
  intros Hopen Hreq [os Hos] Htot.
  rewrite readMultipleRecords_run, Hopen. cbn zeta.
  assert (records_of h dbName storeName = records os) as Hrecs
    by (unfold records_of; by rewrite Hos).
  rewrite Hos, Hrecs in *.
  rewrite read_cursor_total by done. cbn [app].
  rewrite tx_finish_active. by destruct (commits f).
Qed.

Lemma records_get_In (k : IDBValidKey) (v : StoredValue) (rs : list Record_) :
  records_get k rs = Some v → In (k, v) rs.
Proof.
  induction rs as [|[k' v'] rs IH]; [done|]. cbn [records_get].
  destruct (key_eqb k k') eqn:Hk.
  - apply key_eqb_eq in Hk as ->. intros [= ->]. by left.
  - intros Hget. right. by apply IH.
Qed.

(** X9. Write, then scan: after a [writeJson] that resolved, every
    [readMultipleRecords] of the store whose predicate accepts the
    written value and whose promise resolves has the value in its
    result. *)
Theorem write_then_scan (dbName storeName : string) (key : IDBValidKey)
    (value : JsonValue) (filterFn : FilterFn) (f f' : Faults) (h h' : Host)
    (l : list StoredValue) :
  storeName ≠ "changeLog" →
  writeJson dbName storeName key value f h = (Resolved tt, h') →
  filterFn (Plain value) = inr true →
  (readMultipleRecords dbName storeName filterFn f' h').1 = Resolved l →
  In (Plain value) l.
Proof.
  intros Hstore Hwrite Haccept Hscan.
  apply readMultipleRecords_resolved in Hscan as ->.
  rewrite (writeJson_resolved_records dbName storeName key value f h h') by done.
  apply List.filter_In. split.
  - apply (List.in_map snd _ (key, Plain value)).
    apply records_get_In, records_get_put.
  - unfold matching. by rewrite Haccept.
Qed.

Lemma filter_rejects_kept (filterFn : FilterFn) (rs : list Record_) :
  List.filter (matching filterFn)
    (map snd (List.filter (λ rec, negb (matching filterFn rec.2)) rs)) = [].
Proof.
  induction rs as [|[k v] rs IH]; [done|]. cbn [List.filter snd].
  destruct (matching filterFn v) eqn:Hm; cbn [negb]; [exact IH|].
  cbn [map List.filter snd]. by rewrite Hm.
Qed.

(** X10. Delete, then scan: once [deleteMultipleRecords] has resolved
    and its transaction has completed, a [readMultipleRecords] of the
    store with the same predicate can only resolve with the empty list,
    and one with a predicate that accepts everything only with the
    values of the records the first predicate did not accept, in their
    order. *)
Theorem delete_then_scan (dbName storeName : string) (filterFn always : FilterFn)
    (f f' : Faults) (h : Host) (l : list StoredValue) :
  NoDup (map fst (records_of h dbName storeName)) →
  (∀ v, always v = inr true) →
  let r := deleteMultipleRecords dbName storeName filterFn f h in
  r.1 = Resolved tt → completed h r.2 →
  ((readMultipleRecords dbName storeName filterFn f' r.2).1 = Resolved l → l = [])
  ∧ ((readMultipleRecords dbName storeName always f' r.2).1 = Resolved l →
     l = map snd (List.filter (λ rec, negb (matching filterFn rec.2))
                    (records_of h dbName storeName))).
Proof.
  intros Hnd Hall. cbn zeta. intros Hres Hdone.
  destruct (deleteMultipleRecords_outcome dbName storeName filterFn f h Hnd)
    as (_ & _ & _ & Hkept).
  specialize (Hkept Hres Hdone). cbn zeta in Hkept. split.
  - intros Hscan. apply readMultipleRecords_resolved in Hscan as ->.
    rewrite Hkept. apply filter_rejects_kept.
  - intros Hscan. apply readMultipleRecords_resolved in Hscan as ->.
    rewrite Hkept.
    rewrite (List.filter_ext (matching always) (λ _, true)); [apply filter_all|].
    intros v. unfold matching. by rewrite Hall.
Qed.

(** ** What a pass delivers *)

Lemma Set_has_add (s : list IDBValidKey) (k k' : IDBValidKey) :
  Set_has (Set_add s k) k' = Set_has s k' || Set_has [k] k'.
Proof.
  unfold Set_add. destruct (Set_has s k) eqn:Hk.
  - destruct (Set_has [k] k') eqn:Hk'; [|by rewrite orb_false_r].
    rewrite orb_true_r.
    assert (k' = k) as ->; [|done].
    destruct k'; cbn in Hk'; try done; rewrite orb_false_r in Hk';
      by apply key_eqb_eq.
  - destruct k'; try done; cbn [Set_has]; by rewrite existsb_app.
Qed.

Lemma Set_has_cons (k : IDBValidKey) (s : list IDBValidKey) (k' : IDBValidKey) :
  Set_has (k :: s) k' = Set_has [k] k' || Set_has s k'.
Proof. destruct k'; try done; cbn [Set_has existsb]; by rewrite orb_false_r. Qed.

Lemma Set_has_other (k k' : IDBValidKey) : k ≠ k' → Set_has [k] k' = false.
Proof.
  intros Hne. destruct k'; try done; cbn [Set_has existsb];
    rewrite key_eqb_ne by congruence; done.
Qed.

(** The entries a cursor over [rs] finds new. *)
Definition unseen (seen : list IDBValidKey) (rs : list Record_) : list Record_ :=
  List.filter (λ r, negb (Set_has seen r.1)) rs.

Lemma unseen_add (seen : list IDBValidKey) (k : IDBValidKey) (rs : list Record_) :
  k ∉ map fst rs → unseen (Set_add seen k) rs = unseen seen rs.
Proof.
  intros Hk. unfold unseen. apply List.filter_ext_in. intros r Hr.
  rewrite Set_has_add, Set_has_other, orb_false_r; [done|].
  intros ->. apply Hk. apply list_elem_of_In. by apply (in_map fst).
Qed.

Section Deliveries.

Context {U : Type}.
Variable callback : StoredValue → U → JsError + U.

#[local] Abbreviation handler := (pollForChanges_onsuccess callback).

(** The caller's state after the callback has been called on each of the
    entries in turn, or the exception of the first call that throws. *)
Fixpoint deliver (rs : list Record_) (u : U) : JsError + U :=
  match rs with
  | [] => inr u
  | r :: rest =>
      match callback r.2 u with
      | inr u' => deliver rest u'
      | inl e => inl e
      end
  end.

Lemma poll_cursor_unseen (rs : list Record_) (o : Observer) (f : Faults)
    h name stores n :
  no_request_fault f → never_throws callback → NoDup (map fst rs) →
  ∃ o' n',
    cursor_events handler rs o f (active h name stores n)
      = (o', active h name stores n')
    ∧ calls o' = calls o ++ unseen (seenChanges o) rs
    ∧ deliver (unseen (seenChanges o) rs) (user o) = inr (user o')
    ∧ ∀ k, Set_has (seenChanges o') k
           = Set_has (seenChanges o) k || Set_has (map fst rs) k.
Proof.
  intros Hf Hcb. revert o n.
  induction rs as [|[k v] rs IH]; intros o n Hnd; cbn [cursor_events].
  - rewrite tx_request_active, Hf. cbn. exists o, (S n).
    rewrite app_nil_r. repeat split. intros k. destruct k; by rewrite ?orb_false_r.
  - rewrite tx_request_active, Hf. cbn [negb]. rewrite handler_step.
    cbn [map fst] in Hnd. apply NoDup_cons in Hnd as [Hnot Hnd].
    unfold unseen. cbn [List.filter fst].
    destruct (Set_has (seenChanges o) k) eqn:Hk; cbn [negb].
    + destruct (IH o (S n) Hnd) as (o' & n' & -> & Hcalls & Huser & Hseen).
      exists o', n'. repeat split; [done|done|]. intros k'.
      cbn [map fst]. rewrite (Set_has_cons k (map fst rs)), Hseen.
      destruct (key_eqb k k') eqn:Hkk.
      * apply key_eqb_eq in Hkk as <-. by rewrite Hk.
      * rewrite (Set_has_other k k'); [done|].
        intros ->. by rewrite key_eqb_refl in Hkk.
    + destruct (Hcb v (user o)) as [u Hu]. rewrite Hu.
      match goal with
      | |- context [cursor_events _ _ ?o1 _ _] =>
          destruct (IH o1 (S n) Hnd) as (o' & n' & -> & Hcalls & Huser & Hseen)
      end.
      cbn [seenChanges calls user] in *.
      rewrite unseen_add in Hcalls, Huser by done.
      exists o', n'. split; [done|]. split; [|split].
      * rewrite Hcalls. by rewrite <- app_assoc.
      * cbn [deliver snd]. by rewrite Hu.
      * intros k'. cbn [map fst]. rewrite (Set_has_cons k (map fst rs)).
        rewrite Hseen, Set_has_add. by rewrite orb_assoc.
Qed.

Lemma pass_unseen (dbName : string) (o : Observer)
    (f : Faults) (h : Host) :
  log_ok h dbName → is_Some (store_of h dbName "changeLog") →
  never_throws callback → open_fault f = false → tx_fault f = None →
  let pass := onNewRecord_pollForChanges callback dbName o f h in
  let new := unseen (seenChanges o) (changeLog_of h dbName) in
  calls pass.1.1 = calls o ++ new
  ∧ deliver new (user o) = inr (user pass.1.1)
  ∧ (∀ k, Set_has (seenChanges pass.1.1) k
          = Set_has (seenChanges o) k
            || Set_has (map fst (changeLog_of h dbName)) k)
  ∧ pass.1.2 = true.
Proof.
  intros Hok [os Hos] Hcb Hopen Htx. cbn zeta.
  split; [|split; [|split]];
    rewrite onNewRecord_pass, Hopen; cbn zeta; rewrite Hos;
    assert (records os = changeLog_of h dbName) as Hrecs
      by (unfold changeLog_of, records_of; by rewrite Hos);
    (destruct (poll_cursor_unseen (records os) o f
                 (connect dbName (found h dbName) h) dbName
                 (objectStores (found h dbName)) 0)
       as (o' & n' & -> & Hcalls & Huser & Hseen);
     [intros k; unfold hits; by rewrite Htx|done|
      rewrite Hrecs; by apply ascending_NoDup, log_ok_ascending|]);
    rewrite tx_finish_active, no_tx_fault_commits by done; cbn [fst snd];
    rewrite <- ?Hrecs; done.
Qed.

(** X11. What a pass delivers.  When nothing fails and the callback does
    not throw, a pass of either notifier calls the callback on exactly
    the entries of the log whose id is not in [seenChanges], in the
    order of the log and threading the caller's state through the calls,
    marks the ids of all the log's entries as seen, and schedules the
    next pass. *)
Theorem pass_delivers_the_unseen (dbName : string) (o : Observer)
    (f : Faults) (h : Host) :
  log_ok h dbName → is_Some (store_of h dbName "changeLog") →
  never_throws callback → open_fault f = false → tx_fault f = None →
  let pass := onNewRecord_pollForChanges callback dbName o f h in
  let passWithLog := onNewRecordWithLog_pollForChanges callback dbName o f h in
  let new := unseen (seenChanges o) (changeLog_of h dbName) in
  calls pass.1.1 = calls o ++ new
  ∧ deliver new (user o) = inr (user pass.1.1)
  ∧ (∀ k, Set_has (seenChanges pass.1.1) k
          = Set_has (seenChanges o) k
            || Set_has (map fst (changeLog_of h dbName)) k)
  ∧ pass.1.2 = true
  ∧ passWithLog.1 = pass.1.
Proof.
  intros Hok Hstore Hcb Hopen Htx. cbn zeta.
  destruct (pass_unseen dbName o f h Hok Hstore Hcb Hopen Htx)
    as (Hcalls & Huser & Hseen & Hnext).
  split; [exact Hcalls|]. split; [exact Huser|]. split; [exact Hseen|].
  split; [exact Hnext|]. apply passes_agree.
Qed.

Lemma filter_none {A : Type} (p : A → bool) (l : list A) :
  (∀ x, In x l → p x = false) → List.filter p l = [].
Proof.
  induction l as [|a l IH]; [done|]. intros Hall. cbn [List.filter].
  rewrite (Hall a) by (by left). apply IH. intros x Hx. apply Hall. by right.
Qed.

Lemma filter_every {A : Type} (p : A → bool) (l : list A) :
  (∀ x, In x l → p x = true) → List.filter p l = l.
Proof.
  induction l as [|a l IH]; [done|]. intros Hall. cbn [List.filter].
  rewrite (Hall a) by (by left). f_equal. apply IH. intros x Hx. apply Hall. by right.
Qed.

Lemma Set_has_key_of (rs : list Record_) (r : Record_) :
  In r rs → numeric r → Set_has (map fst rs) r.1 = true.
Proof.
  intros Hin [n Hn]. rewrite Hn. cbn [Set_has]. apply existsb_exists.
  exists (KNumber n). split; [|apply key_eqb_refl].
  rewrite <- Hn. by apply (in_map fst).
Qed.

Lemma Set_has_above (g n : Z) (rs : list Record_) :
  Forall (below g) rs → g ≤ n → Set_has (map fst rs) (KNumber n) = false.
Proof.
  intros Hbelow Hn. cbn [Set_has].
  induction Hbelow as [|r rs (m & Hm & Hlt) _ IH]; [done|].
  cbn [map existsb]. rewrite IH, orb_false_r, Hm.
  apply key_eqb_ne. intros [= ->]. lia.
Qed.

Lemma entries_from_keys (g : Z) (ws : list Write) :
  Forall (λ r, ∃ n, r.1 = KNumber n ∧ g ≤ n) (entries_from g ws).
Proof.
  revert g. induction ws as [|[[s k] v] ws IH]; intros g; cbn [entries_from];
    constructor.
  - exists g. split; [done|lia].
  - eapply Forall_impl; [apply IH|]. intros r (n & Hn & Hle). exists n. split; [done|lia].
Qed.

Lemma log_ok_below (h : Host) (dbName : string) :
  log_ok h dbName → Forall (below (next_id h dbName)) (changeLog_of h dbName).
Proof.
  intros Hok. unfold next_id, changeLog_of, records_of.
  destruct (store_of h dbName "changeLog") as [os|] eqn:Hos; [|constructor].
  by destruct (Hok os Hos) as (_ & _ & Hbelow & _).
Qed.

(** X12. An observer hears of later writes in its next pass.  After a
    first pass that nothing disturbed, and writes that all resolved, the
    next undisturbed pass calls the callback on one entry per write, in
    the order of the writes, and on nothing else. *)
Theorem next_pass_delivers_the_new_writes (dbName : string) (u : U)
    (ws : list (Write * Faults)) (f1 f2 : Faults) (h h2 : Host) :
  log_ok h dbName → is_Some (store_of h dbName "changeLog") →
  never_throws callback →
  open_fault f1 = false → tx_fault f1 = None →
  open_fault f2 = false → tx_fault f2 = None →
  writes dbName ws h = Some h2 →
  let first := onNewRecord_pollForChanges callback dbName (new_observer u) f1 h in
  let second := onNewRecord_pollForChanges callback dbName first.1.1 f2 h2 in
  calls first.1.1 = changeLog_of h dbName
  ∧ calls second.1.1
    = calls first.1.1 ++ entries_from (next_id h dbName) (map fst ws)
  ∧ second.1.2 = true
  ∧ onNewRecord callback dbName u [(f1, h); (f2, h2)] = second.1.1.
Proof.
  intros Hok Hstore Hcb Hopen1 Htx1 Hopen2 Htx2 Hwrites. cbn zeta.
  destruct (pass_unseen dbName (new_observer u) f1 h Hok Hstore Hcb Hopen1 Htx1)
    as (Hcalls1 & _ & Hseen1 & Hnext1).
  cbn zeta in *. cbn [calls seenChanges new_observer app] in Hcalls1, Hseen1.
  assert (calls (onNewRecord_pollForChanges callback dbName (new_observer u) f1 h).1.1
          = changeLog_of h dbName) as Hfirst.
  { rewrite Hcalls1. apply filter_every. intros r _. by rewrite Set_has_empty. }
  destruct (writes_log dbName ws h h2 Hok Hwrites) as (Hlog2 & Hok2 & Hsome2).
  assert (is_Some (store_of h2 dbName "changeLog")) as Hstore2.
  { destruct ws as [|w ws]; [|by apply Hsome2].
    cbn in Hwrites. by injection Hwrites as <-. }
  set (o1 := (onNewRecord_pollForChanges callback dbName (new_observer u) f1 h).1.1) in *.
  destruct (pass_unseen dbName o1 f2 h2 Hok2 Hstore2 Hcb Hopen2 Htx2)
    as (Hcalls2 & _ & _ & Hnext2).
  cbn zeta in *.
  assert (unseen (seenChanges o1) (changeLog_of h2 dbName)
          = entries_from (next_id h dbName) (map fst ws)) as Hnew.
  { rewrite Hlog2. unfold unseen. rewrite List.filter_app.
    rewrite filter_none, filter_every; [done| |].
    - intros r Hr. rewrite Hseen1, Set_has_empty. cbn [orb].
      destruct (proj1 (List.Forall_forall _ _)
                  (entries_from_keys (next_id h dbName) (map fst ws)) r Hr)
        as (n & -> & Hn).
      rewrite (Set_has_above (next_id h dbName)); [done| |done].
      by apply log_ok_below.
    - intros r Hr. rewrite Hseen1, Set_has_empty. cbn [orb].
      rewrite Set_has_key_of; [done|done|].
      by apply (proj1 (List.Forall_forall _ _) (log_ok_numeric h dbName Hok)). }
  split; [exact Hfirst|]. split; [by rewrite Hcalls2, Hnew|]. split; [exact Hnext2|].
  unfold onNewRecord. cbn [polling].
  fold o1 in Hnext1.
  destruct (onNewRecord_pollForChanges callback dbName (new_observer u) f1 h)
    as [[o1' s1] h1'] eqn:Hp1. cbn [fst snd] in *. subst o1 s1.
  destruct (onNewRecord_pollForChanges callback dbName o1' f2 h2) as [[o2 s2] h2'].
  cbn [fst snd] in *. by subst s2.
Qed.

End Deliveries.

(** ** A callback that throws *)

Section CallbackThrows.

Context {U : Type}.
Variable callback : StoredValue → U → JsError + U.

#[local] Abbreviation handler := (pollForChanges_onsuccess callback).

Lemma poll_cursor_throw (before after : list Record_) (k : IDBValidKey)
    (v : StoredValue) (e : JsError) (u1 : U) (o : Observer) (f : Faults)
    h name stores n :
  no_request_fault f →
  NoDup (map fst (before ++ [(k, v)])) →
  Forall (λ r, Set_has (seenChanges o) r.1 = false) (before ++ [(k, v)]) →
  deliver callback before (user o) = inr u1 → callback v u1 = inl e →
  ∃ o' n',
    cursor_events handler (before ++ (k, v) :: after) o f (active h name stores n)
      = (o', handler_threw e (active h name stores n'))
    ∧ calls o' = calls o ++ before ++ [(k, v)]
    ∧ user o' = u1.
Proof.
  intros Hf. revert o n.
  induction before as [|[k0 v0] before IH]; intros o n Hnd Hnew Hdel Hthrow;
    cbn [app cursor_events]; rewrite tx_request_active, Hf; cbn [negb];
    rewrite handler_step;
    inversion Hnew as [|? ? Hk Hrest]; subst; cbn [fst] in Hk; rewrite Hk.
  - cbn [deliver] in Hdel. injection Hdel as <-. rewrite Hthrow.
    eexists _, _. by repeat split.
  - cbn [deliver snd] in Hdel.
    destruct (callback v0 (user o)) as [e0|u0] eqn:Hu0; [done|].
    cbn [app map fst] in Hnd. apply NoDup_cons in Hnd as [Hnot Hnd].
    match goal with
    | |- context [cursor_events _ _ ?o1 _ _] =>
        destruct (IH o1 (S n) Hnd) as (o' & n' & -> & Hcalls & Huser); [|done|done|]
    end.
    { cbn [seenChanges]. apply Forall_forall. intros r Hr.
      apply Set_has_add_other.
      - intros ->. apply Hnot. apply list_elem_of_In.
        apply (in_map fst). by apply list_elem_of_In.
      - by eapply (proj1 (Forall_forall _ _) Hrest). }
    exists o', n'. split; [done|]. split; [|done].
    rewrite Hcalls. cbn [calls]. by rewrite <- app_assoc.
Qed.

(** X13. A callback that throws ends the observer.  When the callback
    throws on an entry of the log, the entries before it having been
    delivered, nobody catches the exception: the pass has called the
    callback on the entries up to that one and on none after it, the
    transaction is aborted, no next pass is scheduled, and the entries
    after it are never delivered, whatever is written later. *)
Theorem callback_throw_ends_the_observer (dbName : string) (u u1 : U)
    (before after : list Record_) (k : IDBValidKey) (v : StoredValue)
    (e : JsError) (f : Faults) (h : Host) :
  log_ok h dbName →
  changeLog_of h dbName = before ++ (k, v) :: after →
  open_fault f = false → no_request_fault f →
  deliver callback before u = inr u1 → callback v u1 = inl e →
  let pass := onNewRecord_pollForChanges callback dbName (new_observer u) f h in
  calls pass.1.1 = before ++ [(k, v)]
  ∧ user pass.1.1 = u1
  ∧ pass.1.2 = false
  ∧ uncaught pass.2 = uncaught h ++ [e]
  ∧ aborted h pass.2
  ∧ ∀ later,
      calls (onNewRecord callback dbName u ((f, h) :: later)) = before ++ [(k, v)]
      ∧ calls (onNewRecordWithLog callback dbName u ((f, h) :: later))
        = before ++ [(k, v)].
Proof.
  intros Hok Hlog Hopen Hf Hdel Hthrow. cbn zeta.
  assert (∃ os, store_of h dbName "changeLog" = Some os ∧ records os = before ++ (k, v) :: after)
    as (os & Hos & Hrecs).
  { unfold changeLog_of, records_of in Hlog.
    destruct (store_of h dbName "changeLog") as [os|]; [by exists os|].
    by destruct before. }
  assert (NoDup (map fst (before ++ [(k, v)]))) as Hnd.
  { pose proof (ascending_NoDup _ (log_ok_ascending h dbName Hok)) as Hall.
    rewrite Hlog in Hall.
    replace (before ++ (k, v) :: after) with ((before ++ [(k, v)]) ++ after) in Hall
      by (by rewrite <- app_assoc).
    rewrite map_app in Hall. by apply NoDup_app in Hall as [? _]. }
  destruct (poll_cursor_throw before after k v e u1 (new_observer u) f
              (connect dbName (found h dbName) h) dbName
              (objectStores (found h dbName)) 0 Hf Hnd)
    as (o' & n' & Hcur & Hcalls & Huser); [|done|done|].
  { apply Forall_forall. intros r _. apply Set_has_empty. }
  assert (onNewRecord_pollForChanges callback dbName (new_observer u) f h
          = (o', false,
             signal (TxAbort AbortError)
               (report_uncaught e (connect dbName (found h dbName) h)))) as Hpass.
  { rewrite onNewRecord_pass, Hopen. cbn zeta. rewrite Hos, Hrecs, Hcur.
    by rewrite tx_finish_threw. }
  rewrite Hpass. cbn [fst snd].
  split; [exact Hcalls|]. split; [exact Huser|]. split; [done|]. split; [done|].
  split; [by eexists|].
  intros later. rewrite notifiers_agree.
  assert (calls (onNewRecord callback dbName u ((f, h) :: later)) = before ++ [(k, v)])
    as Hlife by (unfold onNewRecord; cbn [polling]; by rewrite Hpass).
  by split.
Qed.

(** X14. The two notifiers differ in what they print and in nothing
    else.  A pass of [onNewRecordWithLog] leaves the observer and the
    engine as the same pass of [onNewRecord] does, but for one line that
    it prints when the pass fails at the open or by a failed request;
    [onNewRecord] never prints.  Over any sequence of passes both end
    with the same observer. *)
Theorem notifiers_differ_in_what_they_print (dbName : string) (o : Observer)
    (f : Faults) (h : Host) :
  let pass := onNewRecord_pollForChanges callback dbName o f h in
  let passWithLog := onNewRecordWithLog_pollForChanges callback dbName o f h in
  passWithLog.1 = pass.1
  ∧ console pass.2 = console h
  ∧ (passWithLog.2 = pass.2
     ∨ (pass.1.2 = false
        ∧ ∃ msg e, passWithLog.2 = console_error msg (Some e) pass.2))
  ∧ ∀ u world,
      onNewRecordWithLog callback dbName u world = onNewRecord callback dbName u world.
Proof.
  cbn zeta. split; [apply passes_agree|].
  split; [|split; [|intros; apply notifiers_agree]];
    rewrite ?onNewRecordWithLog_pass, onNewRecord_pass;
    (destruct (open_fault f); [cbn [fst snd]; eauto 6|]); cbn zeta;
    (destruct (store_of h dbName "changeLog") as [os|]; [|cbn [fst snd]; eauto]).
  - pose proof (cursor_events_untouched (pollForChanges_onsuccess callback)
                  (records os) o f (connect dbName (found h dbName) h) dbName
                  (objectStores (found h dbName)) 0
                  (poll_handler_untouched callback)) as Hcur.
    destruct (cursor_events _ _ _ _ _) as [o' t2]. cbn [snd] in Hcur.
    destruct Hcur as [n|e n|e n].
    + rewrite tx_finish_active. by destruct (commits f).
    + by rewrite tx_finish_doomed.
    + by rewrite tx_finish_threw.
  - destruct (cursor_events _ _ _ _ _) as [o' t2].
    destruct (tx_finish f t2) as [[[| |e]|] t3]; cbn [fst snd]; eauto 6.
Qed.

End CallbackThrows.

(** ** The change log stays sound *)

(** How the [changeLog] store of a database may have changed: it is
    sound, and its key generator has not gone back. *)
Definition sound_after (c c' : option IDBObjectStore) : Prop :=
  (∀ os, c' = Some os → log_store_ok os)
  ∧ from_option keyGenerator 1 c ≤ from_option keyGenerator 1 c'.

Definition log_step (h h' : Host) (name : string) : Prop :=
  log_ok h' name ∧ next_id h name ≤ next_id h' name.

Lemma log_step_intro (h h' : Host) (name : string) :
  sound_after (store_of h name "changeLog") (store_of h' name "changeLog") →
  log_step h h' name.
Proof. intros [Hok Hle]. split; [exact Hok|exact Hle]. Qed.

Lemma log_step_same (h h' : Host) (name : string) :
  log_ok h name →
  store_of h' name "changeLog" = store_of h name "changeLog" →
  log_step h h' name.
Proof.
  intros Hok Heq. apply log_step_intro. rewrite Heq. split; [exact Hok|lia].
Qed.

Lemma sound_after_opened (dbName storeName : string) (h : Host) :
  log_ok h dbName →
  storeName ≠ "changeLog" ∨ is_Some (store_of h dbName "changeLog") →
  sound_after (store_of h dbName "changeLog")
    (objectStores (opened dbName storeName h) !! "changeLog").
Proof.
  intros Hok Hside. unfold opened.
  destruct (upgraded_lookup h dbName storeName "changeLog")
    as [-> | (Hnone & [[Hs _] | (_ & _ & ->)])].
  - split; [exact Hok|lia].
  - exfalso. destruct Hside as [Hside|[os Hside]]; congruence.
  - rewrite Hnone. split; [|done].
    intros os [= <-]. apply log_store_ok_created.
Qed.

Lemma ascending_filter (p : Record_ → bool) (rs : list Record_) :
  ascending rs → ascending (List.filter p rs).
Proof.
  unfold ascending. induction 1 as [|a rs _ IH Ha]; cbn [List.filter]; [constructor|].
  destruct (p a); [|exact IH].
  constructor; [exact IH|].
  apply List.Forall_forall. intros r Hr. apply List.filter_In in Hr as [Hr _].
  by apply (proj1 (List.Forall_forall _ _) Ha).
Qed.

Lemma log_store_ok_filtered (p : Record_ → bool) (os : IDBObjectStore) :
  log_store_ok os → log_store_ok (with_records (List.filter p (records os)) os).
Proof.
  intros (Hkp & Hauto & Hbelow & Hasc). repeat split; cbn; try done.
  - apply List.Forall_forall. intros r Hr. apply List.filter_In in Hr as [Hr _].
    by apply (proj1 (List.Forall_forall _ _) Hbelow).
  - by apply ascending_filter.
Qed.

Lemma sound_after_filtered (p : Record_ → bool) (c : option IDBObjectStore)
    (os : IDBObjectStore) :
  sound_after c (Some os) →
  sound_after c (Some (with_records (List.filter p (records os)) os)).
Proof.
  intros [Hok Hle]. split; [|exact Hle].
  intros os' [= <-]. by apply log_store_ok_filtered, Hok.
Qed.

Lemma sound_after_added (e : ChangeLogEntry) (c : option IDBObjectStore)
    (os : IDBObjectStore) :
  sound_after c (Some os) → sound_after c (Some (added os e)).
Proof.
  intros [Hok Hle]. split.
  - intros os' [= <-]. by apply log_store_ok_added, Hok.
  - cbn in *. lia.
Qed.

Lemma store_of_found_connect (h : Host) (dbName name s : string) :
  store_of (connect dbName (found h dbName) h) name s = store_of h name s.
Proof.
  destruct (decide (dbName = name)) as [<-|Hne].
  - by rewrite store_of_connect, found_lookup.
  - by rewrite store_of_connect_ne.
Qed.

Lemma store_of_console_error msg detail h name s :
  store_of (console_error msg detail h) name s = store_of h name s.
Proof. done. Qed.

Lemma untouched_finish_store (f : Faults) (h : Host) (dbName name s : string)
    (t : Task) :
  untouched (connect dbName (found h dbName) h) dbName (objectStores (found h dbName)) t →
  store_of (task_host (tx_finish f t).2) name s = store_of h name s.
Proof.
  intros [n|e n|e n].
  - rewrite tx_finish_active. destruct (commits f); cbn [snd task_host idle];
      rewrite store_of_signal; [|apply store_of_found_connect].
    fold (live dbName (objectStores (found h dbName)) n).
    destruct (decide (dbName = name)) as [<-|Hne].
    + by rewrite store_of_commit, found_lookup.
    + rewrite store_of_commit_ne by done. apply store_of_found_connect.
  - rewrite tx_finish_doomed. cbn [snd task_host idle].
    rewrite store_of_signal. apply store_of_found_connect.
  - rewrite tx_finish_threw. cbn [snd task_host idle].
    rewrite store_of_signal, store_of_report_uncaught. apply store_of_found_connect.
Qed.

Lemma condemned_finish_store (f : Faults) (h : Host) (t : Task) (name s : string) :
  condemned h t →
  store_of (task_host (tx_finish f t).2) name s = store_of h name s.
Proof.
  intros [name' stores e n|name' stores e n].
  - rewrite tx_finish_doomed. cbn [fst snd task_host idle]. apply store_of_signal.
  - rewrite tx_finish_threw. cbn [fst snd task_host idle].
    by rewrite store_of_signal, store_of_report_uncaught.
Qed.

(** The [changeLog] store of a database after a call that got as far as
    the open of [openDb]: the store the open found or created, or the
    store [stores] has for it when the call's transaction committed. *)
Lemma log_step_opened (dbName storeName : string) (h h' : Host) (name : string) :
  log_ok h name →
  storeName ≠ "changeLog" ∨ is_Some (store_of h dbName "changeLog") →
  (∀ s, store_of h' name s
        = store_of (connect dbName (opened dbName storeName h) h) name s) →
  log_step h h' name.
Proof.
  intros Hok Hside Hsame. destruct (decide (dbName = name)) as [<-|Hne].
  - apply log_step_intro. rewrite Hsame, store_of_connect.
    by apply sound_after_opened.
  - apply log_step_same; [done|]. by rewrite Hsame, store_of_connect_ne.
Qed.

Lemma log_step_committed (dbName storeName : string) (h : Host) (name : string)
    (stores : gmap string IDBObjectStore) (n : nat) (h' : Host) :
  log_ok h name →
  (∀ s, store_of h' name s
        = store_of (commit (live dbName stores n)
                      (connect dbName (opened dbName storeName h) h)) name s) →
  sound_after (store_of h dbName "changeLog") (stores !! "changeLog") →
  log_step h h' name.
Proof.
  intros Hok Hsame Hsound. destruct (decide (dbName = name)) as [<-|Hne].
  - apply log_step_intro. by rewrite Hsame, store_of_commit.
  - apply log_step_same; [done|].
    by rewrite Hsame, store_of_commit_ne, store_of_connect_ne.
Qed.

Ltac other_database :=
  unfold ended; cbn [snd];
  repeat first
    [ rewrite store_of_db_close
    | rewrite store_of_signal
    | rewrite store_of_report_uncaught
    | rewrite store_of_console_error
    | rewrite store_of_commit_ne by done
    | rewrite store_of_connect_ne by done ].

Lemma writeJson_other_database (dbName storeName : string) (key : IDBValidKey)
    (value : JsonValue) (f : Faults) (h : Host) (name s : string) :
  dbName ≠ name →
  store_of (writeJson dbName storeName key value f h).2 name s = store_of h name s.
Proof.
  intros Hne. rewrite writeJson_run.
  destruct (open_fault f); [done|].
  destruct (1 <? db_version (current h dbName))%N; [done|]. cbn zeta.
  destruct (objectStores (opened dbName storeName h) !! storeName) as [os|];
    [|by other_database].
  destruct (objectStores (opened dbName storeName h) !! "changeLog") as [oc0|];
    [|by other_database].
  destruct (keyPath os); [destruct (commits f) eqn:Hc; unfold ended; rewrite Hc; by other_database|].
  destruct (hits f 0); [by other_database|].
  destruct (negb _); [destruct (commits f) eqn:Hc; unfold ended; rewrite Hc; by other_database|].
  destruct (hits f 1); [by other_database|].
  destruct (_ || _); [by other_database|].
  destruct (commits f); by other_database.
Qed.

Lemma readJson_other_database (dbName storeName : string) (key : IDBValidKey)
    (f : Faults) (h : Host) (name s : string) :
  dbName ≠ name →
  store_of (readJson dbName storeName key f h).2 name s = store_of h name s.
Proof.
  intros Hne. rewrite readJson_run.
  destruct (open_fault f); [done|].
  destruct (1 <? db_version (current h dbName))%N; [done|]. cbn zeta.
  destruct (objectStores (opened dbName storeName h) !! storeName) as [os|];
    [|by other_database].
  destruct (hits f 0); [by other_database|].
  destruct (commits f); by other_database.
Qed.

Lemma deleteKey_other_database (dbName storeName : string) (key : IDBValidKey)
    (f : Faults) (h : Host) (name s : string) :
  dbName ≠ name →
  store_of (deleteKey dbName storeName key f h).2 name s = store_of h name s.
Proof.
  intros Hne. rewrite deleteKey_run.
  destruct (open_fault f); [done|].
  destruct (1 <? db_version (current h dbName))%N; [done|]. cbn zeta.
  destruct (objectStores (opened dbName storeName h) !! storeName) as [os|];
    [|by other_database].
  destruct (hits f 0); [by other_database|].
  destruct (commits f); by other_database.
Qed.

Lemma log_step_at_opened (dbName storeName : string) (h h' : Host) :
  log_ok h dbName →
  storeName ≠ "changeLog" ∨ is_Some (store_of h dbName "changeLog") →
  store_of h' dbName "changeLog"
  = store_of (connect dbName (opened dbName storeName h) h) dbName "changeLog" →
  log_step h h' dbName.
Proof.
  intros Hok Hside Hsame. apply log_step_intro.
  rewrite Hsame, store_of_connect. by apply sound_after_opened.
Qed.

Lemma log_step_at_committed (dbName storeName : string) (h h' : Host)
    (stores : gmap string IDBObjectStore) (n : nat) :
  store_of h' dbName "changeLog"
  = store_of (commit (live dbName stores n)
                (connect dbName (opened dbName storeName h) h)) dbName "changeLog" →
  sound_after (store_of h dbName "changeLog") (stores !! "changeLog") →
  log_step h h' dbName.
Proof.
  intros Hsame Hsound. apply log_step_intro. by rewrite Hsame, store_of_commit.
Qed.

Ltac at_opened :=
  apply (log_step_at_opened _ _ _ _ ltac:(eassumption) ltac:(eassumption));
  cbn [snd]; by rewrite ?store_of_db_close, ?store_of_signal.

Lemma readJson_log_step (dbName storeName : string) (key : IDBValidKey)
    (f : Faults) (h : Host) (name : string) :
  log_ok h name →
  storeName ≠ "changeLog" ∨ is_Some (store_of h dbName "changeLog") →
  log_step h (readJson dbName storeName key f h).2 name.
Proof.
  intros Hok Hside. destruct (decide (dbName = name)) as [<-|Hne]; cycle 1.
  { apply log_step_same; [done|]. by apply readJson_other_database. }
  rewrite readJson_run.
  destruct (open_fault f); [by apply log_step_same|].
  destruct (1 <? db_version (current h dbName))%N; [by apply log_step_same|].
  cbn zeta.
  destruct (objectStores (opened dbName storeName h) !! storeName) as [os|];
    [|at_opened].
  destruct (hits f 0); [at_opened|].
  destruct (commits f); [|at_opened].
  apply (log_step_at_committed dbName storeName h _
           (objectStores (opened dbName storeName h)) 1).
  - cbn [snd]. by rewrite store_of_db_close, store_of_signal.
  - by apply sound_after_opened.
Qed.

Lemma deleteKey_log_step (dbName storeName : string) (key : IDBValidKey)
    (f : Faults) (h : Host) (name : string) :
  log_ok h name →
  storeName ≠ "changeLog" ∨ is_Some (store_of h dbName "changeLog") →
  log_step h (deleteKey dbName storeName key f h).2 name.
Proof.
  intros Hok Hside. destruct (decide (dbName = name)) as [<-|Hne]; cycle 1.
  { apply log_step_same; [done|]. by apply deleteKey_other_database. }
  rewrite deleteKey_run.
  destruct (open_fault f); [by apply log_step_same|].
  destruct (1 <? db_version (current h dbName))%N; [by apply log_step_same|].
  cbn zeta.
  pose proof (sound_after_opened dbName storeName h Hok Hside) as Hsound.
  destruct (objectStores (opened dbName storeName h) !! storeName) as [os|] eqn:Hos;
    [|at_opened].
  destruct (hits f 0); [at_opened|].
  destruct (commits f); [|at_opened].
  apply (log_step_at_committed dbName storeName h _
           (<[storeName := with_records (records_delete key (records os)) os]>
              (objectStores (opened dbName storeName h))) 1).
  - cbn [snd]. by rewrite store_of_db_close, store_of_signal.
  - destruct (decide (storeName = "changeLog")) as [->|Hstore].
    + rewrite lookup_insert_eq. rewrite Hos in Hsound.
      by apply sound_after_filtered.
    + by rewrite lookup_insert_ne.
Qed.

Lemma writeJson_log_step (dbName storeName : string) (key : IDBValidKey)
    (value : JsonValue) (f : Faults) (h : Host) (name : string) :
  log_ok h name →
  storeName ≠ "changeLog" ∨ is_Some (store_of h dbName "changeLog") →
  log_step h (writeJson dbName storeName key value f h).2 name.
Proof.
  intros Hok Hside. destruct (decide (dbName = name)) as [<-|Hne]; cycle 1.
  { apply log_step_same; [done|]. by apply writeJson_other_database. }
  rewrite writeJson_run.
  destruct (open_fault f); [by apply log_step_same|].
  destruct (1 <? db_version (current h dbName))%N; [by apply log_step_same|].
  cbn zeta.
  pose proof (sound_after_opened dbName storeName h Hok Hside) as Hsound.
  destruct (objectStores (opened dbName storeName h) !! storeName) as [os|] eqn:Hos;
    [|at_opened].
  destruct (objectStores (opened dbName storeName h) !! "changeLog") as [oc0|] eqn:Hoc0;
    [|at_opened].
  assert (∀ n h',
            store_of h' dbName "changeLog"
            = store_of (ended f dbName (objectStores (opened dbName storeName h)) n
                          (connect dbName (opened dbName storeName h) h))
                dbName "changeLog" →
            log_step h h' dbName) as Hunchanged.
  { intros n h' Hh'. unfold ended in Hh'. destruct (commits f).
    - apply (log_step_at_committed dbName storeName h h'
               (objectStores (opened dbName storeName h)) n).
      + by rewrite Hh', store_of_signal.
      + by rewrite Hoc0.
    - apply (log_step_at_opened dbName storeName h h' Hok Hside).
      by rewrite Hh', store_of_signal. }
  destruct (keyPath os) eqn:Hkp; [by apply (Hunchanged 0%nat)|].
  destruct (hits f 0); [at_opened|].
  assert (storeName ≠ "changeLog") as Hstore.
  { intros ->. rewrite Hoc0 in Hos. injection Hos as <-.
    destruct Hsound as [Hsound _]. destruct (Hsound oc0 eq_refl) as (Hid & _).
    congruence. }
  rewrite decide_False by done.
  set (stores := <[storeName := put_into key (Plain value) os]> _).
  assert (stores !! "changeLog" = Some oc0) as Hlog
    by (subst stores; by rewrite lookup_insert_ne).
  destruct (negb (autoIncrement oc0)).
  { unfold ended. destruct (commits f); [|at_opened].
    apply (log_step_at_committed dbName storeName h _ stores 1).
    - cbn [snd]. by rewrite store_of_signal.
    - by rewrite Hlog. }
  destruct (hits f 1); [at_opened|].
  destruct (_ || _); [at_opened|].
  destruct (commits f); [|at_opened].
  apply (log_step_at_committed dbName storeName h _
           (<["changeLog" := added oc0 (log_entry storeName key value)]> stores) 2).
  - cbn [snd]. by rewrite store_of_db_close, store_of_signal.
  - rewrite lookup_insert_eq. by apply sound_after_added.
Qed.

Lemma readMultipleRecords_stores (dbName storeName : string) (filterFn : FilterFn)
    (f : Faults) (h : Host) (name s : string) :
  store_of (readMultipleRecords dbName storeName filterFn f h).2 name s
  = store_of h name s.
Proof.
  rewrite readMultipleRecords_run.
  destruct (open_fault f); [done|]. cbn zeta.
  destruct (store_of h dbName storeName) as [os|]; cbn [snd]; cycle 1.
  { rewrite store_of_report_uncaught. apply store_of_found_connect. }
  pose proof (cursor_events_untouched (readMultipleRecords_onsuccess filterFn)
                (records os) {| scan_records := []; scan_promise := Pending |} f
                (connect dbName (found h dbName) h) dbName
                (objectStores (found h dbName)) 0
                (read_handler_untouched filterFn)) as Hcur.
  destruct (cursor_events _ _ _ _ _) as [sc t2]. cbn [snd] in Hcur.
  pose proof (untouched_finish_store f h dbName name s t2 Hcur) as Hfin.
  destruct (tx_finish f t2) as [[[| |e]|] t3]; cbn [snd] in *;
    rewrite ?store_of_console_error; exact Hfin.
Qed.

Lemma deleteMultipleRecords_log_step (dbName storeName : string)
    (filterFn : FilterFn) (f : Faults) (h : Host) (name : string) :
  log_ok h name →
  log_step h (deleteMultipleRecords dbName storeName filterFn f h).2 name.
Proof.
  intros Hok. rewrite deleteMultipleRecords_run.
  destruct (open_fault f); [by apply log_step_same|]. cbn zeta.
  destruct (store_of h dbName storeName) as [os|] eqn:Hos; cbn [snd]; cycle 1.
  { apply log_step_same; [done|].
    rewrite store_of_report_uncaught. apply store_of_found_connect. }
  set (h1 := connect dbName (found h dbName) h).
  set (tx := {| tx_db := _; tx_scope := _; tx_mode := _ |}).
  assert (in_scope storeName tx) as Hin by (apply in_scope_here; cbn; auto).
  assert (objectStores (found h dbName) !! storeName = Some os) as Hfound
    by (by rewrite found_lookup).
  pose proof (delete_cursor_pending tx storeName filterFn (records os) f h1 dbName
                (objectStores (found h dbName)) 0 os Hin eq_refl Hfound) as Hpending.
  destruct (delete_cursor_cases tx storeName filterFn (records os) f h1 dbName
              (objectStores (found h dbName)) 0 os Hin eq_refl Hfound)
    as [(Hp & _) | (Hp & Htot & stores' & n' & Ht & Hst & Hframe)];
    cbn zeta in Hpending;
    destruct (cursor_events _ _ _ _ _) as [p t2]; cbn [fst snd] in *; subst p.
  - specialize (Hpending eq_refl).
    pose proof (condemned_finish_store f h1 t2 name "changeLog" Hpending) as Hsame.
    apply log_step_same; [done|].
    destruct (tx_finish f t2) as [[[| |e]|] t3]; cbn [fst snd] in *;
      rewrite ?store_of_printed, Hsame; apply store_of_found_connect.
  - subst t2. rewrite tx_finish_active. fold (live dbName stores' n').
    destruct (commits f); cbn [fst snd idle task_host]; cycle 1.
    { apply log_step_same; [done|]. rewrite store_of_signal.
      apply store_of_found_connect. }
    destruct (decide (dbName = name)) as [<-|Hne]; cycle 1.
    { apply log_step_same; [done|].
      rewrite store_of_signal, store_of_commit_ne by done.
      apply store_of_found_connect. }
    apply log_step_intro. rewrite store_of_signal, store_of_commit.
    destruct (decide (storeName = "changeLog")) as [->|Hstore].
    + rewrite Hst, Hos, delete_matching_filter.
      apply sound_after_filtered. split; [|lia].
      intros os' [= <-]. by apply Hok.
    + rewrite Hframe, found_lookup by done. split; [exact Hok|lia].
Qed.

Section LogInvariant.

Context {U : Type}.
Variable callback : StoredValue → U → JsError + U.

Lemma pass_stores (dbName : string) (o : Observer) (f : Faults) (h : Host)
    (name s : string) :
  store_of (onNewRecord_pollForChanges callback dbName o f h).2 name s
  = store_of h name s
  ∧ store_of (onNewRecordWithLog_pollForChanges callback dbName o f h).2 name s
    = store_of h name s.
Proof.
  rewrite onNewRecord_pass, onNewRecordWithLog_pass.
  destruct (open_fault f); [done|]. cbn zeta.
  destruct (store_of h dbName "changeLog") as [os|]; cbn [snd]; cycle 1.
  { rewrite store_of_report_uncaught. split; apply store_of_found_connect. }
  pose proof (cursor_events_untouched (pollForChanges_onsuccess callback)
                (records os) o f
                (connect dbName (found h dbName) h) dbName
                (objectStores (found h dbName)) 0
                (poll_handler_untouched callback)) as Hcur.
  destruct (cursor_events _ _ _ _ _) as [o' t2]. cbn [snd] in Hcur.
  pose proof (untouched_finish_store f h dbName name s t2 Hcur) as Hfin.
  destruct (tx_finish f t2) as [[[| |e]|] t3]; cbn [snd] in *;
    rewrite ?store_of_console_error; by split.
Qed.

(** X15. The change log stays sound.  A database whose [changeLog] store
    is sound (key path [id], key generator on, ids ascending and below
    the generator) still has a sound one after any call of the library,
    whatever fails, and its key generator has not gone back, so that no
    id is ever handed out twice, even after entries have been deleted.
    For [writeJson], [readJson] and [deleteKey] this asks that the
    caller's store is not [changeLog] or that the log store is already
    there. *)
Theorem change_log_stays_sound (dbName storeName : string) (key : IDBValidKey)
    (value : JsonValue) (filterFn : FilterFn) (o : Observer) (f : Faults)
    (h : Host) (name : string) :
  log_ok h name →
  (storeName ≠ "changeLog" ∨ is_Some (store_of h dbName "changeLog") →
   log_step h (writeJson dbName storeName key value f h).2 name
   ∧ log_step h (readJson dbName storeName key f h).2 name
   ∧ log_step h (deleteKey dbName storeName key f h).2 name)
  ∧ log_step h (readMultipleRecords dbName storeName filterFn f h).2 name
  ∧ log_step h (deleteMultipleRecords dbName storeName filterFn f h).2 name
  ∧ log_step h (onNewRecord_pollForChanges callback dbName o f h).2 name
  ∧ log_step h (onNewRecordWithLog_pollForChanges callback dbName o f h).2 name.
Proof.
  intros Hok. split; [|split; [|split; [|split]]].
  - intros Hside. split; [|split].
    + by apply writeJson_log_step.
    + by apply readJson_log_step.
    + by apply deleteKey_log_step.
  - apply log_step_same; [done|]. apply readMultipleRecords_stores.
  - by apply deleteMultipleRecords_log_step.
  - apply log_step_same; [done|]. apply pass_stores.
  - apply log_step_same; [done|]. apply pass_stores.
Qed.

End LogInvariant.

(** ** A store named [changeLog] *)

Lemma opened_changeLog_lookup (dbName s : string) (h : Host) :
  databases h !! dbName = None →
  objectStores (opened dbName "changeLog" h) !! s
  = if decide (s = "changeLog") then Some (createObjectStore None false) else None.
Proof.
  intros Hnew. unfold opened, upgraded. rewrite current_absent by done.
  cbn [db_version no_database objectStores N.ltb N.compare].
  rewrite onupgradeneeded_lookup. cbn [objectStores]. rewrite lookup_empty.
  by destruct (decide (s = "changeLog")).
Qed.

Lemma put_into_keyPath k v os : keyPath (put_into k v os) = keyPath os.
Proof. unfold put_into. by rewrite bump_generator_keyPath. Qed.

(** X16. [writeJson] into a store named [changeLog].  On a database that
    does not exist yet, [openDb] creates the caller's store first, so
    that [changeLog] is created as a plain store, without key path or
    key generator.  The [put] of [writeJson] then succeeds and its [add]
    throws [DataError]: the promise is rejected, yet the transaction
    completes and the value is stored under the key.  From then on no
    [writeJson] on this database can resolve, whatever its store. *)
Theorem writeJson_into_the_log_store (dbName : string) (key : IDBValidKey)
    (value : JsonValue) (f : Faults) (h : Host) :
  databases h !! dbName = None → open_fault f = false → tx_fault f = None →
  let r := writeJson dbName "changeLog" key value f h in
  r.1 = Rejected DataError
  ∧ completed h r.2
  ∧ records_of r.2 dbName "changeLog" = [(key, Plain value)]
  ∧ ∀ s k v f', ∃ e, (writeJson dbName s k v f' r.2).1 = Rejected e.
Proof.
  intros Hnew Hopen Htx. cbn zeta.
  assert ((1 <? db_version (current h dbName))%N = false) as Hv
    by (by rewrite current_absent).
  set (os' := put_into key (Plain value) (createObjectStore None false)).
  set (stores := <["changeLog" := os']> (objectStores (opened dbName "changeLog" h))).
  assert (writeJson dbName "changeLog" key value f h
          = (Rejected DataError,
             signal TxComplete
               (commit (live dbName stores 1)
                  (connect dbName (opened dbName "changeLog" h) h)))) as Hrun.
  { rewrite writeJson_run, Hopen, Hv. cbn zeta.
    rewrite opened_changeLog_lookup, decide_True by done.
    cbn [keyPath createObjectStore].
    rewrite no_tx_fault_hits, decide_True by done.
    fold os'. unfold os' at 1. rewrite put_into_autoIncrement.
    cbn [autoIncrement createObjectStore negb]. unfold ended.
    by rewrite no_tx_fault_commits. }
  rewrite Hrun. cbn [fst snd].
  split; [done|]. split; [done|]. split.
  { rewrite records_of_signal, records_of_commit, decide_True by done.
    subst stores. rewrite lookup_insert_eq. cbn [from_option].
    subst os'. by rewrite put_into_records. }
  intros s k v f'.
  set (h2 := signal TxComplete _).
  assert (current h2 dbName = {| db_version := 1; objectStores := stores |}) as Hcur.
  { subst h2. rewrite current_signal, current_commit, current_connect.
    unfold opened. rewrite upgraded_version; [done|].
    rewrite current_absent by done. cbn. lia. }
  assert (opened dbName s h2 = {| db_version := 1; objectStores := stores |}) as Hop.
  { unfold opened. rewrite Hcur. by apply upgraded_again. }
  rewrite writeJson_run.
  destruct (open_fault f'); [by eexists|].
  rewrite Hcur. cbn [db_version]. rewrite N.ltb_irrefl. cbn zeta.
  rewrite Hop. cbn [objectStores].
  destruct (decide (s = "changeLog")) as [->|Hs]; cycle 1.
  { subst stores. rewrite lookup_insert_ne by done.
    rewrite opened_changeLog_lookup, decide_False by done. by eexists. }
  subst stores. rewrite lookup_insert_eq.
  assert (keyPath os' = None) as -> by (subst os'; by rewrite put_into_keyPath).
  destruct (hits f' 0); [by eexists|].
  rewrite ?decide_True by done. rewrite put_into_autoIncrement.
  assert (autoIncrement os' = false) as ->
    by (subst os'; by rewrite put_into_autoIncrement).
  cbn [negb]. by eexists.
Qed.

(** ** Writing twice under a key *)

Lemma records_put_put (k : IDBValidKey) (v1 v2 : StoredValue) (rs : list Record_) :
  records_put k v2 (records_put k v1 rs) = records_put k v2 rs.
Proof.
  induction rs as [|[k' v'] rs IH]; cbn [records_put].
  - by rewrite key_compare_refl.
  - destruct (key_compare k k') eqn:Hk; cbn [records_put].
    + by rewrite key_compare_refl.
    + by rewrite key_compare_refl.
    + by rewrite Hk, IH.
Qed.

(** X17. The store keeps the last value, the log keeps them all.  After
    two writes under the same key that both resolved, the store is as if
    only the second value had been written, and the change log has
    gained one entry for each of the two writes, in their order. *)
Theorem overwrite_keeps_history (dbName storeName : string) (key : IDBValidKey)
    (v1 v2 : JsonValue) (f1 f2 : Faults) (h h1 h2 : Host) :
  log_ok h dbName → storeName ≠ "changeLog" →
  writeJson dbName storeName key v1 f1 h = (Resolved tt, h1) →
  writeJson dbName storeName key v2 f2 h1 = (Resolved tt, h2) →
  records_of h2 dbName storeName
  = records_put key (Plain v2) (records_of h dbName storeName)
  ∧ records_get key (records_of h2 dbName storeName) = Some (Plain v2)
  ∧ changeLog_of h2 dbName
    = changeLog_of h dbName
        ++ entries_from (next_id h dbName) [(storeName, key, v1); (storeName, key, v2)].
Proof.
  intros Hok Hstore Hw1 Hw2.
  pose proof (writeJson_resolved_records _ _ _ _ _ _ _ Hstore Hw1) as Hr1.
  pose proof (writeJson_resolved_records _ _ _ _ _ _ _ Hstore Hw2) as Hr2.
  destruct (writeJson_resolved_log _ _ _ _ _ _ _ Hok Hw1) as (Hl1 & _ & Hn1 & Hok1 & _).
  destruct (writeJson_resolved_log _ _ _ _ _ _ _ Hok1 Hw2) as (Hl2 & _).
  assert (records_of h2 dbName storeName
          = records_put key (Plain v2) (records_of h dbName storeName)) as Hrec
    by (by rewrite Hr2, Hr1, records_put_put).
  split; [exact Hrec|]. split; [rewrite Hrec; apply records_get_put|].
  rewrite Hl2, Hl1, Hn1, <- app_assoc. reflexivity.
Qed.

(** ** The order of the records *)

Lemma lex_compare_antisym {A : Type} (cmp : A → A → comparison) (l1 : list A) :
  Forall (λ a, ∀ b, cmp a b = CompOpp (cmp b a)) l1 →
  ∀ l2, lex_compare cmp l1 l2 = CompOpp (lex_compare cmp l2 l1).
Proof.
  induction 1 as [|a l1 Ha _ IH]; intros [|b l2]; cbn; try done.
  rewrite (Ha b). destruct (cmp b a); cbn; [apply IH|done|done].
Qed.

Lemma lex_compare_trans {A : Type} (cmp : A → A → comparison) (l1 : list A) :
  (∀ a b, cmp a b = Eq → a = b) →
  Forall (λ a, ∀ b c, cmp a b = Lt → cmp b c = Lt → cmp a c = Lt) l1 →
  ∀ l2 l3, lex_compare cmp l1 l2 = Lt → lex_compare cmp l2 l3 = Lt →
           lex_compare cmp l1 l3 = Lt.
Proof.
  intros Heq. induction 1 as [|a l1 Ha _ IH]; intros [|b l2] [|c l3]; cbn; try done.
  destruct (cmp a b) eqn:Hab; try done.
  - apply Heq in Hab as <-. destruct (cmp a c) eqn:Hac; try done. apply IH.
  - intros _. destruct (cmp b c) eqn:Hbc; try done.
    + apply Heq in Hbc as <-. by rewrite Hab.
    + by rewrite (Ha b c).
Qed.

Lemma key_compare_antisym (a b : IDBValidKey) :
  key_compare a b = CompOpp (key_compare b a).
Proof.
  revert b. induction a as [x|x|x|x|ks IH] using IDBValidKey_nested_ind;
    intros [y|y|y|y|ks']; try done; cbn [key_compare].
  - apply Z.compare_antisym.
  - apply Z.compare_antisym.
  - apply lex_compare_antisym. apply Forall_forall. intros n _ m.
    apply N.compare_antisym.
  - apply lex_compare_antisym. apply Forall_forall. intros n _ m.
    apply N.compare_antisym.
  - by apply lex_compare_antisym.
Qed.

Lemma key_compare_trans (a b c : IDBValidKey) :
  key_compare a b = Lt → key_compare b c = Lt → key_compare a c = Lt.
Proof.
  revert b c. induction a as [x|x|x|x|ks IH] using IDBValidKey_nested_ind;
    intros [y|y|y|y|ks'] [z|z|z|z|ks'']; try done; cbn [key_compare].
  - rewrite !Z.compare_lt_iff. lia.
  - rewrite !Z.compare_lt_iff. lia.
  - apply lex_compare_trans.
    + intros n m. apply N.compare_eq.
    + apply Forall_forall. intros n _ m p. rewrite !N.compare_lt_iff. lia.
  - apply lex_compare_trans.
    + intros n m. apply N.compare_eq.
    + apply Forall_forall. intros n _ m p. rewrite !N.compare_lt_iff. lia.
  - apply lex_compare_trans; [apply key_compare_eq|done].
Qed.

Lemma key_lt_trans (a b c : Record_) : key_lt a b → key_lt b c → key_lt a c.
Proof. apply key_compare_trans. Qed.

Lemma records_put_In (k : IDBValidKey) (v : StoredValue) (rs : list Record_)
    (r : Record_) :
  In r (records_put k v rs) → r = (k, v) ∨ In r rs.
Proof.
  induction rs as [|[k' v'] rs IH]; cbn [records_put].
  - intros [<-|[]]. by left.
  - destruct (key_compare k k').
    + intros [<-|Hr]; [by left|right; by right].
    + intros [<-|Hr]; [by left|by right].
    + intros [<-|Hr]; [right; by left|].
      destruct (IH Hr) as [->|Hin]; [by left|right; by right].
Qed.

Lemma records_put_ascending (k : IDBValidKey) (v : StoredValue) (rs : list Record_) :
  ascending rs → ascending (records_put k v rs).
Proof.
  unfold ascending. induction 1 as [|[k' v'] rs Hrs IH Hall]; cbn [records_put].
  - repeat constructor.
  - destruct (key_compare k k') eqn:Hk.
    + apply key_compare_eq in Hk as ->. by constructor.
    + constructor; [by constructor|]. constructor; [exact Hk|].
      eapply Forall_impl; [exact Hall|]. intros r Hr.
      by apply (key_lt_trans (k, v) (k', v') r).
    + constructor; [exact IH|].
      apply List.Forall_forall. intros r Hr.
      apply records_put_In in Hr as [->|Hr].
      * unfold key_lt. cbn [fst]. rewrite key_compare_antisym, Hk. done.
      * by apply (proj1 (List.Forall_forall _ _) Hall).
Qed.

(** Every store of every database has its records in strictly ascending
    key order. *)
Definition stores_sorted (h : Host) : Prop :=
  ∀ name s, ascending (records_of h name s).

Definition sorted_map (stores : gmap string IDBObjectStore) : Prop :=
  ∀ s, ascending (from_option records [] (stores !! s)).

Lemma sorted_map_insert (stores : gmap string IDBObjectStore) (s : string)
    (os : IDBObjectStore) :
  sorted_map stores → ascending (records os) → sorted_map (<[s := os]> stores).
Proof.
  intros Hm Hos s'. destruct (decide (s = s')) as [<-|Hne].
  - by rewrite lookup_insert_eq.
  - rewrite lookup_insert_ne by done. apply Hm.
Qed.

Lemma sorted_map_lookup (stores : gmap string IDBObjectStore) (s : string)
    (os : IDBObjectStore) :
  sorted_map stores → stores !! s = Some os → ascending (records os).
Proof. intros Hm Hs. specialize (Hm s). by rewrite Hs in Hm. Qed.

Lemma sorted_map_opened (dbName storeName : string) (h : Host) :
  stores_sorted h → sorted_map (objectStores (opened dbName storeName h)).
Proof. intros Hh s. rewrite opened_records. apply Hh. Qed.

Lemma stores_sorted_same (h h' : Host) :
  stores_sorted h →
  (∀ name s, records_of h' name s = records_of h name s) →
  stores_sorted h'.
Proof. intros Hh Hsame name s. rewrite Hsame. apply Hh. Qed.

(** The state a call of [openDb]'s callers leaves: the one it found, the
    database opened, or the working copy [stores] committed. *)
Lemma stores_sorted_opened (dbName storeName : string) (h h' : Host) :
  stores_sorted h →
  (∀ name s, records_of h' name s
             = records_of (connect dbName (opened dbName storeName h) h) name s) →
  stores_sorted h'.
Proof.
  intros Hh Hsame name s. rewrite Hsame. unfold opened.
  rewrite records_of_opened. apply Hh.
Qed.

Lemma stores_sorted_committed (dbName storeName : string) (h h' : Host)
    (stores : gmap string IDBObjectStore) (n : nat) :
  stores_sorted h → sorted_map stores →
  (∀ name s, records_of h' name s
             = records_of (commit (live dbName stores n)
                             (connect dbName (opened dbName storeName h) h)) name s) →
  stores_sorted h'.
Proof.
  intros Hh Hm Hsame name s. rewrite Hsame, records_of_commit.
  case_decide; [apply Hm|]. unfold opened. rewrite records_of_opened. apply Hh.
Qed.

Lemma records_of_db_close c h name s :
  records_of (db_close c h) name s = records_of h name s.
Proof. unfold records_of. by rewrite store_of_db_close. Qed.

Ltac sorted_opened dbName storeName :=
  apply (stores_sorted_opened dbName storeName _ _ ltac:(eassumption));
  intros; cbn [snd]; by rewrite ?records_of_db_close, ?records_of_signal.

Ltac sorted_committed dbName storeName m n :=
  apply (stores_sorted_committed dbName storeName _ _ m n ltac:(eassumption));
  [|intros; cbn [snd]; by rewrite ?records_of_db_close, ?records_of_signal].

Lemma writeJson_sorted (dbName storeName : string) (key : IDBValidKey)
    (value : JsonValue) (f : Faults) (h : Host) :
  stores_sorted h → stores_sorted (writeJson dbName storeName key value f h).2.
Proof.
  intros Hh. rewrite writeJson_run.
  destruct (open_fault f); [done|].
  destruct (1 <? db_version (current h dbName))%N; [done|]. cbn zeta.
  pose proof (sorted_map_opened dbName storeName h Hh) as Hd.
  destruct (objectStores (opened dbName storeName h) !! storeName) as [os|] eqn:Hos;
    [|sorted_opened dbName storeName].
  destruct (objectStores (opened dbName storeName h) !! "changeLog") as [oc0|] eqn:Hoc0;
    [|sorted_opened dbName storeName].
  destruct (keyPath os).
  { unfold ended. destruct (commits f); [|sorted_opened dbName storeName].
    by sorted_committed dbName storeName (objectStores (opened dbName storeName h)) 0%nat. }
  destruct (hits f 0); [sorted_opened dbName storeName|].
  set (os' := put_into key (Plain value) os).
  set (stores := <[storeName := os']> _).
  assert (sorted_map stores) as Hstores.
  { apply sorted_map_insert; [done|]. subst os'. rewrite put_into_records.
    apply records_put_ascending. by apply (sorted_map_lookup (objectStores (opened dbName storeName h)) storeName). }
  set (oc := if decide (storeName = "changeLog") then os' else oc0).
  assert (stores !! "changeLog" = Some oc) as Hoc.
  { subst stores oc. destruct (decide (storeName = "changeLog")) as [->|Hne].
    - by rewrite lookup_insert_eq.
    - by rewrite lookup_insert_ne. }
  destruct (negb (autoIncrement oc)).
  { unfold ended. destruct (commits f); [|sorted_opened dbName storeName].
    by sorted_committed dbName storeName stores 1%nat. }
  destruct (hits f 1); [sorted_opened dbName storeName|].
  destruct (_ || _); [sorted_opened dbName storeName|].
  destruct (commits f); [|sorted_opened dbName storeName].
  sorted_committed dbName storeName (<["changeLog" := added oc (log_entry storeName key value)]> stores)
    2%nat.
  apply sorted_map_insert; [done|]. unfold added. cbn [records with_records].
  apply records_put_ascending. by apply (sorted_map_lookup stores "changeLog").
Qed.

Lemma deleteKey_sorted (dbName storeName : string) (key : IDBValidKey)
    (f : Faults) (h : Host) :
  stores_sorted h → stores_sorted (deleteKey dbName storeName key f h).2.
Proof.
  intros Hh. rewrite deleteKey_run.
  destruct (open_fault f); [done|].
  destruct (1 <? db_version (current h dbName))%N; [done|]. cbn zeta.
  pose proof (sorted_map_opened dbName storeName h Hh) as Hd.
  destruct (objectStores (opened dbName storeName h) !! storeName) as [os|] eqn:Hos;
    [|sorted_opened dbName storeName].
  destruct (hits f 0); [sorted_opened dbName storeName|].
  destruct (commits f); [|sorted_opened dbName storeName].
  sorted_committed dbName storeName
    (<[storeName := with_records (records_delete key (records os)) os]>
       (objectStores (opened dbName storeName h))) 1%nat.
  apply sorted_map_insert; [done|]. cbn [records with_records].
  apply ascending_filter. by apply (sorted_map_lookup (objectStores (opened dbName storeName h)) storeName).
Qed.

Lemma deleteMultipleRecords_sorted (dbName storeName : string) (filterFn : FilterFn)
    (f : Faults) (h : Host) :
  stores_sorted h → stores_sorted (deleteMultipleRecords dbName storeName filterFn f h).2.
Proof.
  intros Hh name s.
  destruct (deleteMultipleRecords_outcome dbName storeName filterFn f h)
    as (Hframe & Hcases & _); [apply ascending_NoDup, Hh|].
  cbn zeta in *.
  destruct (decide (name = dbName ∧ s = storeName)) as [[-> ->]|Hother].
  - destruct Hcases as [->|(-> & _)]; [apply Hh|]. apply ascending_filter, Hh.
  - rewrite Hframe; [apply Hh|].
    destruct (decide (name = dbName)) as [->|?]; [|by left].
    destruct (decide (s = storeName)) as [->|?]; [|by right]. tauto.
Qed.

Section Sorted.

Context {U : Type}.
Variable callback : StoredValue → U → JsError + U.

(** X18. The records of every store stay in key order, the engine's
    order of keys: numbers, then dates, then strings, compared code unit
    by code unit, then buffers, then arrays.  When every store of the
    engine has its records in strictly ascending key order, as in an
    engine without databases, so it has after any call of the library,
    whatever fails: a cursor, and so [readMultipleRecords], visits the
    records by ascending key, not in the order they were written, and no
    store ever holds two records under one key. *)
Theorem records_stay_in_key_order (dbName storeName : string) (key : IDBValidKey)
    (value : JsonValue) (filterFn : FilterFn) (o : Observer) (f : Faults)
    (h : Host) :
  stores_sorted h →
  (∀ name s, NoDup (map fst (records_of h name s)))
  ∧ stores_sorted (writeJson dbName storeName key value f h).2
  ∧ stores_sorted (readJson dbName storeName key f h).2
  ∧ stores_sorted (deleteKey dbName storeName key f h).2
  ∧ stores_sorted (readMultipleRecords dbName storeName filterFn f h).2
  ∧ stores_sorted (deleteMultipleRecords dbName storeName filterFn f h).2
  ∧ stores_sorted (onNewRecord_pollForChanges callback dbName o f h).2
  ∧ stores_sorted (onNewRecordWithLog_pollForChanges callback dbName o f h).2.
Proof.
  intros Hh. split; [intros name s; apply ascending_NoDup, Hh|].
  split; [by apply writeJson_sorted|].
  split; [apply (stores_sorted_same h _ Hh); intros; apply readJson_records|].
  split; [by apply deleteKey_sorted|].
  split; [apply (stores_sorted_same h _ Hh); intros; apply readMultipleRecords_records|].
  split; [by apply deleteMultipleRecords_sorted|].
  split; apply (stores_sorted_same h _ Hh); intros; apply pass_records.
Qed.

End Sorted.

Lemma empty_host_sorted : stores_sorted empty_host.
Proof. intros name s. constructor. Qed.

(** ** Failures the scans see and failures they miss *)

Lemma commit_fault_no_request_fault (f : Faults) :
  tx_fault f = Some CommitError → no_request_fault f.
Proof. intros Hf n. unfold hits. by rewrite Hf. Qed.

(** X19. A failed commit goes unnoticed by the scans.  They settle their
    promise when the cursor is exhausted, before the transaction
    commits, and listen to its [error] event only.  When every request
    succeeds and the commit then fails, [readMultipleRecords] has
    resolved with its result and [deleteMultipleRecords] has resolved
    too, although the transaction was aborted and nothing is deleted;
    nothing is printed and no exception is raised. *)
Theorem failed_commit_goes_unnoticed (dbName storeName : string)
    (filterFn : FilterFn) (f : Faults) (h : Host) :
  open_fault f = false → tx_fault f = Some CommitError →
  is_Some (store_of h dbName storeName) →
  total_on filterFn (records_of h dbName storeName) →
  let rm := readMultipleRecords dbName storeName filterFn f h in
  let dm := deleteMultipleRecords dbName storeName filterFn f h in
  rm.1 = Resolved (List.filter (matching filterFn)
                     (map snd (records_of h dbName storeName)))
  ∧ dm.1 = Resolved tt
  ∧ aborted h dm.2
  ∧ (∀ name s, records_of dm.2 name s = records_of h name s)
  ∧ console dm.2 = console h ∧ uncaught dm.2 = uncaught h.
Proof.
  intros Hopen Htx [os Hos] Htot. cbn zeta.
  pose proof (commit_fault_no_request_fault f Htx) as Hreq.
  split; [apply readMultipleRecords_resolves; eauto|].
  rewrite deleteMultipleRecords_run, Hopen. cbn zeta. rewrite Hos.
  assert (records_of h dbName storeName = records os) as Hrecs
    by (unfold records_of; by rewrite Hos).
  set (h1 := connect dbName (found h dbName) h).
  set (tx := {| tx_db := _; tx_scope := _; tx_mode := _ |}).
  assert (in_scope storeName tx) as Hin by (apply in_scope_here; cbn; auto).
  assert (objectStores (found h dbName) !! storeName = Some os) as Hfound
    by (by rewrite found_lookup).
  destruct (delete_cursor_cases tx storeName filterFn (records os) f h1 dbName
              (objectStores (found h dbName)) 0 os Hin eq_refl Hfound)
    as [(_ & [Hbad|Hbad]) | (Hp & _ & stores' & n' & Ht & _)];
    [done|by rewrite <- Hrecs in Hbad|].
  destruct (cursor_events _ _ _ _ _) as [p t2]. cbn [fst snd] in *. subst p t2.
  rewrite tx_finish_active.
  assert (commits f = false) as -> by (unfold commits; by rewrite Htx).
  cbn [fst snd idle task_host].
  split; [done|]. split; [by eexists|]. split; [|done].
  intros name s. rewrite records_of_signal. apply records_of_found.
Qed.

Lemma read_cursor_cases (filterFn : FilterFn) (rs : list Record_)
    (acc : list StoredValue) (f : Faults) h name stores n :
  let r := cursor_events (readMultipleRecords_onsuccess filterFn) rs
             {| scan_records := acc; scan_promise := Pending |} f
             (active h name stores n) in
  (scan_promise r.1 = Pending ∧ condemned h r.2)
  ∨ (scan_promise r.1
     = Resolved (acc ++ List.filter (matching filterFn) (map snd rs))
     ∧ ∃ n', r.2 = active h name stores n').
Proof.
  cbn zeta. revert acc n.
  induction rs as [|[k v] rs IH]; intros acc n; cbn [cursor_events];
    rewrite tx_request_active;
    (destruct (hits f n); cbn [negb fst snd]; [left; split; [done|constructor]|]).
  - right. cbn. rewrite app_nil_r. eauto.
  - rewrite read_step. cbn [map List.filter snd]. unfold matching at 1 3.
    destruct (filterFn v) as [e|[]]; cbn [fst snd scan_promise].
    + left. split; [done|constructor].
    + destruct (IH (acc ++ [v]) (S n)) as [Hl|[Hr Hact]]; [by left|right].
      split; [|done]. by rewrite Hr, <- app_assoc.
    + apply IH.
Qed.

Lemma untouched_finish_console (f : Faults) (h : Host) (name : string)
    (stores : gmap string IDBObjectStore) (t : Task) :
  untouched h name stores t →
  console (task_host (tx_finish f t).2) = console h.
Proof.
  intros [n|e n|e n].
  - rewrite tx_finish_active. by destruct (commits f).
  - by rewrite tx_finish_doomed.
  - by rewrite tx_finish_threw.
Qed.

Lemma condemned_finish_console (f : Faults) (h : Host) (t : Task) :
  condemned h t → console (task_host (tx_finish f t).2) = console h.
Proof.
  intros [name' stores e n|name' stores e n].
  - by rewrite tx_finish_doomed.
  - by rewrite tx_finish_threw.
Qed.

(** The cursor of [deleteMultipleRecords] never leaves more than one
    request pending: the [cursor.continue()] that follows a
    [cursor.delete()]. *)
Lemma delete_cursor_events (tx : IDBTransaction) (storeName : string)
    (filterFn : FilterFn) (rs : list Record_) (p : Promise unit) (f : Faults)
    h name stores n os :
  in_scope storeName tx → tx_mode tx = readwrite →
  stores !! storeName = Some os →
  (length (error_events
             (cursor_events (deleteMultipleRecords_onsuccess tx storeName filterFn)
                rs p f (active h name stores n)).2) ≤ 2)%nat.
Proof.
  intros Hin Hmode. revert stores n os.
  induction rs as [|[k v] rs IH]; intros stores n os Hos; cbn [cursor_events];
    rewrite tx_request_active;
    (destruct (hits f n); cbn [negb fst snd]; [cbn; lia|]).
  - cbn. lia.
  - rewrite delete_step. destruct (filterFn v) as [e|[]].
    + cbn. lia.
    + rewrite (os_delete_active tx storeName k f h name stores (S n) os) by done.
      destruct (hits f (S n)).
      { rewrite cursor_events_doomed. cbn. lia. }
      eapply IH. apply lookup_insert_eq.
    + by eapply IH.
Qed.

(** X20. The scans print what they reject with.  Whenever the promise of
    [readMultipleRecords] is rejected, with the error of the open or of
    a failed request, the call has printed that error, and nothing else,
    with [console.error].  So has [deleteMultipleRecords], but for one
    more line when the request that failed left another one pending: that
    request ends with an [AbortError], which is printed too.  A call that
    resolves or stays pending has printed nothing. *)
Theorem scans_print_what_they_reject (dbName storeName : string)
    (filterFn : FilterFn) (f : Faults) (h : Host) :
  let rm := readMultipleRecords dbName storeName filterFn f h in
  let dm := deleteMultipleRecords dbName storeName filterFn f h in
  (∀ e, rm.1 = Rejected e →
        ∃ msg, console rm.2 = console h ++ [(msg, Some e)])
  ∧ ((∀ e, rm.1 ≠ Rejected e) → console rm.2 = console h)
  ∧ (∀ e, dm.1 = Rejected e →
          ∃ msg,
            console dm.2 = console h ++ [(msg, Some e)]
            ∨ console dm.2 = console h ++ [(msg, Some e); (msg, Some AbortError)])
  ∧ ((∀ e, dm.1 ≠ Rejected e) → console dm.2 = console h).
Proof.
  cbn zeta. rewrite readMultipleRecords_run, deleteMultipleRecords_run.
  destruct (open_fault f).
  { cbn [fst snd]. split; [intros e [= <-]; by eexists|].
    split; [intros Hno; by destruct (Hno UnknownError)|].
    split; [intros e [= <-]; eexists; by left|].
    intros Hno; by destruct (Hno UnknownError). }
  cbn zeta. destruct (store_of h dbName storeName) as [os|] eqn:Hos;
    [|by repeat split].
  set (h1 := connect dbName (found h dbName) h).
  match goal with
  | |- ?A ∧ ?B ∧ ?C ∧ ?D => enough ((A ∧ B) ∧ (C ∧ D)) by tauto
  end.
  split.
  - destruct (read_cursor_cases filterFn (records os) [] f h1 dbName
                (objectStores (found h dbName)) 0) as [[Hp Hcur]|[Hp [n' Hact]]];
      destruct (cursor_events _ _ _ _ _) as [sc t2]; cbn [fst snd] in *; rewrite Hp.
    + pose proof (condemned_finish_console f h1 t2 Hcur) as Hcon.
      destruct (tx_finish f t2) as [[[| |e]|] t3]; cbn [fst snd settle] in *;
        (split; [intros e' [= <-] || intros e' [=]|intros Hno]);
        try done; try by destruct (Hno e).
      exists "Transaction error:". cbn [console console_error]. by rewrite Hcon.
    + subst t2. rewrite tx_finish_active.
      destruct (commits f); cbn [fst snd settle]; by split.
  - set (tx := {| tx_db := _; tx_scope := _; tx_mode := _ |}).
    assert (in_scope storeName tx) as Hin by (apply in_scope_here; cbn; auto).
    assert (objectStores (found h dbName) !! storeName = Some os) as Hfound
      by (by rewrite found_lookup).
    pose proof (delete_cursor_pending tx storeName filterFn (records os) f h1 dbName
                  (objectStores (found h dbName)) 0 os Hin eq_refl Hfound) as Hpending.
    destruct (delete_cursor_cases tx storeName filterFn (records os) f h1 dbName
                (objectStores (found h dbName)) 0 os Hin eq_refl Hfound)
      as [(Hp & _) | (Hp & _ & stores' & n' & Ht & _)];
      cbn zeta in Hpending.
    + pose proof (delete_cursor_events tx storeName filterFn (records os) Pending f
                    h1 dbName (objectStores (found h dbName)) 0 os Hin eq_refl Hfound)
        as Hevents.
      destruct (cursor_events _ _ _ _ _) as [p t2]; cbn [fst snd] in *; subst p.
      destruct (Hpending eq_refl) as [name' stores e n k|name' stores e n].
      * rewrite tx_finish_doomed. cbn [fst snd settle idle task_host].
        split; [|intros Hno; by destruct (Hno e)].
        intros e' [= <-]. exists "Transaction error:".
        rewrite printed_console. cbn [error_events doomed task_tx live_status map]
          in Hevents |- *.
        rewrite length_cons, length_replicate in Hevents.
        destruct k as [|[|k]]; [by left|by right|lia].
      * rewrite tx_finish_threw. cbn [fst snd settle idle task_host]. by split.
    + destruct (cursor_events _ _ _ _ _) as [p t2]; cbn [fst snd] in *; subst p t2.
      rewrite tx_finish_active.
      destruct (commits f); cbn [fst snd settle]; by split.
Qed.

(** ** Connection ids *)

Lemma handles_ok_connect (name : string) (d : Database) (h : Host) :
  handles_ok h → handles_ok (connect name d h).
Proof.
  intros Hok. unfold handles_ok. cbn [connect connections nextConnection].
  constructor; [cbn; lia|].
  eapply Forall_impl; [exact Hok|]. intros c Hc. cbn in *. lia.
Qed.

Lemma handles_ok_same (h h' : Host) :
  handles_ok h →
  connections h' = connections h → nextConnection h' = nextConnection h →
  handles_ok h'.
Proof. unfold handles_ok. by intros Hok -> ->. Qed.

Lemma handles_ok_db_close (c : IDBDatabase) (h : Host) :
  handles_ok h → handles_ok (db_close c h).
Proof.
  unfold handles_ok. cbn [db_close connections nextConnection]. intros Hok.
  apply List.Forall_forall. intros x Hx. apply List.filter_In in Hx as [Hx _].
  by apply (proj1 (List.Forall_forall _ _) Hok).
Qed.

Lemma handles_ok_ended (f : Faults) name stores n h :
  handles_ok h → handles_ok (ended f name stores n h).
Proof. intros Hok. unfold ended. by destruct (commits f). Qed.

Lemma untouched_finish_handles (f : Faults) (h : Host) (name : string)
    (stores : gmap string IDBObjectStore) (t : Task) :
  untouched h name stores t → handles_ok h →
  handles_ok (task_host (tx_finish f t).2).
Proof.
  intros [n|e n|e n] Hok.
  - rewrite tx_finish_active. by destruct (commits f).
  - by rewrite tx_finish_doomed.
  - by rewrite tx_finish_threw.
Qed.

Lemma condemned_finish_handles (f : Faults) (h : Host) (t : Task) :
  condemned h t → handles_ok h → handles_ok (task_host (tx_finish f t).2).
Proof.
  intros [name' stores e n|name' stores e n] Hok.
  - by rewrite tx_finish_doomed.
  - by rewrite tx_finish_threw.
Qed.

Lemma writeJson_handles (dbName storeName : string) (key : IDBValidKey)
    (value : JsonValue) (f : Faults) (h : Host) :
  handles_ok h → handles_ok (writeJson dbName storeName key value f h).2.
Proof.
  intros Hok. rewrite writeJson_run.
  pose proof (handles_ok_connect dbName (opened dbName storeName h) h Hok) as H1.
  repeat (match goal with
          | |- context [if ?b then _ else _] => destruct b
          | |- context [match ?x with Some _ => _ | None => _ end] => destruct x
          end; cbn zeta; cbn [snd]);
    try done; try (by apply handles_ok_ended); by apply handles_ok_db_close.
Qed.

Lemma readJson_handles (dbName storeName : string) (key : IDBValidKey)
    (f : Faults) (h : Host) :
  handles_ok h → handles_ok (readJson dbName storeName key f h).2.
Proof.
  intros Hok. rewrite readJson_run.
  pose proof (handles_ok_connect dbName (opened dbName storeName h) h Hok) as H1.
  repeat (match goal with
          | |- context [if ?b then _ else _] => destruct b
          | |- context [match ?x with Some _ => _ | None => _ end] => destruct x
          end; cbn zeta; cbn [snd]);
    try done; by apply handles_ok_db_close.
Qed.

Lemma deleteKey_handles (dbName storeName : string) (key : IDBValidKey)
    (f : Faults) (h : Host) :
  handles_ok h → handles_ok (deleteKey dbName storeName key f h).2.
Proof.
  intros Hok. rewrite deleteKey_run.
  pose proof (handles_ok_connect dbName (opened dbName storeName h) h Hok) as H1.
  repeat (match goal with
          | |- context [if ?b then _ else _] => destruct b
          | |- context [match ?x with Some _ => _ | None => _ end] => destruct x
          end; cbn zeta; cbn [snd]);
    try done; by apply handles_ok_db_close.
Qed.

Lemma readMultipleRecords_handles (dbName storeName : string) (filterFn : FilterFn)
    (f : Faults) (h : Host) :
  handles_ok h → handles_ok (readMultipleRecords dbName storeName filterFn f h).2.
Proof.
  intros Hok. rewrite readMultipleRecords_run.
  destruct (open_fault f); [done|]. cbn zeta.
  pose proof (handles_ok_connect dbName (found h dbName) h Hok) as H1.
  destruct (store_of h dbName storeName) as [os|]; [|done].
  pose proof (cursor_events_untouched (readMultipleRecords_onsuccess filterFn)
                (records os) {| scan_records := []; scan_promise := Pending |} f
                (connect dbName (found h dbName) h) dbName
                (objectStores (found h dbName)) 0
                (read_handler_untouched filterFn)) as Hcur.
  destruct (cursor_events _ _ _ _ _) as [sc t2]. cbn [snd] in Hcur.
  pose proof (untouched_finish_handles f _ _ _ t2 Hcur H1) as Hfin.
  by destruct (tx_finish f t2) as [[[| |e]|] t3].
Qed.

Lemma deleteMultipleRecords_handles (dbName storeName : string) (filterFn : FilterFn)
    (f : Faults) (h : Host) :
  handles_ok h → handles_ok (deleteMultipleRecords dbName storeName filterFn f h).2.
Proof.
  intros Hok. rewrite deleteMultipleRecords_run.
  destruct (open_fault f); [done|]. cbn zeta.
  pose proof (handles_ok_connect dbName (found h dbName) h Hok) as H1.
  destruct (store_of h dbName storeName) as [os|] eqn:Hos; [|done].
  set (h1 := connect dbName (found h dbName) h) in *.
  set (tx := {| tx_db := _; tx_scope := _; tx_mode := _ |}).
  assert (in_scope storeName tx) as Hin by (apply in_scope_here; cbn; auto).
  assert (objectStores (found h dbName) !! storeName = Some os) as Hfound
    by (by rewrite found_lookup).
  pose proof (delete_cursor_pending tx storeName filterFn (records os) f h1 dbName
                (objectStores (found h dbName)) 0 os Hin eq_refl Hfound) as Hpending.
  destruct (delete_cursor_cases tx storeName filterFn (records os) f h1 dbName
              (objectStores (found h dbName)) 0 os Hin eq_refl Hfound)
    as [(Hp & _) | (Hp & _ & stores' & n' & Ht & _)];
    cbn zeta in Hpending;
    destruct (cursor_events _ _ _ _ _) as [p t2]; cbn [fst snd] in *; subst p.
  - pose proof (condemned_finish_handles f h1 t2 (Hpending eq_refl) H1) as Hfin.
    destruct (tx_finish f t2) as [[[| |e]|] t3]; cbn [snd] in *; try done.
    destruct (printed_rest (error_events t2) (task_host t3)) as (_ & Hc & Hn & _).
    by apply (handles_ok_same (task_host t3)).
  - subst t2. rewrite tx_finish_active. by destruct (commits f).
Qed.

Lemma pass_handles {U : Type} (callback : StoredValue → U → JsError + U)
    (dbName : string) (o : Observer) (f : Faults) (h : Host) :
  handles_ok h →
  handles_ok (onNewRecord_pollForChanges callback dbName o f h).2
  ∧ handles_ok (onNewRecordWithLog_pollForChanges callback dbName o f h).2.
Proof.
  intros Hok. rewrite onNewRecord_pass, onNewRecordWithLog_pass.
  destruct (open_fault f); [done|]. cbn zeta.
  pose proof (handles_ok_connect dbName (found h dbName) h Hok) as H1.
  destruct (store_of h dbName "changeLog") as [os|]; [|done].
  pose proof (cursor_events_untouched (pollForChanges_onsuccess callback)
                (records os) o f
                (connect dbName (found h dbName) h) dbName
                (objectStores (found h dbName)) 0
                (poll_handler_untouched callback)) as Hcur.
  destruct (cursor_events _ _ _ _ _) as [o' t2]. cbn [snd] in Hcur.
  pose proof (untouched_finish_handles f _ _ _ t2 Hcur H1) as Hfin.
  by destruct (tx_finish f t2) as [[[| |e]|] t3].
Qed.

(** ** The states the library reaches *)

(** The states calls of the library bring an engine into that starts
    without databases, when no caller of [writeJson], [readJson] or
    [deleteKey] names its own store [changeLog]. *)
Inductive reachable : Host → Prop :=
| reachable_empty : reachable empty_host
| reachable_writeJson dbName storeName key value f h :
    reachable h → storeName ≠ "changeLog" →
    reachable (writeJson dbName storeName key value f h).2
| reachable_readJson dbName storeName key f h :
    reachable h → storeName ≠ "changeLog" →
    reachable (readJson dbName storeName key f h).2
| reachable_deleteKey dbName storeName key f h :
    reachable h → storeName ≠ "changeLog" →
    reachable (deleteKey dbName storeName key f h).2
| reachable_readMultipleRecords dbName storeName filterFn f h :
    reachable h → reachable (readMultipleRecords dbName storeName filterFn f h).2
| reachable_deleteMultipleRecords dbName storeName filterFn f h :
    reachable h → reachable (deleteMultipleRecords dbName storeName filterFn f h).2
| reachable_onNewRecord (U : Type) (callback : StoredValue → U → JsError + U)
    dbName o f h :
    reachable h → reachable (onNewRecord_pollForChanges callback dbName o f h).2
| reachable_onNewRecordWithLog (U : Type) (callback : StoredValue → U → JsError + U)
    dbName o f h :
    reachable h → reachable (onNewRecordWithLog_pollForChanges callback dbName o f h).2.

Lemma empty_host_handles_ok : handles_ok empty_host.
Proof. constructor. Qed.

(** X21. Every state the library reaches is sound.  Starting from an
    engine without databases, after any sequence of calls of the
    library, with any failures, predicates and callbacks, and as long as
    no caller of [writeJson], [readJson] or [deleteKey] names its store
    [changeLog]: the change log of every database is sound, every store
    has its records in strictly ascending key order, under distinct
    keys, and the id of every open connection is below the one the
    engine hands out next. *)
Theorem reachable_states_are_sound (h : Host) :
  reachable h →
  (∀ name, log_ok h name)
  ∧ stores_sorted h
  ∧ (∀ name s, NoDup (map fst (records_of h name s)))
  ∧ handles_ok h.
Proof.
  intros Hreach.
  enough ((∀ name, log_ok h name) ∧ stores_sorted h ∧ handles_ok h)
    as (Hlog & Hsorted & Hhandles).
  { split; [exact Hlog|]. split; [exact Hsorted|]. split; [|exact Hhandles].
    intros name s. apply ascending_NoDup, Hsorted. }
  induction Hreach
    as [|dbName storeName key value f h _ (Hlog & Hsorted & Hhandles) Hstore
        |dbName storeName key f h _ (Hlog & Hsorted & Hhandles) Hstore
        |dbName storeName key f h _ (Hlog & Hsorted & Hhandles) Hstore
        |dbName storeName filterFn f h _ (Hlog & Hsorted & Hhandles)
        |dbName storeName filterFn f h _ (Hlog & Hsorted & Hhandles)
        |U callback dbName o f h _ (Hlog & Hsorted & Hhandles)
        |U callback dbName o f h _ (Hlog & Hsorted & Hhandles)].
  - split; [intros name; apply empty_host_log_ok|].
    split; [apply empty_host_sorted|apply empty_host_handles_ok].
  - split; [|split].
    + intros name. apply writeJson_log_step; auto.
    + by apply writeJson_sorted.
    + by apply writeJson_handles.
  - split; [|split].
    + intros name. apply readJson_log_step; auto.
    + apply (stores_sorted_same h _ Hsorted). intros. apply readJson_records.
    + by apply readJson_handles.
  - split; [|split].
    + intros name. apply deleteKey_log_step; auto.
    + by apply deleteKey_sorted.
    + by apply deleteKey_handles.
  - split; [|split].
    + intros name. apply (log_step_same h); [done|]. apply readMultipleRecords_stores.
    + apply (stores_sorted_same h _ Hsorted). intros. apply readMultipleRecords_records.
    + by apply readMultipleRecords_handles.
  - split; [|split].
    + intros name. by apply deleteMultipleRecords_log_step.
    + by apply deleteMultipleRecords_sorted.
    + by apply deleteMultipleRecords_handles.
  - split; [|split].
    + intros name. apply (log_step_same h); [done|]. apply pass_stores.
    + apply (stores_sorted_same h _ Hsorted). intros. apply pass_records.
    + by apply pass_handles.
  - split; [|split].
    + intros name. apply (log_step_same h); [done|]. apply pass_stores.
    + apply (stores_sorted_same h _ Hsorted). intros. apply pass_records.
    + by apply pass_handles.
Qed.

(** ** Writes under different keys *)

Lemma key_compare_Gt (a b : IDBValidKey) : key_compare a b = Lt → key_compare b a = Gt.
Proof. intros H. by rewrite key_compare_antisym, H. Qed.

Lemma key_compare_Lt (a b : IDBValidKey) : key_compare a b = Gt → key_compare b a = Lt.
Proof. intros H. by rewrite key_compare_antisym, H. Qed.

Lemma records_put_comm (k1 k2 : IDBValidKey) (v1 v2 : StoredValue) (rs : list Record_) :
  ascending rs → k1 ≠ k2 →
  records_put k1 v1 (records_put k2 v2 rs) = records_put k2 v2 (records_put k1 v1 rs).
Proof.
  intros Hrs Hne.
  assert (key_compare k1 k2 ≠ Eq) as H12 by (intros H; by apply key_compare_eq in H).
  induction Hrs as [|[k' v'] rs Hrs IH Hall]; cbn [records_put].
  - destruct (key_compare k1 k2) eqn:Hk; [done| |].
    + by rewrite (key_compare_Gt k1 k2).
    + by rewrite (key_compare_Lt k1 k2).
  - destruct (key_compare k1 k') eqn:H1; destruct (key_compare k2 k') eqn:H2.
    + apply key_compare_eq in H1, H2. congruence.
    + apply key_compare_eq in H1 as ->. cbn [records_put].
      rewrite (key_compare_Gt k2 k') by done. cbn [records_put].
      by rewrite key_compare_refl, H2.
    + apply key_compare_eq in H1 as ->. cbn [records_put].
      by rewrite key_compare_refl, H2.
    + apply key_compare_eq in H2 as ->. cbn [records_put].
      rewrite H1, (key_compare_Gt k1 k') by done. cbn [records_put].
      by rewrite key_compare_refl.
    + cbn [records_put]. destruct (key_compare k1 k2) eqn:Hk; [done| |].
      * rewrite (key_compare_Gt k1 k2) by done. cbn [records_put]. by rewrite H2.
      * rewrite (key_compare_Lt k1 k2) by done. cbn [records_put]. by rewrite H1.
    + assert (key_compare k1 k2 = Lt) as Hk
        by (apply (key_compare_trans k1 k' k2); [done|by apply key_compare_Lt]).
      cbn [records_put]. rewrite H1, (key_compare_Gt k1 k2) by done.
      cbn [records_put]. by rewrite H2.
    + apply key_compare_eq in H2 as ->. cbn [records_put].
      by rewrite H1, key_compare_refl.
    + assert (key_compare k2 k1 = Lt) as Hk
        by (apply (key_compare_trans k2 k' k1); [done|by apply key_compare_Lt]).
      cbn [records_put]. rewrite (key_compare_Gt k2 k1), H2 by done.
      cbn [records_put]. by rewrite H1.
    + cbn [records_put]. by rewrite H1, H2, IH.
Qed.

(** X22. Writes under different keys commute on the store.  Two writes
    into a store whose records are in key order, under different keys,
    leave the store with the same records whichever comes first (the
    change log keeps their order). *)
Theorem writes_under_different_keys_commute (dbName storeName : string)
    (k1 k2 : IDBValidKey) (v1 v2 : JsonValue) (f1 f2 f3 f4 : Faults)
    (h h1 h12 h2 h21 : Host) :
  ascending (records_of h dbName storeName) →
  storeName ≠ "changeLog" → k1 ≠ k2 →
  writeJson dbName storeName k1 v1 f1 h = (Resolved tt, h1) →
  writeJson dbName storeName k2 v2 f2 h1 = (Resolved tt, h12) →
  writeJson dbName storeName k2 v2 f3 h = (Resolved tt, h2) →
  writeJson dbName storeName k1 v1 f4 h2 = (Resolved tt, h21) →
  records_of h12 dbName storeName = records_of h21 dbName storeName.
Proof.
  intros Hsorted Hstore Hne Ha1 Ha2 Hb1 Hb2.
  rewrite (writeJson_resolved_records _ _ _ _ _ _ _ Hstore Ha2),
    (writeJson_resolved_records _ _ _ _ _ _ _ Hstore Ha1),
    (writeJson_resolved_records _ _ _ _ _ _ _ Hstore Hb2),
    (writeJson_resolved_records _ _ _ _ _ _ _ Hstore Hb1).
  symmetry. by apply records_put_comm.
Qed.


(** * The further properties at work on the scenarios *)

Lemma mydb_version : (db_version (current Scenario.mydb "mydb") ≤ 1)%N.
Proof. apply N.leb_le. vm_compute. reflexivity. Qed.

Lemma mydb_kv : is_Some (store_of Scenario.mydb "mydb" "kv").
Proof. vm_compute. by eexists. Qed.

Lemma mydb_changeLog : is_Some (store_of Scenario.mydb "mydb" "changeLog").
Proof. vm_compute. by eexists. Qed.

Lemma testdb_changeLog : is_Some (store_of Scenario.testdb "testdb" "changeLog").
Proof. vm_compute. by eexists. Qed.

(** X2 at work: the suite's second test. *)
Lemma deleteKey_then_read_witness :
  let r := deleteKey "mydb" "kv" (KString "user:1") no_faults Scenario.mydb in
  r = (Resolved tt, r.2)
  ∧ (readJson "mydb" "kv" (KString "user:1") no_faults r.2).1 = Resolved None.
Proof.
  cbn zeta.
  assert (deleteKey "mydb" "kv" (KString "user:1") no_faults Scenario.mydb
          = (Resolved tt,
             (deleteKey "mydb" "kv" (KString "user:1") no_faults Scenario.mydb).2))
    as Hrun by (vm_compute; reflexivity).
  split; [exact Hrun|].
  exact (proj1 (deleteKey_then_read "mydb" "kv" (KString "user:1") no_faults
                  Scenario.mydb _ Hrun)).
Defined.

(** X3 at work: a key that [kv] does not hold. *)
Lemma deleteKey_of_a_missing_key_witness :
  let r := deleteKey "mydb" "kv" (KString "user:9") no_faults Scenario.mydb in
  records_get (KString "user:9") (records_of Scenario.mydb "mydb" "kv") = None
  ∧ r.1 = Resolved tt
  ∧ records_of r.2 "mydb" "kv" = records_of Scenario.mydb "mydb" "kv".
Proof.
  cbn zeta.
  assert (records_get (KString "user:9") (records_of Scenario.mydb "mydb" "kv") = None)
    as Hnone by (vm_compute; reflexivity).
  destruct (deleteKey_of_a_missing_key "mydb" "kv" (KString "user:9") no_faults
              Scenario.mydb Hnone) as [Hsame Hres].
  split; [exact Hnone|]. split; [|apply Hsame].
  exact (Hres eq_refl eq_refl mydb_version (or_intror mydb_kv)).
Defined.

(** X5 at work: an open that fails. *)
Lemma failed_open_is_reported_witness :
  open_fault Scenario.open_fails = true
  ∧ writeJson "mydb" "kv" (KString "user:2") Scenario.ada Scenario.open_fails
      Scenario.mydb
    = (Rejected UnknownError, Scenario.mydb)
  ∧ readMultipleRecords "mydb" "kv" Scenario.always Scenario.open_fails Scenario.mydb
    = (Rejected UnknownError,
       console_error "Error opening database:" (Some UnknownError) Scenario.mydb).
Proof.
  destruct (failed_open_is_reported "mydb" "kv" (KString "user:2") Scenario.ada
              Scenario.always Scenario.open_fails Scenario.mydb eq_refl)
    as (Hw & _ & _ & Hrm & _).
  split; [reflexivity|]. split; [exact Hw|exact Hrm].
Defined.

(** An engine whose database [mydb] other code has taken to version 2. *)
Definition upgraded_elsewhere : Host :=
  {| databases := {["mydb" := {| db_version := 2; objectStores := ∅ |}]};
     connections := []; nextConnection := 0;
     console := []; uncaught := []; signals := [] |}.

(** X6 at work. *)
Lemma newer_version_is_refused_witness :
  (1 < db_version (current upgraded_elsewhere "mydb"))%N
  ∧ readJson "mydb" "kv" (KString "user:1") no_faults upgraded_elsewhere
    = (Rejected VersionError, upgraded_elsewhere).
Proof.
  assert ((1 < db_version (current upgraded_elsewhere "mydb"))%N) as Hv
    by (apply N.ltb_lt; vm_compute; reflexivity).
  destruct (newer_version_is_refused "mydb" "kv" (KString "user:1") Scenario.ada
              no_faults upgraded_elsewhere eq_refl Hv) as (_ & Hr & _).
  split; [exact Hv|exact Hr].
Defined.

(** X8 at work: the suite's bulk deletion leaves [changeLog] alone. *)
Lemma deleteMultipleRecords_all_or_nothing_witness :
  let r := deleteMultipleRecords "testdb" "teststore" Scenario.id_up_to_2 no_faults
             Scenario.testdb in
  NoDup (map fst (records_of Scenario.testdb "testdb" "teststore"))
  ∧ records_of r.2 "testdb" "changeLog" = records_of Scenario.testdb "testdb" "changeLog".
Proof.
  cbn zeta.
  destruct (deleteMultipleRecords_all_or_nothing "testdb" "teststore"
              Scenario.id_up_to_2 no_faults Scenario.testdb testdb_keys)
    as (Hframe & _).
  split; [exact testdb_keys|]. apply Hframe. right. discriminate.
Defined.

(** X9 at work: the value of the first test, found by a scan. *)
Lemma write_then_scan_witness :
  "kv" ≠ "changeLog"
  ∧ writeJson "mydb" "kv" (KString "user:1") Scenario.ada no_faults empty_host
    = (Resolved tt, Scenario.mydb)
  ∧ Scenario.always (Plain Scenario.ada) = inr true
  ∧ (readMultipleRecords "mydb" "kv" Scenario.always no_faults Scenario.mydb).1
    = Resolved [Plain Scenario.ada]
  ∧ In (Plain Scenario.ada) [Plain Scenario.ada].
Proof.
  assert ("kv" ≠ "changeLog") as Hne by discriminate.
  assert (writeJson "mydb" "kv" (KString "user:1") Scenario.ada no_faults empty_host
          = (Resolved tt, Scenario.mydb)) as Hw by (vm_compute; reflexivity).
  assert ((readMultipleRecords "mydb" "kv" Scenario.always no_faults Scenario.mydb).1
          = Resolved [Plain Scenario.ada]) as Hr by (vm_compute; reflexivity).
  split; [exact Hne|]. split; [exact Hw|]. split; [reflexivity|]. split; [exact Hr|].
  exact (write_then_scan "mydb" "kv" (KString "user:1") Scenario.ada Scenario.always
           no_faults no_faults empty_host Scenario.mydb [Plain Scenario.ada]
           Hne Hw eq_refl Hr).
Defined.

(** X10 at work: the suite's last test. *)
Lemma delete_then_scan_witness :
  let r := deleteMultipleRecords "testdb" "teststore" Scenario.id_up_to_2 no_faults
             Scenario.testdb in
  NoDup (map fst (records_of Scenario.testdb "testdb" "teststore"))
  ∧ r.1 = Resolved tt
  ∧ completed Scenario.testdb r.2
  ∧ (readMultipleRecords "testdb" "teststore" Scenario.always no_faults r.2).1
    = Resolved [Plain Scenario.charlie]
  ∧ [Plain Scenario.charlie]
    = map snd (List.filter (λ rec, negb (matching Scenario.id_up_to_2 rec.2))
                 (records_of Scenario.testdb "testdb" "teststore")).
Proof.
  cbn zeta.
  assert ((deleteMultipleRecords "testdb" "teststore" Scenario.id_up_to_2 no_faults
             Scenario.testdb).1 = Resolved tt) as Hres by (vm_compute; reflexivity).
  assert (completed Scenario.testdb
            (deleteMultipleRecords "testdb" "teststore" Scenario.id_up_to_2 no_faults
               Scenario.testdb).2) as Hdone by (vm_compute; reflexivity).
  assert ((readMultipleRecords "testdb" "teststore" Scenario.always no_faults
             (deleteMultipleRecords "testdb" "teststore" Scenario.id_up_to_2 no_faults
                Scenario.testdb).2).1
          = Resolved [Plain Scenario.charlie]) as Hscan by (vm_compute; reflexivity).
  split; [exact testdb_keys|]. split; [exact Hres|]. split; [exact Hdone|].
  split; [exact Hscan|].
  exact (proj2 (delete_then_scan "testdb" "teststore" Scenario.id_up_to_2
                  Scenario.always no_faults no_faults Scenario.testdb
                  [Plain Scenario.charlie] testdb_keys (λ _, eq_refl) Hres Hdone)
           Hscan).
Defined.

(** X11 at work: the first pass of an observer started after the three
    writes. *)
Lemma pass_delivers_the_unseen_witness :
  let pass :=
    onNewRecord_pollForChanges Scenario.push "testdb" (new_observer []) no_faults
      Scenario.testdb in
  log_ok Scenario.testdb "testdb"
  ∧ is_Some (store_of Scenario.testdb "testdb" "changeLog")
  ∧ never_throws Scenario.push
  ∧ calls pass.1.1 = [] ++ unseen [] (changeLog_of Scenario.testdb "testdb")
  ∧ pass.1.2 = true.
Proof.
  cbn zeta.
  destruct (pass_delivers_the_unseen Scenario.push "testdb" (new_observer []) no_faults
              Scenario.testdb testdb_log_ok testdb_changeLog push_never_throws
              eq_refl eq_refl) as (Hcalls & _ & _ & Hnext & _).
  split; [exact testdb_log_ok|]. split; [exact testdb_changeLog|].
  split; [exact push_never_throws|]. split; [exact Hcalls|exact Hnext].
Defined.

(** A second write into [mydb], after the observer's first pass. *)
Definition one_more_write : list (Write * Faults) :=
  [(("kv", KString "user:2", Scenario.ada), no_faults)].

Definition mydb_later : Host := default empty_host (writes "mydb" one_more_write Scenario.mydb).

Lemma mydb_later_written : writes "mydb" one_more_write Scenario.mydb = Some mydb_later.
Proof. vm_compute. reflexivity. Qed.

(** X12 at work: the observer's second pass delivers the second write. *)
Lemma next_pass_delivers_the_new_writes_witness :
  let first :=
    onNewRecord_pollForChanges Scenario.push "mydb" (new_observer []) no_faults
      Scenario.mydb in
  let second :=
    onNewRecord_pollForChanges Scenario.push "mydb" first.1.1 no_faults mydb_later in
  log_ok Scenario.mydb "mydb"
  ∧ is_Some (store_of Scenario.mydb "mydb" "changeLog")
  ∧ never_throws Scenario.push
  ∧ writes "mydb" one_more_write Scenario.mydb = Some mydb_later
  ∧ calls second.1.1
    = calls first.1.1
        ++ entries_from (next_id Scenario.mydb "mydb") (map fst one_more_write)
  ∧ second.1.2 = true.
Proof.
  cbn zeta.
  destruct (next_pass_delivers_the_new_writes Scenario.push "mydb" [] one_more_write
              no_faults no_faults Scenario.mydb mydb_later
              mydb_log_ok mydb_changeLog push_never_throws
              eq_refl eq_refl eq_refl eq_refl mydb_later_written)
    as (_ & Hcalls & Hnext & _).
  split; [exact mydb_log_ok|]. split; [exact mydb_changeLog|].
  split; [exact push_never_throws|]. split; [exact mydb_later_written|].
  split; [exact Hcalls|exact Hnext].
Defined.

(** A callback that throws on the entry of the write under [key2]. *)
Definition throws_on_key2 : StoredValue → list StoredValue → JsError + list StoredValue :=
  λ record notifications,
    match record with
    | Entry e =>
        if key_eqb (entry_key e) (KString "key2") then inl (UserError "boom")
        else inr (notifications ++ [record])
    | _ => inr (notifications ++ [record])
    end.

Definition entry (id : Z) (key : string) (value : JsonValue) : Record_ :=
  (KNumber id,
   Entry {| entry_id := Some id; entry_store := "teststore";
            entry_key := KString key; entry_value := value |}).

Lemma testdb_changeLog_records :
  changeLog_of Scenario.testdb "testdb"
  = [entry 1 "key1" Scenario.alice] ++ entry 2 "key2" Scenario.bob
      :: [entry 3 "key3" Scenario.charlie].
Proof. vm_compute. reflexivity. Qed.

(** X13 at work: the callback throws on the second of three entries. *)
Lemma callback_throw_ends_the_observer_witness :
  let pass :=
    onNewRecord_pollForChanges throws_on_key2 "testdb" (new_observer []) no_faults
      Scenario.testdb in
  log_ok Scenario.testdb "testdb"
  ∧ throws_on_key2 (entry 2 "key2" Scenario.bob).2 [(entry 1 "key1" Scenario.alice).2]
    = inl (UserError "boom")
  ∧ calls pass.1.1 = [entry 1 "key1" Scenario.alice; entry 2 "key2" Scenario.bob]
  ∧ pass.1.2 = false
  ∧ uncaught pass.2 = uncaught Scenario.testdb ++ [UserError "boom"]
  ∧ calls (onNewRecord throws_on_key2 "testdb" []
             [(no_faults, Scenario.testdb); (no_faults, Scenario.testdb)])
    = [entry 1 "key1" Scenario.alice; entry 2 "key2" Scenario.bob].
Proof.
  cbn zeta.
  destruct (callback_throw_ends_the_observer throws_on_key2 "testdb" []
              [(entry 1 "key1" Scenario.alice).2]
              [entry 1 "key1" Scenario.alice] [entry 3 "key3" Scenario.charlie]
              (entry 2 "key2" Scenario.bob).1 (entry 2 "key2" Scenario.bob).2
              (UserError "boom") no_faults Scenario.testdb
              testdb_log_ok testdb_changeLog_records eq_refl
              no_faults_no_request_fault eq_refl eq_refl)
    as (Hcalls & _ & Hnext & Hunc & _ & Hlife).
  split; [exact testdb_log_ok|]. split; [reflexivity|].
  split; [exact Hcalls|]. split; [exact Hnext|]. split; [exact Hunc|].
  exact (proj1 (Hlife [(no_faults, Scenario.testdb)])).
Defined.

(** X15 at work: a write into [mydb]. *)
Lemma change_log_stays_sound_witness :
  log_ok Scenario.mydb "mydb"
  ∧ log_step Scenario.mydb
      (writeJson "mydb" "kv" (KString "user:2") Scenario.ada no_faults Scenario.mydb).2
      "mydb".
Proof.
  destruct (change_log_stays_sound Scenario.push "mydb" "kv" (KString "user:2")
              Scenario.ada Scenario.always (new_observer []) no_faults Scenario.mydb
              "mydb" mydb_log_ok) as (Hasync & _).
  assert ("kv" ≠ "changeLog") as Hne by discriminate.
  split; [exact mydb_log_ok|]. exact (proj1 (Hasync (or_introl Hne))).
Defined.

(** X16 at work: the first write of an engine, into [changeLog]. *)
Lemma writeJson_into_the_log_store_witness :
  let r := writeJson "mydb" "changeLog" (KString "user:1") Scenario.ada no_faults
             empty_host in
  databases empty_host !! "mydb" = None
  ∧ r.1 = Rejected DataError
  ∧ records_of r.2 "mydb" "changeLog" = [(KString "user:1", Plain Scenario.ada)].
Proof.
  cbn zeta.
  destruct (writeJson_into_the_log_store "mydb" (KString "user:1") Scenario.ada
              no_faults empty_host eq_refl eq_refl eq_refl) as (Hrej & _ & Hrec & _).
  split; [reflexivity|]. split; [exact Hrej|exact Hrec].
Defined.

(** The engine after a second write under [user:1]. *)
Definition mydb_rewritten : Host :=
  (writeJson "mydb" "kv" (KString "user:1") Scenario.alice no_faults Scenario.mydb).2.

(** X17 at work: [user:1] written twice. *)
Lemma overwrite_keeps_history_witness :
  log_ok empty_host "mydb" ∧ "kv" ≠ "changeLog"
  ∧ writeJson "mydb" "kv" (KString "user:1") Scenario.ada no_faults empty_host
    = (Resolved tt, Scenario.mydb)
  ∧ writeJson "mydb" "kv" (KString "user:1") Scenario.alice no_faults Scenario.mydb
    = (Resolved tt, mydb_rewritten)
  ∧ records_get (KString "user:1") (records_of mydb_rewritten "mydb" "kv")
    = Some (Plain Scenario.alice)
  ∧ changeLog_of mydb_rewritten "mydb"
    = changeLog_of empty_host "mydb"
        ++ entries_from (next_id empty_host "mydb")
             [("kv", KString "user:1", Scenario.ada);
              ("kv", KString "user:1", Scenario.alice)].
Proof.
  assert ("kv" ≠ "changeLog") as Hne by discriminate.
  assert (writeJson "mydb" "kv" (KString "user:1") Scenario.ada no_faults empty_host
          = (Resolved tt, Scenario.mydb)) as Hw1 by (vm_compute; reflexivity).
  assert (writeJson "mydb" "kv" (KString "user:1") Scenario.alice no_faults Scenario.mydb
          = (Resolved tt, mydb_rewritten)) as Hw2 by (vm_compute; reflexivity).
  destruct (overwrite_keeps_history "mydb" "kv" (KString "user:1") Scenario.ada
              Scenario.alice no_faults no_faults empty_host Scenario.mydb mydb_rewritten
              (empty_host_log_ok "mydb") Hne Hw1 Hw2) as (_ & Hget & Hlog).
  split; [exact (empty_host_log_ok "mydb")|]. split; [exact Hne|].
  split; [exact Hw1|]. split; [exact Hw2|]. split; [exact Hget|exact Hlog].
Defined.

(** The engine after [key3] and then [key2] have been written. *)
Definition charlie_then_bob : Host :=
  (writeJson "testdb" "teststore" (KString "key2") Scenario.bob no_faults
     (writeJson "testdb" "teststore" (KString "key3") Scenario.charlie no_faults
        empty_host).2).2.

Lemma charlie_then_bob_sorted : stores_sorted charlie_then_bob.
Proof. do 2 apply writeJson_sorted. exact empty_host_sorted. Qed.

(** X18 at work: [key3], [key2] and [key1], written in that order, are
    held and scanned in the order of their keys; so are a number, a
    string and an array; and of two strings the one whose first code unit
    is the smaller comes first, here the surrogate pair of U+1F600 before
    U+FF5E. *)
Lemma records_stay_in_key_order_witness :
  let h := (writeJson "testdb" "teststore" (KString "key1") Scenario.alice
              no_faults charlie_then_bob).2 in
  let mixed :=
    (writeJson "testdb" "teststore" (KNumber 7) Scenario.bob no_faults
       (writeJson "testdb" "teststore" (KArray []) Scenario.charlie no_faults h).2).2 in
  let wide :=
    (writeJson "testdb" "teststore" (KString [55357; 56832]%N) Scenario.bob no_faults
       (writeJson "testdb" "teststore" (KString [65374]%N) Scenario.alice no_faults
          empty_host).2).2 in
  stores_sorted charlie_then_bob
  ∧ records_of charlie_then_bob "testdb" "teststore"
    = [(KString "key2", Plain Scenario.bob); (KString "key3", Plain Scenario.charlie)]
  ∧ stores_sorted h
  ∧ records_of h "testdb" "teststore"
    = [(KString "key1", Plain Scenario.alice); (KString "key2", Plain Scenario.bob);
       (KString "key3", Plain Scenario.charlie)]
  ∧ (readMultipleRecords "testdb" "teststore" Scenario.always no_faults h).1
    = Resolved [Plain Scenario.alice; Plain Scenario.bob; Plain Scenario.charlie]
  ∧ map fst (records_of mixed "testdb" "teststore")
    = [KNumber 7; KString "key1"; KString "key2"; KString "key3"; KArray []]
  ∧ map fst (records_of wide "testdb" "teststore")
    = [KString [55357; 56832]%N; KString [65374]%N].
Proof.
  cbn zeta.
  destruct (records_stay_in_key_order Scenario.push "testdb" "teststore"
              (KString "key1") Scenario.alice Scenario.always (new_observer [])
              no_faults charlie_then_bob charlie_then_bob_sorted) as (_ & Hw & _).
  split; [exact charlie_then_bob_sorted|]. split; [vm_compute; reflexivity|].
  split; [exact Hw|]. split; [vm_compute; reflexivity|].
  split; [vm_compute; reflexivity|]. split; vm_compute; reflexivity.
Defined.

Lemma id_up_to_2_total (rs : list Record_) : total_on Scenario.id_up_to_2 rs.
Proof. apply total_on_inr. intros v. eexists. reflexivity. Qed.

(** X19 at work: the suite's bulk deletion, with a commit that fails. *)
Lemma failed_commit_goes_unnoticed_witness :
  let dm := deleteMultipleRecords "testdb" "teststore" Scenario.id_up_to_2
              Scenario.commit_fails Scenario.testdb in
  open_fault Scenario.commit_fails = false
  ∧ tx_fault Scenario.commit_fails = Some CommitError
  ∧ is_Some (store_of Scenario.testdb "testdb" "teststore")
  ∧ total_on Scenario.id_up_to_2 (records_of Scenario.testdb "testdb" "teststore")
  ∧ dm.1 = Resolved tt
  ∧ aborted Scenario.testdb dm.2
  ∧ records_of dm.2 "testdb" "teststore"
    = records_of Scenario.testdb "testdb" "teststore".
Proof.
  cbn zeta.
  destruct (failed_commit_goes_unnoticed "testdb" "teststore" Scenario.id_up_to_2
              Scenario.commit_fails Scenario.testdb eq_refl eq_refl testdb_teststore
              (id_up_to_2_total _)) as (_ & Hres & Habort & Hsame & _).
  split; [reflexivity|]. split; [reflexivity|]. split; [exact testdb_teststore|].
  split; [apply id_up_to_2_total|]. split; [exact Hres|]. split; [exact Habort|].
  apply Hsame.
Defined.

Lemma testdb_reachable : reachable Scenario.testdb.
Proof.
  assert (Scenario.testdb
          = (writeJson "testdb" "teststore" (KString "key3") Scenario.charlie no_faults
               (writeJson "testdb" "teststore" (KString "key2") Scenario.bob no_faults
                  (writeJson "testdb" "teststore" (KString "key1") Scenario.alice
                     no_faults empty_host).2).2).2) as ->
    by (vm_compute; reflexivity).
  repeat (apply reachable_writeJson; [|discriminate]). apply reachable_empty.
Qed.

(** X21 at work: the engine of the bulk tests. *)
Lemma reachable_states_are_sound_witness :
  reachable Scenario.testdb
  ∧ log_ok Scenario.testdb "testdb"
  ∧ stores_sorted Scenario.testdb
  ∧ handles_ok Scenario.testdb.
Proof.
  destruct (reachable_states_are_sound Scenario.testdb testdb_reachable)
    as (Hlog & Hsorted & _ & Hhandles).
  split; [exact testdb_reachable|]. split; [apply Hlog|].
  split; [exact Hsorted|exact Hhandles].
Defined.

(** The engine after [key2] and then [key1] have been written. *)
Definition bob_then_alice : Host :=
  (writeJson "testdb" "teststore" (KString "key1") Scenario.alice no_faults
     (writeJson "testdb" "teststore" (KString "key2") Scenario.bob no_faults
        empty_host).2).2.

Definition alice_then_bob : Host :=
  (writeJson "testdb" "teststore" (KString "key2") Scenario.bob no_faults
     (writeJson "testdb" "teststore" (KString "key1") Scenario.alice no_faults
        empty_host).2).2.

(** X22 at work: [key1] and [key2] written in both orders. *)
Lemma writes_under_different_keys_commute_witness :
  ascending (records_of empty_host "testdb" "teststore")
  ∧ "teststore" ≠ "changeLog" ∧ KString "key1" ≠ KString "key2"
  ∧ records_of alice_then_bob "testdb" "teststore"
    = records_of bob_then_alice "testdb" "teststore".
Proof.
  assert ("teststore" ≠ "changeLog") as Hstore by discriminate.
  assert (KString "key1" ≠ KString "key2") as Hne by discriminate.
  split; [apply empty_host_sorted|]. split; [exact Hstore|]. split; [exact Hne|].
  apply (writes_under_different_keys_commute "testdb" "teststore"
           (KString "key1") (KString "key2") Scenario.alice Scenario.bob
           no_faults no_faults no_faults no_faults empty_host
           (writeJson "testdb" "teststore" (KString "key1") Scenario.alice no_faults
              empty_host).2
           alice_then_bob
           (writeJson "testdb" "teststore" (KString "key2") Scenario.bob no_faults
              empty_host).2
           bob_then_alice
           (empty_host_sorted "testdb" "teststore") Hstore Hne);
    vm_compute; reflexivity.
Defined.

(** X1 at work: a key that [kv] does not hold reads as [undefined]. *)
Lemma readJson_reads_the_store_witness :
  (db_version (current Scenario.mydb "mydb") ≤ 1)%N
  ∧ is_Some (store_of Scenario.mydb "mydb" "kv")
  ∧ records_get (KString "user:9") (records_of Scenario.mydb "mydb" "kv") = None
  ∧ (readJson "mydb" "kv" (KString "user:9") no_faults Scenario.mydb).1
    = Resolved (records_get (KString "user:9") (records_of Scenario.mydb "mydb" "kv")).
Proof.
  destruct (readJson_reads_the_store "mydb" "kv" (KString "user:9") no_faults
              Scenario.mydb) as (_ & Hres & _).
  split; [exact mydb_version|]. split; [exact mydb_kv|].
  split; [vm_compute; reflexivity|].
  exact (Hres eq_refl eq_refl mydb_version (or_intror mydb_kv)).
Defined.

(** X4 at work: a write under [user:2] leaves [user:1] as it was. *)
Lemma writeJson_touches_one_record_witness :
  let r := writeJson "mydb" "kv" (KString "user:2") Scenario.alice no_faults
             Scenario.mydb in
  "kv" ≠ "changeLog" ∧ KString "user:1" ≠ KString "user:2"
  ∧ records_get (KString "user:1") (records_of r.2 "mydb" "kv")
    = records_get (KString "user:1") (records_of Scenario.mydb "mydb" "kv").
Proof.
  cbn zeta.
  assert ("kv" ≠ "changeLog") as Hstore by discriminate.
  assert (KString "user:1" ≠ KString "user:2") as Hne by discriminate.
  destruct (writeJson_touches_one_record "mydb" "kv" (KString "user:2") Scenario.alice
              no_faults Scenario.mydb) as (_ & Hkeys & _).
  split; [exact Hstore|]. split; [exact Hne|].
  exact (Hkeys Hstore (KString "user:1") Hne).
Defined.

(** X7 at work: the suite's scan leaves [teststore] as it was. *)
Lemma reads_change_no_record_witness :
  records_of
    (readMultipleRecords "testdb" "teststore" Scenario.id_above_1 no_faults
       Scenario.testdb).2 "testdb" "teststore"
  = records_of Scenario.testdb "testdb" "teststore".
Proof.
  exact (proj1 (proj2 (reads_change_no_record Scenario.push "testdb" "teststore"
                         (KString "key1") Scenario.id_above_1 (new_observer [])
                         no_faults Scenario.testdb "testdb" "teststore"))).
Defined.

(** X14 at work: a pass whose open fails, in both notifiers. *)
Lemma notifiers_differ_in_what_they_print_witness :
  let pass :=
    onNewRecord_pollForChanges Scenario.push "testdb" (new_observer [])
      Scenario.open_fails Scenario.testdb in
  let passWithLog :=
    onNewRecordWithLog_pollForChanges Scenario.push "testdb" (new_observer [])
      Scenario.open_fails Scenario.testdb in
  passWithLog.1 = pass.1 ∧ console pass.2 = console Scenario.testdb.
Proof.
  cbn zeta.
  destruct (notifiers_differ_in_what_they_print Scenario.push "testdb" (new_observer [])
              Scenario.open_fails Scenario.testdb) as (Hsame & Hquiet & _).
  split; [exact Hsame|exact Hquiet].
Defined.

(** The second request of the transaction fails: in the suite's bulk
    deletion, the [cursor.delete()] of the record of Alice; in a scan
    that reads, the cursor's advance to the record of Bob. *)
Definition second_request_fails : Faults :=
  {| open_fault := false; tx_fault := Some (RequestError 1) |}.

(** X20 at work: the suite's scans when the second request fails.  The
    scan that reads prints the error once; the scan that deletes prints
    it, and then the [AbortError] of the [cursor.continue()] that was
    pending. *)
Lemma scans_print_what_they_reject_witness :
  let rm := readMultipleRecords "testdb" "teststore" Scenario.id_up_to_2
              second_request_fails Scenario.testdb in
  let dm := deleteMultipleRecords "testdb" "teststore" Scenario.id_up_to_2
              second_request_fails Scenario.testdb in
  rm.1 = Rejected UnknownError
  ∧ dm.1 = Rejected UnknownError
  ∧ (∃ msg, console rm.2 = console Scenario.testdb ++ [(msg, Some UnknownError)])
  ∧ (∃ msg,
       console dm.2 = console Scenario.testdb ++ [(msg, Some UnknownError)]
       ∨ console dm.2
         = console Scenario.testdb
             ++ [(msg, Some UnknownError); (msg, Some AbortError)])
  ∧ console rm.2 = [("Transaction error:", Some UnknownError)]
  ∧ console dm.2
    = [("Transaction error:", Some UnknownError);
       ("Transaction error:", Some AbortError)].
Proof.
  cbn zeta.
  assert ((readMultipleRecords "testdb" "teststore" Scenario.id_up_to_2
             second_request_fails Scenario.testdb).1 = Rejected UnknownError) as Hrm
    by (vm_compute; reflexivity).
  assert ((deleteMultipleRecords "testdb" "teststore" Scenario.id_up_to_2
             second_request_fails Scenario.testdb).1 = Rejected UnknownError) as Hdm
    by (vm_compute; reflexivity).
  destruct (scans_print_what_they_reject "testdb" "teststore" Scenario.id_up_to_2
              second_request_fails Scenario.testdb) as (Hread & _ & Hdelete & _).
  split; [exact Hrm|]. split; [exact Hdm|].
  split; [exact (Hread UnknownError Hrm)|].
  split; [exact (Hdelete UnknownError Hdm)|].
  split; vm_compute; reflexivity.
Defined.
